(** * HanOS virtual file system: a shallow embedding of [kernel/fs/vfs.c]

    The development follows the C file function by function.  Machine
    integers are [Z] with the wrap-around written out, the kernel heap is a
    pair of finite maps from addresses to tree nodes and inodes, the table
    of open files is a finite map from handles to descriptors, and a
    dereference of a pointer that is not live is reported as [None]
    (undefined behaviour in C).  The filesystem back-ends are not part of
    [vfs.c]; they are taken as a table of providers whose operations are
    arbitrary functions on the node heap, and every call the VFS makes to a
    provider is recorded in a trace. *)

From Stdlib Require Import ZArith Lia List Ascii String Bool Sorted.
From stdpp Require Import base option gmap strings list fin_maps.

Open Scope Z_scope.

(** ** Machine integers *)

Module Int.

(** [size_t] and [uint64_t]: arithmetic is modulo [2^64]. *)
Definition modulus : Z := 2 ^ 64.
Definition half_modulus : Z := 2 ^ 63.

Definition wrap64 (z : Z) : Z := z mod modulus.

(** The conversion [(int64_t) z] of a 64-bit pattern: two's complement. *)
Definition to_int64 (z : Z) : Z := (z + half_modulus) mod modulus - half_modulus.

(** The C operators on [size_t] operands. *)
Definition add64 (a b : Z) : Z := wrap64 (a + b).
Definition sub64 (a b : Z) : Z := wrap64 (a - b).

Definition is_size_t (z : Z) : Prop := 0 <= z < modulus.

End Int.

Import Int.

(** ** Data model ([fs/vfs.h], used by every function of [vfs.c]) *)

(** Addresses of heap objects.  A nullable pointer is an [option ptr]. *)
Abbreviation ptr := positive.

(** Modelled from the spec: the header [fs/vfs.h] is not among the sources;
    the closed set of node types is the one of section 3 of the
    specification. *)
Inductive vfs_node_type_t :=
  | VFS_NODE_FILE
  | VFS_NODE_SYMLINK
  | VFS_NODE_FOLDER
  | VFS_NODE_BLOCK_DEVICE
  | VFS_NODE_CHAR_DEVICE
  | VFS_NODE_MOUNTPOINT
  | VFS_NODE_PIPE.

#[global] Instance vfs_node_type_eq_dec : EqDecision vfs_node_type_t.
Proof. solve_decision. Defined.

(** Modelled from the spec: the open modes of section 6. *)
Inductive vfs_openmode_t :=
  | VFS_MODE_READ
  | VFS_MODE_WRITE
  | VFS_MODE_READWRITE
  | VFS_MODE_APPEND.

#[global] Instance vfs_openmode_eq_dec : EqDecision vfs_openmode_t.
Proof. solve_decision. Defined.

(** The [stat] record of a tree node.  [st_nlink] is an unsigned count on
    which the code only compares and stores constants, so it is an [N];
    [st_size] is a 64-bit pattern. *)
Record vfs_stat_t := {
  st_dev : Z;
  st_ino : Z;
  st_mode : Z;
  st_nlink : N;
  st_size : Z
}.

Record vfs_tnode_t := {
  t_name : string;
  t_inode : ptr;
  t_st : vfs_stat_t;
  t_parent : option ptr
}.

(** [i_fs] is the provider pointer, an index into the provider table;
    [i_size] and [i_refcount] are kept as the unsigned bit patterns the C
    fields hold. *)
Record vfs_inode_t := {
  i_type : vfs_node_type_t;
  i_perms : Z;
  i_size : Z;
  i_refcount : Z;
  i_fs : option nat;
  i_ident : Z;
  i_mountpoint : option ptr;
  i_child : list ptr
}.

Record vfs_node_desc_t := {
  d_path : string;
  d_tnode : ptr;
  d_inode : ptr;
  d_seek_pos : Z;
  d_mode : vfs_openmode_t
}.

(** The node heap: what back-ends receive pointers into. *)
Record vfs_heap := {
  tnodes : gmap positive vfs_tnode_t;
  inodes : gmap positive vfs_inode_t
}.

(** A filesystem provider.  [mount], [open], [read] and [write] are always
    present; [sync] and [rmnode] may be null.  (The operations [refresh],
    [getdent] and [ioctl] are used only by functions that are not modelled
    below.)  Buffers are lists of bytes. *)
Record vfs_fsinfo_t := {
  fs_name : string;
  fs_istemp : bool;
  fs_mount : vfs_heap -> option ptr -> ptr * vfs_heap;
  fs_open : vfs_heap -> ptr -> string -> option ptr * vfs_heap;
  fs_read : vfs_heap -> ptr -> Z -> Z -> list Z -> Z * list Z * vfs_heap;
  fs_write : vfs_heap -> ptr -> Z -> Z -> list Z -> Z * vfs_heap;
  fs_sync : option (vfs_heap -> ptr -> vfs_heap);
  fs_rmnode : option (vfs_heap -> ptr -> vfs_heap)
}.

(** The calls the VFS makes to providers, in the order it makes them. *)
Inductive fs_call :=
  | CallMount (fs : nat) (dev : option ptr)
  | CallOpen (fs : nat) (inode : ptr) (path : string)
  | CallRead (fs : nat) (inode : ptr) (offset len : Z)
  | CallWrite (fs : nat) (inode : ptr) (offset len : Z)
  | CallSync (fs : nat) (inode : ptr)
  | CallRmnode (fs : nat) (tnode : ptr).

(** The globals of [vfs.c]: the heap reachable from [vfs_root], the hash
    table [vfs_openfiles], the counter [vfs_next_handle], the TTY handle
    [ttyfh], and the trace of provider calls. *)
Record vfs_state := {
  heap : vfs_heap;
  vfs_openfiles : gmap Z vfs_node_desc_t;
  vfs_next_handle : Z;
  ttyfh : Z;
  calls : list fs_call
}.

Definition set_heap (s : vfs_state) (h : vfs_heap) : vfs_state :=
  {| heap := h; vfs_openfiles := vfs_openfiles s;
     vfs_next_handle := vfs_next_handle s; ttyfh := ttyfh s; calls := calls s |}.

Definition set_openfiles (s : vfs_state) (t : gmap Z vfs_node_desc_t) : vfs_state :=
  {| heap := heap s; vfs_openfiles := t;
     vfs_next_handle := vfs_next_handle s; ttyfh := ttyfh s; calls := calls s |}.

Definition log_call (s : vfs_state) (c : fs_call) : vfs_state :=
  {| heap := heap s; vfs_openfiles := vfs_openfiles s;
     vfs_next_handle := vfs_next_handle s; ttyfh := ttyfh s;
     calls := calls s ++ [c] |}.

Definition set_inode (h : vfs_heap) (p : ptr) (i : vfs_inode_t) : vfs_heap :=
  {| tnodes := tnodes h; inodes := <[p := i]> (inodes h) |}.

Definition set_tnode (h : vfs_heap) (p : ptr) (t : vfs_tnode_t) : vfs_heap :=
  {| tnodes := <[p := t]> (tnodes h); inodes := inodes h |}.

Definition free_inode (h : vfs_heap) (p : ptr) : vfs_heap :=
  {| tnodes := tnodes h; inodes := delete p (inodes h) |}.

(** Field updates written in C as assignments through a pointer. *)
Definition with_size (i : vfs_inode_t) (n : Z) : vfs_inode_t :=
  {| i_type := i_type i; i_perms := i_perms i; i_size := n;
     i_refcount := i_refcount i; i_fs := i_fs i; i_ident := i_ident i;
     i_mountpoint := i_mountpoint i; i_child := i_child i |}.

Definition with_refcount (i : vfs_inode_t) (n : Z) : vfs_inode_t :=
  {| i_type := i_type i; i_perms := i_perms i; i_size := i_size i;
     i_refcount := n; i_fs := i_fs i; i_ident := i_ident i;
     i_mountpoint := i_mountpoint i; i_child := i_child i |}.

Definition with_mountpoint (i : vfs_inode_t) (m : option ptr) : vfs_inode_t :=
  {| i_type := i_type i; i_perms := i_perms i; i_size := i_size i;
     i_refcount := i_refcount i; i_fs := i_fs i; i_ident := i_ident i;
     i_mountpoint := m; i_child := i_child i |}.

Definition with_st_size (t : vfs_tnode_t) (n : Z) : vfs_tnode_t :=
  {| t_name := t_name t; t_inode := t_inode t;
     t_st := {| st_dev := st_dev (t_st t); st_ino := st_ino (t_st t);
                st_mode := st_mode (t_st t); st_nlink := st_nlink (t_st t);
                st_size := n |};
     t_parent := t_parent t |}.

Definition with_st_nlink (t : vfs_tnode_t) (n : N) : vfs_tnode_t :=
  {| t_name := t_name t; t_inode := t_inode t;
     t_st := {| st_dev := st_dev (t_st t); st_ino := st_ino (t_st t);
                st_mode := st_mode (t_st t); st_nlink := n;
                st_size := st_size (t_st t) |};
     t_parent := t_parent t |}.

Definition with_t_inode (t : vfs_tnode_t) (p : ptr) : vfs_tnode_t :=
  {| t_name := t_name t; t_inode := p; t_st := t_st t; t_parent := t_parent t |}.

Definition with_seek_pos (d : vfs_node_desc_t) (n : Z) : vfs_node_desc_t :=
  {| d_path := d_path d; d_tnode := d_tnode d; d_inode := d_inode d;
     d_seek_pos := n; d_mode := d_mode d |}.

(** Modelled from the spec: [vfs_handle_to_fd] and the hash table of
    [base/hash.h] live in files that are not among the sources.  Section
    4.4: the handle table is a hash mapping from handle to descriptor with
    [insert(h, fd)], [lookup(h) -> fd?] and [delete(h)]; [ht_insert] and
    [ht_delete] are the insertion and deletion of the finite map. *)
Definition vfs_handle_to_fd (s : vfs_state) (handle : Z) : option vfs_node_desc_t :=
  vfs_openfiles s !! handle.

(** ** [vfs_seek] ([vfs.c], lines 396-435) *)

Definition SEEK_CUR : Z := 1.
Definition SEEK_END : Z := 2.
Definition SEEK_SET : Z := 3.

(** The [switch] of [vfs_seek]: the [int64_t] variable [offset] starts at
    [-1] and is assigned in the three cases from [size_t] expressions. *)
Definition seek_offset (seek_pos size pos whence : Z) : Z :=
  if decide (whence = SEEK_SET) then to_int64 pos
  else if decide (whence = SEEK_CUR) then to_int64 (add64 seek_pos pos)
  else if decide (whence = SEEK_END) then to_int64 (sub64 size pos)
  else -1.

Definition vfs_seek (s : vfs_state) (handle : Z) (pos : Z) (whence : Z)
  : option (Z * vfs_state) :=
  match vfs_handle_to_fd s handle with
  | None => Some (-1, s)
  | Some fd =>
    match inodes (heap s) !! d_inode fd with
    | None => None
    | Some ino =>
      let offset := seek_offset (d_seek_pos fd) (i_size ino) pos whence in
      if bool_decide (offset > to_int64 (i_size ino) \/ offset < 0) then
        Some (-1, s)
      else if bool_decide (offset >= 0 /\ offset <= to_int64 (i_size ino)) then
        Some (offset,
              set_openfiles s (<[handle := with_seek_pos fd (wrap64 offset)]> (vfs_openfiles s)))
      else Some (-1, s)
    end
  end.

(** The state after a seek that stores [off] in the descriptor of [handle]. *)
Definition seek_stored (s : vfs_state) (handle : Z) (fd : vfs_node_desc_t) (off : Z)
  : vfs_state :=
  set_openfiles s (<[handle := with_seek_pos fd off]> (vfs_openfiles s)).

(** ** C strings and character buffers *)

(** A buffer is the list of its bytes; what lies beyond the end of the list
    reads as NUL.  Buffers are taken to be as large as the copies into them
    require (C leaves a copy into a smaller buffer undefined). *)
Definition NUL : ascii := "000"%char.
Definition SLASH : ascii := "/"%char.

Fixpoint strlen (buf : list ascii) : nat :=
  match buf with
  | [] => 0%nat
  | c :: rest => if decide (c = NUL) then 0%nat else S (strlen rest)
  end.

(** The string a buffer holds: its bytes before the first NUL. *)
Definition c_str (buf : list ascii) : list ascii := take (strlen buf) buf.

Definition strcpy (dst src : list ascii) : list ascii :=
  c_str src ++ NUL :: drop (S (strlen src)) dst.

(** [strcpy] into an array of [cap] characters: a string that does not fit
    with its NUL is written beyond the end of the array, which is
    undefined. *)
Definition strcpy_in (cap : nat) (dst src : list ascii) : option (list ascii) :=
  if decide (strlen src < cap)%nat then Some (strcpy dst src) else None.

(** [buf[idx]]; the one read below index 0 that [vfs_get_parent_dir] can
    perform yields whatever byte [stray] precedes the buffer. *)
Definition buf_get (stray : ascii) (buf : list ascii) (idx : Z) : ascii :=
  if decide (idx < 0) then stray else nth (Z.to_nat idx) buf NUL.

Definition buf_set (buf : list ascii) (idx : Z) (c : ascii) : list ascii :=
  <[Z.to_nat idx := c]> buf.

Definition nul_free (l : list ascii) : Prop := Forall (fun c => c <> NUL) l.
Definition slash_free (l : list ascii) : Prop := Forall (fun c => c <> SLASH) l.

(** Modelled from the spec: [libc/string.h] is not among the sources.
    [strncmp (a, b, n) == 0] on two NUL-free strings: they agree on their
    first [n] characters. *)
Definition strncmp_eq (a b : string) (n : nat) : bool :=
  bool_decide (take n (list_ascii_of_string a) = take n (list_ascii_of_string b)).

(** ** [vfs_get_parent_dir] ([vfs.c], lines 437-475) *)

(** First loop: [while (idx >= 0)], dropping the trailing slashes.  [None]
    only when the fuel runs out. *)
Fixpoint strip_loop (stray : ascii) (fuel : nat) (parent : list ascii) (idx : Z)
  : option (list ascii * Z) :=
  match fuel with
  | O => None
  | S fuel' =>
    if decide (idx >= 0) then
      let '(parent1, idx1) :=
        if decide (buf_get stray parent idx = SLASH)
        then (buf_set parent idx NUL, idx - 1)
        else (parent, idx) in
      if decide (buf_get stray parent1 idx1 <> SLASH) then Some (parent1, idx1)
      else strip_loop stray fuel' parent1 idx1
    else Some (parent, idx)
  end.

(** Second loop: [while (idx >= 0)], cutting at the last slash. *)
Fixpoint split_loop (stray : ascii) (fuel : nat) (parent : list ascii) (idx : Z)
  : option (list ascii * Z) :=
  match fuel with
  | O => None
  | S fuel' =>
    if decide (idx >= 0) then
      if decide (buf_get stray parent idx = SLASH)
      then Some (buf_set parent idx NUL, idx)
      else split_loop stray fuel' parent (idx - 1)
    else Some (parent, idx)
  end.

(** The result is the return value and the two output buffers.  A null
    pointer is [None]. *)
Definition vfs_get_parent_dir (stray : ascii)
    (path parent currdir : option (list ascii))
  : option (Z * option (list ascii) * option (list ascii)) :=
  match path, parent with
  | Some path, Some parent =>
    let parent := strcpy parent path in
    let idx := to_int64 (sub64 (Z.of_nat (strlen parent)) 1) in
    '(parent, idx) ← strip_loop stray (S (strlen parent)) parent idx;
    (* Do not have parent directory *)
    if decide (idx <= 0) then Some (-1, Some (buf_set parent 0 NUL), currdir)
    else
      (* Have parent directory *)
      '(parent, idx) ← split_loop stray (S (S (strlen parent))) parent idx;
      let currdir :=
        match currdir with
        | Some c =>
          if decide (idx >= 0)
          then Some (strcpy c (drop (Z.to_nat (idx + 1)) parent))
          else Some c
        | None => None
        end in
      let parent :=
        if decide (strlen parent = 0%nat) then strcpy parent [SLASH] else parent in
      Some (0, Some parent, currdir)
  | _, _ => Some (-1, parent, currdir)
  end.

(** ** The operations of [vfs.c] *)

Section Vfs.

(** The list of installed filesystems, filled by [vfs_init] before any of the
    operations below runs.  An inode's provider pointer is an index into
    it. *)
Variable vfs_fslist : list vfs_fsinfo_t.

(** [sizeof (((vfs_fsinfo_t) { 0 }).name)]: the header is not among the
    sources. *)
Variable FS_NAME_SIZE : nat.

(** Modelled from the spec: [vfs_path_to_node] lives in a file that is not
    among the sources.  [vfs.c] calls it with [NO_CREATE] in the functions
    modelled here; section 4.3: on a miss under [NO_CREATE] the resolver
    fails, and it creates nothing.  The result is the tree node naming the
    final component, or a null pointer. *)
Variable vfs_path_to_node : vfs_heap -> string -> option ptr.

(** [VFS_INVALID_HANDLE], from the missing header. *)
Variable VFS_INVALID_HANDLE : Z.

(** The number of values of the type of the [refcount] field, which is an
    unsigned counter declared in the missing header. *)
Variable refcount_modulus : Z.

(** The byte in front of the [parent] array of [vfs_open]. *)
Variable stray : ascii.

(** [VFS_MAX_PATH_LEN], from the missing header: the number of characters
    of the arrays [curpath] and [parent] of [vfs_open]. *)
Variable VFS_MAX_PATH_LEN : nat.

(** The number of characters of the array [path] of a descriptor:
    [vfs_node_desc_t] is declared in the missing header. *)
Variable DESC_PATH_LEN : nat.

(** [kmfree] is not among the sources.  [vfs_close] reads the descriptor
    after it has handed it to [kmfree]: [after_kmfree fd] is what those
    reads find in the block that held [fd], and [None] where reading a
    freed block is undefined, as it is in C. *)
Variable after_kmfree : vfs_node_desc_t -> option vfs_node_desc_t.

Definition the_fs (fsid : nat) : option vfs_fsinfo_t := vfs_fslist !! fsid.

(** *** [vfs_get_fs] (lines 108-116) *)

Fixpoint vfs_get_fs_from (i : nat) (l : list vfs_fsinfo_t) (name : string)
  : option nat :=
  match l with
  | [] => None
  | fs :: rest =>
    if strncmp_eq name (fs_name fs) FS_NAME_SIZE then Some i
    else vfs_get_fs_from (S i) rest name
  end.

Definition vfs_get_fs (name : string) : option nat :=
  vfs_get_fs_from 0 vfs_fslist name.

(** *** [vfs_mount] (lines 230-271)

    [device] may be a null pointer; handing a null pointer to the resolver
    is taken to be undefined. *)
Definition mount_device (h : vfs_heap) (fs : vfs_fsinfo_t) (device : option string)
  : option (option (option ptr)) :=
  if fs_istemp fs then Some (Some None)
  else
    device ← device;
    match vfs_path_to_node h device with
    | None => Some None
    | Some dev =>
      dtn ← tnodes h !! dev;
      dino ← inodes h !! t_inode dtn;
      if decide (i_type dino <> VFS_NODE_BLOCK_DEVICE) then Some None
      else Some (Some (Some dev))
    end.

Definition vfs_mount (s : vfs_state) (device : option string) (path fsname : string)
  : option (Z * vfs_state) :=
  match vfs_get_fs fsname with
  | None => Some (-1, s)
  | Some fsid =>
    fs ← the_fs fsid;
    dev ← mount_device (heap s) fs device;
    match dev with
    | None => Some (-1, s)
    | Some dev =>
      match vfs_path_to_node (heap s) path with
      | None => Some (-1, s)
      | Some at_ =>
        atn ← tnodes (heap s) !! at_;
        aino ← inodes (heap s) !! t_inode atn;
        if decide (i_type aino <> VFS_NODE_FOLDER \/ i_child aino <> []) then
          Some (-1, s)
        else
          let h1 := free_inode (heap s) (t_inode atn) in
          dev_inode ← match dev with
                      | Some d => dtn ← tnodes h1 !! d; Some (Some (t_inode dtn))
                      | None => Some None
                      end;
          let '(root, h2) := fs_mount fs h1 dev_inode in
          atn2 ← tnodes h2 !! at_;
          let h3 := set_tnode h2 at_ (with_t_inode atn2 root) in
          rino ← inodes h3 !! root;
          let h4 := set_inode h3 root (with_mountpoint rino (Some at_)) in
          Some (0, log_call (set_heap s h4) (CallMount fsid dev_inode))
      end
    end
  end.

(** *** [vfs_read] (lines 287-318) *)

(** "Truncate if asking for more data than available": the test of the
    first [if], and the value of [len] after it. *)
Definition read_truncates (s : vfs_state) (handle : Z) (fd : vfs_node_desc_t)
    (ino : vfs_inode_t) (len : Z) : Prop :=
  add64 (d_seek_pos fd) len > i_size ino /\ handle <> ttyfh s.

Definition read_len (s : vfs_state) (handle : Z) (fd : vfs_node_desc_t)
    (ino : vfs_inode_t) (len : Z) : Z :=
  if decide (read_truncates s handle fd ino len)
  then sub64 (i_size ino) (d_seek_pos fd) else len.

Definition vfs_read (s : vfs_state) (handle : Z) (len : Z) (buff : list Z)
  : option (Z * list Z * vfs_state) :=
  match vfs_handle_to_fd s handle with
  | None => Some (0, buff, s)
  | Some fd =>
    ino ← inodes (heap s) !! d_inode fd;
    let len1 := read_len s handle fd ino len in
    if decide (read_truncates s handle fd ino len /\ len1 = 0)
    then Some (to_int64 len1, buff, s)
    else
      fsid ← i_fs ino;
      fs ← the_fs fsid;
      let '(status, buff1, h1) :=
        fs_read fs (heap s) (d_inode fd) (d_seek_pos fd) len1 buff in
      let len2 := if decide (status = -1) then 0 else len1 in
      let fd1 := with_seek_pos fd (add64 (d_seek_pos fd) len2) in
      Some (to_int64 len2, buff1,
            log_call
              (set_heap (set_openfiles s (<[handle := fd1]> (vfs_openfiles s))) h1)
              (CallRead fsid (d_inode fd) (d_seek_pos fd) len1))
  end.

(** *** [vfs_unlink] (lines 323-360) *)

Definition vfs_unlink (s : vfs_state) (path : string) : option (Z * vfs_state) :=
  match vfs_path_to_node (heap s) path with
  | None => Some (-1, s)
  | Some req =>
    tn ← tnodes (heap s) !! req;
    if decide (1 < st_nlink (t_st tn))%N then Some (-1, s)
    else if decide (st_nlink (t_st tn) = 0%N) then Some (-1, s)
    else
      let h1 := set_tnode (heap s) req (with_st_nlink tn 0) in
      (* Remove this file if needed *)
      ino ← inodes h1 !! t_inode tn;
      if decide (i_refcount ino = 0) then
        fsid ← i_fs ino;
        fs ← the_fs fsid;
        match fs_rmnode fs with
        | Some rmnode =>
          Some (0, log_call (set_heap s (rmnode h1 req)) (CallRmnode fsid req))
        | None => Some (0, set_heap s h1)
        end
      else Some (0, set_heap s h1)
  end.

(** *** [vfs_write] (lines 363-393) *)

(** "Expand file if writing more data than its size". *)
Definition write_expand (s : vfs_state) (nd : vfs_node_desc_t) (len : Z)
  : option vfs_state :=
  ino ← inodes (heap s) !! d_inode nd;
  if decide (add64 (d_seek_pos nd) len > i_size ino) then
    let h1 := set_inode (heap s) (d_inode nd)
                (with_size ino (add64 (d_seek_pos nd) len)) in
    fsid ← i_fs ino;
    fs ← the_fs fsid;
    match fs_sync fs with
    | Some sync =>
      Some (log_call (set_heap s (sync h1 (d_inode nd))) (CallSync fsid (d_inode nd)))
    | None => Some (set_heap s h1)
    end
  else Some s.

Definition vfs_write (s : vfs_state) (handle : Z) (len : Z) (buff : list Z)
  : option (Z * vfs_state) :=
  match vfs_handle_to_fd s handle with
  | None => Some (0, s)
  | Some nd =>
    (* Cannot write to read-only files *)
    if decide (d_mode nd = VFS_MODE_READ) then Some (0, s)
    else
      s1 ← write_expand s nd len;
      ino1 ← inodes (heap s1) !! d_inode nd;
      fsid ← i_fs ino1;
      fs ← the_fs fsid;
      let '(status, h2) := fs_write fs (heap s1) (d_inode nd) (d_seek_pos nd) len buff in
      let len2 := if decide (status = -1) then 0 else len in
      (* Set file size to stat data structure *)
      tn ← tnodes h2 !! d_tnode nd;
      ino2 ← inodes h2 !! d_inode nd;
      let h3 := set_tnode h2 (d_tnode nd) (with_st_size tn (i_size ino2)) in
      Some (to_int64 len2,
            log_call (set_heap s1 h3)
              (CallWrite fsid (d_inode nd) (d_seek_pos nd) len))
  end.

(** *** [vfs_open] (lines 477-540) *)

(** The [while (true)] loop that walks up the ancestors of a path that
    does not resolve.  The result is [pn] and the [parent] buffer.  Both
    [curpath] and [parent] are arrays of [VFS_MAX_PATH_LEN] characters:
    [vfs_get_parent_dir] copies [curpath] into [parent], and the last
    statement of the loop copies [parent] into [curpath]. *)
Fixpoint ancestor_walk (fuel : nat) (h : vfs_heap) (curpath parent : list ascii)
  : option (option ptr * list ascii) :=
  match fuel with
  | O => None
  | S fuel' =>
    _ ← strcpy_in VFS_MAX_PATH_LEN parent curpath;
    '(_, parent1, _) ← vfs_get_parent_dir stray (Some curpath) (Some parent) None;
    parent1 ← parent1;
    if decide (c_str curpath = c_str parent1) then Some (None, parent1)
    else
      match vfs_path_to_node h (string_of_list_ascii (c_str parent1)) with
      | Some pn => Some (Some pn, parent1)
      | None =>
        curpath1 ← strcpy_in VFS_MAX_PATH_LEN curpath parent1;
        ancestor_walk fuel' h curpath1 parent1
      end
  end.

(** Everything from [req->inode->refcount++] to [return fh].  The counter
    [vfs_next_handle] is a [size_t]; the handle is its old value converted
    to [vfs_handle_t], taken to be [int64_t] as for the other results.
    [strcpy (nd->path, path)] writes into the array of the descriptor. *)
Definition open_finish (s : vfs_state) (req : ptr) (path : string)
    (mode : vfs_openmode_t) : option (Z * vfs_state) :=
  rtn ← tnodes (heap s) !! req;
  rino ← inodes (heap s) !! t_inode rtn;
  let rino1 := with_refcount rino ((i_refcount rino + 1) mod refcount_modulus) in
  let h1 := set_inode (heap s) (t_inode rtn) rino1 in
  (* Create node descriptor *)
  _ ← strcpy_in DESC_PATH_LEN [NUL] (list_ascii_of_string path ++ [NUL]);
  let nd := {| d_path := path; d_tnode := req; d_inode := t_inode rtn;
               d_seek_pos := 0; d_mode := mode |} in
  let h2 := set_tnode h1 req (with_st_size rtn (i_size rino1)) in
  (* Return the handle *)
  let fh := to_int64 (vfs_next_handle s) in
  Some (fh,
        {| heap := h2;
           vfs_openfiles := <[fh := nd]> (vfs_openfiles s);
           vfs_next_handle := add64 (vfs_next_handle s) 1;
           ttyfh := ttyfh s;
           calls := calls s |}).

(** A call of the provider's [open] on the inode of tree node [tn]. *)
Definition provider_open (s : vfs_state) (fsid : nat) (inode : ptr) (path : string)
  : option (option ptr * vfs_state) :=
  fs ← the_fs fsid;
  let '(req, h1) := fs_open fs (heap s) inode path in
  Some (req, log_call (set_heap s h1) (CallOpen fsid inode path)).

Definition vfs_open (s : vfs_state) (path : string) (mode : vfs_openmode_t)
  : option (Z * vfs_state) :=
  match vfs_path_to_node (heap s) path with
  | None =>
    (* curpath and parent start filled with 0 *)
    curpath ← strcpy_in VFS_MAX_PATH_LEN [NUL] (list_ascii_of_string path ++ [NUL]);
    '(pn, _) ← ancestor_walk (S (S (strlen curpath))) (heap s) curpath [NUL];
    match pn with
    | Some pn =>
      ptn ← tnodes (heap s) !! pn;
      pino ← inodes (heap s) !! t_inode ptn;
      match i_fs pino with
      | Some fsid =>
        '(req, s1) ← provider_open s fsid (t_inode ptn) path;
        match req with
        | Some req => open_finish s1 req path mode
        | None => Some (VFS_INVALID_HANDLE, s1)
        end
      | None => Some (VFS_INVALID_HANDLE, s)
      end
    | None => Some (VFS_INVALID_HANDLE, s)
    end
  | Some req =>
    rtn ← tnodes (heap s) !! req;
    rino ← inodes (heap s) !! t_inode rtn;
    match i_fs rino with
    | Some fsid =>
      '(req1, s1) ← provider_open s fsid (t_inode rtn) path;
      req1 ← req1;
      open_finish s1 req1 path mode
    | None => open_finish s req path mode
    end
  end.

(** *** [vfs_close] (lines 542-570)

    The descriptor is handed to [kmfree] (line 553) before its fields are
    read for the removal test (lines 558-561): every [fd->] of the test
    reads the freed block, through [after_kmfree]. *)
Definition vfs_close (s : vfs_state) (handle : Z) : option (Z * vfs_state) :=
  match vfs_handle_to_fd s handle with
  | None => Some (-1, s)
  | Some fd =>
    ino ← inodes (heap s) !! d_inode fd;
    let ino1 := with_refcount ino ((i_refcount ino - 1) mod refcount_modulus) in
    let h1 := set_inode (heap s) (d_inode fd) ino1 in
    (* kmfree (fd); ht_delete (&vfs_openfiles, handle) *)
    let s1 := set_openfiles (set_heap s h1) (delete handle (vfs_openfiles s)) in
    (* Remove this file if needed *)
    fd1 ← after_kmfree fd;
    ino2 ← inodes h1 !! d_inode fd1;
    if decide (i_refcount ino2 = 0) then
      tn ← tnodes h1 !! d_tnode fd1;
      if decide (st_nlink (t_st tn) = 0%N) then
        fsid ← i_fs ino2;
        fs ← the_fs fsid;
        match fs_rmnode fs with
        | Some rmnode =>
          Some (0, log_call (set_heap s1 (rmnode h1 (d_tnode fd1)))
                     (CallRmnode fsid (d_tnode fd1)))
        | None => Some (0, s1)
        end
      else Some (0, s1)
    else Some (0, s1)
  end.

(** *** Runs of the system

    The calls modelled above, and a run of several of them from a state,
    collecting what each returns.  (The other functions of [vfs.c] do not
    mention [vfs_next_handle].) *)
Inductive vfs_op :=
  | OpOpen (path : string) (mode : vfs_openmode_t)
  | OpClose (handle : Z)
  | OpRead (handle len : Z) (buff : list Z)
  | OpWrite (handle len : Z) (buff : list Z)
  | OpSeek (handle pos whence : Z)
  | OpUnlink (path : string)
  | OpMount (device : option string) (path fsname : string).

Definition vfs_exec (s : vfs_state) (op : vfs_op) : option (Z * vfs_state) :=
  match op with
  | OpOpen path mode => vfs_open s path mode
  | OpClose handle => vfs_close s handle
  | OpRead handle len buff => '(r, _, s1) ← vfs_read s handle len buff; Some (r, s1)
  | OpWrite handle len buff => vfs_write s handle len buff
  | OpSeek handle pos whence => vfs_seek s handle pos whence
  | OpUnlink path => vfs_unlink s path
  | OpMount device path fsname => vfs_mount s device path fsname
  end.

Fixpoint vfs_run (s : vfs_state) (ops : list vfs_op) : option (list Z * vfs_state) :=
  match ops with
  | [] => Some ([], s)
  | op :: rest =>
    '(r, s1) ← vfs_exec s op;
    '(rs, s2) ← vfs_run s1 rest;
    Some (r :: rs, s2)
  end.

(** The handles returned by the successful opens of a run: the results of
    the [vfs_open] calls other than [VFS_INVALID_HANDLE], in order. *)
Fixpoint opened_handles (ops : list vfs_op) (rets : list Z) : list Z :=
  match ops, rets with
  | OpOpen _ _ :: ops', r :: rets' =>
    if decide (r = VFS_INVALID_HANDLE) then opened_handles ops' rets'
    else r :: opened_handles ops' rets'
  | _ :: ops', _ :: rets' => opened_handles ops' rets'
  | _, _ => []
  end.

End Vfs.

(** ** What the VFS relies on from a provider

    The providers are outside [vfs.c].  The statements about sizes and
    reference counts below hold for providers that leave those fields of
    the nodes they are handed alone. *)

Definition inode_size (h : vfs_heap) (p : ptr) : option Z :=
  i_size <$> inodes h !! p.

Definition inode_refcount (h : vfs_heap) (p : ptr) : option Z :=
  i_refcount <$> inodes h !! p.

Definition tnode_st_size (h : vfs_heap) (t : ptr) : option Z :=
  (fun tn => st_size (t_st tn)) <$> tnodes h !! t.

Definition tnode_st_nlink (h : vfs_heap) (t : ptr) : option N :=
  (fun tn => st_nlink (t_st tn)) <$> tnodes h !! t.

(** Every node of [h] is still there in [h'], every inode with the size
    and the provider it had. *)
Definition sizes_kept (h h' : vfs_heap) : Prop :=
  (forall p i, inodes h !! p = Some i ->
     exists i', inodes h' !! p = Some i' /\ i_size i' = i_size i /\ i_fs i' = i_fs i)
  /\ (forall t, is_Some (tnodes h !! t) -> is_Some (tnodes h' !! t)).

(** The provider's [sync] and [write] keep sizes. *)
Definition keeps_sizes (fs : vfs_fsinfo_t) : Prop :=
  (forall sync h p, fs_sync fs = Some sync -> sizes_kept h (sync h p))
  /\ (forall h p off len buff, sizes_kept h (fs_write fs h p off len buff).2).

(** The calls of [vfs_write] before the provider's [write]: the [sync] of a
    growing file, when the provider has one. *)
Definition sync_calls (fs : vfs_fsinfo_t) (fsid : nat) (inode : ptr) (grows : bool)
  : list fs_call :=
  if grows then match fs_sync fs with Some _ => [CallSync fsid inode] | None => [] end
  else [].

(** ** Reference counts and descriptors *)

(** The number of live descriptors that reference the inode at [p]. *)
Definition refs (tbl : gmap Z vfs_node_desc_t) (p : ptr) : nat :=
  size (filter (fun kv => d_inode kv.2 = p) tbl).

(** Every live inode counts the descriptors that reference it, and every
    descriptor references a live inode. *)
Definition refcounts_exact (s : vfs_state) : Prop :=
  (forall p ino, inodes (heap s) !! p = Some ino ->
     i_refcount ino = Z.of_nat (refs (vfs_openfiles s) p))
  /\ (forall h d, vfs_openfiles s !! h = Some d ->
       is_Some (inodes (heap s) !! d_inode d)).

(** The reference counts hold values of their type. *)
Definition refcounts_typed (modulus : Z) (h : vfs_heap) : Prop :=
  forall p ino, inodes h !! p = Some ino -> 0 <= i_refcount ino < modulus.

(** What [vfs_open] relies on from a provider's [open]: the inodes that
    were there stay, with their reference counts, and an inode it creates
    starts with a reference count of 0. *)
Definition refcounts_kept (h h' : vfs_heap) : Prop :=
  (forall p i, inodes h !! p = Some i ->
     exists i', inodes h' !! p = Some i' /\ i_refcount i' = i_refcount i)
  /\ (forall p i', inodes h !! p = None -> inodes h' !! p = Some i' ->
       i_refcount i' = 0).

Definition open_keeps_refcounts (fslist : list vfs_fsinfo_t) : Prop :=
  forall fsid fs h p path,
    fslist !! fsid = Some fs -> refcounts_kept h (fs_open fs h p path).2.

(** What [vfs_close] relies on from a provider's [rmnode]: it creates no
    inode, changes no reference count, and frees only inodes whose
    reference count is 0. *)
Definition only_unreferenced_freed (h h' : vfs_heap) : Prop :=
  (forall p i', inodes h' !! p = Some i' ->
     exists i, inodes h !! p = Some i /\ i_refcount i' = i_refcount i)
  /\ (forall p i, inodes h !! p = Some i -> i_refcount i <> 0 ->
       is_Some (inodes h' !! p)).

Definition rmnode_frees_unreferenced (fslist : list vfs_fsinfo_t) : Prop :=
  forall fsid fs rmnode h t,
    fslist !! fsid = Some fs -> fs_rmnode fs = Some rmnode ->
    only_unreferenced_freed h (rmnode h t).

(** The reference count of the inode at [p], 0 when there is no inode
    there yet. *)
Definition refcount_before (h : vfs_heap) (p : ptr) : Z :=
  default 0 (inode_refcount h p).

(** ** Concrete providers and states used by the examples *)

Module Ex.

(** Modelled from the spec: a resolver after section 4.3, walking the
    components of the path from the root tree node (address 1) through the
    child vectors. *)
Fixpoint split_path (cs : list ascii) (cur : list ascii) : list (list ascii) :=
  match cs with
  | [] => match cur with [] => [] | _ => [rev cur] end
  | c :: rest =>
    if decide (c = SLASH)
    then match cur with [] => split_path rest [] | _ => rev cur :: split_path rest [] end
    else split_path rest (c :: cur)
  end.

Definition find_child (h : vfs_heap) (dir : ptr) (name : list ascii) : option ptr :=
  tn ← tnodes h !! dir;
  ino ← inodes h !! t_inode tn;
  head (List.filter (fun c => match tnodes h !! c with
                         | Some ctn => bool_decide (list_ascii_of_string (t_name ctn) = name)
                         | None => false
                         end) (i_child ino)).

Fixpoint walk (h : vfs_heap) (cur : ptr) (comps : list (list ascii)) : option ptr :=
  match comps with
  | [] => Some cur
  | name :: rest => c ← find_child h cur name; walk h c rest
  end.

Definition resolve (h : vfs_heap) (path : string) : option ptr :=
  walk h 1%positive (split_path (list_ascii_of_string path) []).

(** A memory-backed provider: reads and writes succeed with the length
    asked for, [open] hands back the resolved tree node, [rmnode] frees the
    tree node and, when nothing references it, its inode. *)
Definition ram_rmnode (h : vfs_heap) (t : ptr) : vfs_heap :=
  match tnodes h !! t with
  | Some tn =>
    match inodes h !! t_inode tn with
    | Some ino =>
      if decide (i_refcount ino = 0)
      then {| tnodes := delete t (tnodes h); inodes := delete (t_inode tn) (inodes h) |}
      else {| tnodes := delete t (tnodes h); inodes := inodes h |}
    | None => {| tnodes := delete t (tnodes h); inodes := inodes h |}
    end
  | None => h
  end.

Definition ram_root : vfs_inode_t :=
  {| i_type := VFS_NODE_FOLDER; i_perms := 511; i_size := 0; i_refcount := 0;
     i_fs := Some 0%nat; i_ident := 0; i_mountpoint := None; i_child := [] |}.

Definition ramfs : vfs_fsinfo_t :=
  {| fs_name := "ramfs"; fs_istemp := true;
     fs_mount := fun h _ => (50%positive, set_inode h 50%positive ram_root);
     fs_open := fun h _ path => (resolve h path, h);
     fs_read := fun h _ _ len buff => (len, buff, h);
     fs_write := fun h _ _ len _ => (len, h);
     fs_sync := Some (fun h _ => h);
     fs_rmnode := Some ram_rmnode |}.

(** A provider whose device is gone: every read and write reports -1. *)
Definition deadfs : vfs_fsinfo_t :=
  {| fs_name := "fat32"; fs_istemp := false;
     fs_mount := fun h _ => (50%positive, set_inode h 50%positive ram_root);
     fs_open := fun h _ path => (resolve h path, h);
     fs_read := fun h _ _ _ buff => (-1, buff, h);
     fs_write := fun h _ _ _ _ => (-1, h);
     fs_sync := None;
     fs_rmnode := None |}.

Definition fslist : list vfs_fsinfo_t := [ramfs; deadfs].

Definition folder (fs : nat) (children : list ptr) : vfs_inode_t :=
  {| i_type := VFS_NODE_FOLDER; i_perms := 511; i_size := 0; i_refcount := 0;
     i_fs := Some fs; i_ident := 0; i_mountpoint := None; i_child := children |}.

Definition plain_file (fs : nat) (size refcount : Z) : vfs_inode_t :=
  {| i_type := VFS_NODE_FILE; i_perms := 420; i_size := size;
     i_refcount := refcount; i_fs := Some fs; i_ident := 0;
     i_mountpoint := None; i_child := [] |}.

Definition named (name : string) (inode : ptr) (nlink : N) (size : Z) : vfs_tnode_t :=
  {| t_name := name; t_inode := inode;
     t_st := {| st_dev := 1; st_ino := 2; st_mode := 0; st_nlink := nlink;
                st_size := size |};
     t_parent := Some 1%positive |}.

Definition opened (path : string) (tnode inode : ptr) (seek : Z)
    (mode : vfs_openmode_t) : vfs_node_desc_t :=
  {| d_path := path; d_tnode := tnode; d_inode := inode;
     d_seek_pos := seek; d_mode := mode |}.

(** The tree [/], [/a] (a file of the given size on provider [fs], open
    once under handle 100 at the given seek position), [/b] (a file of 5
    bytes that nobody has open) and [/d] (an empty folder). *)
Definition tree (fs : nat) (size seek : Z) (mode : vfs_openmode_t) : vfs_state :=
  {| heap :=
       {| tnodes := {[ 1%positive := named "" 11%positive 1 0;
                       2%positive := named "a" 12%positive 1 size;
                       3%positive := named "b" 13%positive 1 5;
                       4%positive := named "d" 14%positive 1 0 ]};
          inodes := {[ 11%positive := folder fs [2%positive; 3%positive; 4%positive];
                       12%positive := plain_file fs size 1;
                       13%positive := plain_file fs 5 0;
                       14%positive := folder fs [] ]} |};
     vfs_openfiles := {[ 100 := opened "/a" 2%positive 12%positive seek mode ]};
     vfs_next_handle := 101;
     ttyfh := 7;
     calls := [] |}.

(** An allocator whose [kmfree] leaves the block as it was, and reads of
    freed blocks as C has them. *)
Definition kept_block (fd : vfs_node_desc_t) : option vfs_node_desc_t := Some fd.
Definition freed_block (fd : vfs_node_desc_t) : option vfs_node_desc_t := None.

(** Two opens with other calls between them. *)
Definition two_opens : list vfs_op :=
  [OpOpen "/b" VFS_MODE_READ; OpSeek 100 10 SEEK_SET; OpOpen "/nowhere" VFS_MODE_READ;
   OpClose 100; OpOpen "/a" VFS_MODE_READWRITE].

End Ex.

(** * The rest of the sources *)

(** ** Further functions of [vfs.c] *)

Definition with_perms (i : vfs_inode_t) (n : Z) : vfs_inode_t :=
  {| i_type := i_type i; i_perms := n; i_size := i_size i;
     i_refcount := i_refcount i; i_fs := i_fs i; i_ident := i_ident i;
     i_mountpoint := i_mountpoint i; i_child := i_child i |}.

Definition with_st_mode (t : vfs_tnode_t) (n : Z) : vfs_tnode_t :=
  {| t_name := t_name t; t_inode := t_inode t;
     t_st := {| st_dev := st_dev (t_st t); st_ino := st_ino (t_st t);
                st_mode := n; st_nlink := st_nlink (t_st t);
                st_size := st_size (t_st t) |};
     t_parent := t_parent t |}.

(** The directory entry that [vfs_getdent] fills.  The inode record above
    carries no time stamp; the [tm] field of an inode is read through
    [inode_tm] below. *)
Record vfs_dirent_t (tm_t : Type) := {
  de_type : vfs_node_type_t;
  de_name : string;
  de_size : Z;
  de_tm : tm_t
}.

Arguments de_type {tm_t} _.
Arguments de_name {tm_t} _.
Arguments de_size {tm_t} _.
Arguments de_tm {tm_t} _.

(** Modelled from the spec: the macro [IS_TRAVERSABLE] is in the missing
    header; the glossary has "inode type in {folder, mount-point}". *)
Definition IS_TRAVERSABLE (ino : vfs_inode_t) : bool :=
  bool_decide (i_type ino = VFS_NODE_FOLDER \/ i_type ino = VFS_NODE_MOUNTPOINT).

(** [vfs_register_fs] (lines 103-106): [vec_push_back] appends. *)
Definition vfs_register_fs (fslist : list vfs_fsinfo_t) (fs : vfs_fsinfo_t)
  : list vfs_fsinfo_t :=
  fslist ++ [fs].

(** [vfs_tell] (lines 274-284): the size of the file, as an [int64_t]. *)
Definition vfs_tell (s : vfs_state) (handle : Z) : option Z :=
  match vfs_handle_to_fd s handle with
  | None => Some 0
  | Some fd =>
    inode ← inodes (heap s) !! d_inode fd;
    Some (to_int64 (i_size inode))
  end.

Section VfsMore.

Variable vfs_fslist : list vfs_fsinfo_t.

(** [S_IRWXU | S_IRWXG | S_IRWXO], from a header that is not among the
    sources. *)
Variable PERM_MASK : Z.

(** The type [tm_t] and the [tm] field of the inode at an address. *)
Variable tm_t : Type.
Variable inode_tm : vfs_heap -> ptr -> tm_t.

(** [vfs_chmod] (lines 197-214).  The provider's [sync] is called without
    a test for a null pointer. *)
Definition vfs_chmod (s : vfs_state) (handle : Z) (newperms : Z)
  : option (Z * vfs_state) :=
  match vfs_handle_to_fd s handle with
  | None => Some (-1, s)
  | Some fd =>
    (* Opened in read only mode *)
    if decide (d_mode fd = VFS_MODE_READ) then Some (-1, s)
    else
      (* Set new permissions and sync *)
      ino ← inodes (heap s) !! d_inode fd;
      let h1 := set_inode (heap s) (d_inode fd)
                  (with_perms ino (Z.land newperms PERM_MASK)) in
      tn ← tnodes h1 !! d_tnode fd;
      ino1 ← inodes h1 !! d_inode fd;
      let h2 := set_tnode h1 (d_tnode fd)
                  (with_st_mode tn (Z.lor (st_mode (t_st tn)) (i_perms ino1))) in
      ino2 ← inodes h2 !! d_inode fd;
      fsid ← i_fs ino2;
      fs ← the_fs vfs_fslist fsid;
      sync ← fs_sync fs;
      Some (0, log_call (set_heap s (sync h2 (d_inode fd))) (CallSync fsid (d_inode fd)))
  end.

(** [vfs_getdent] (lines 598-634).  The result is the status, the entry
    behind [dirent] and the state. *)
Definition vfs_getdent (s : vfs_state) (handle : Z) (dirent : vfs_dirent_t tm_t)
  : option (Z * vfs_dirent_t tm_t * vfs_state) :=
  match vfs_handle_to_fd s handle with
  | None => Some (-1, dirent, s)
  | Some fd =>
    ino ← inodes (heap s) !! d_inode fd;
    (* Can only traverse folders *)
    if negb (IS_TRAVERSABLE ino) then Some (-1, dirent, s)
    (* We've reached the end *)
    else if decide (d_seek_pos fd >= Z.of_nat (length (i_child ino))) then
      Some (0, dirent, s)
    else
      (* Initialize the dirent *)
      entry ← i_child ino !! Z.to_nat (d_seek_pos fd);
      etn ← tnodes (heap s) !! entry;
      eino ← inodes (heap s) !! t_inode etn;
      let dirent1 := {| de_type := i_type eino; de_name := t_name etn;
                        de_size := de_size dirent;
                        de_tm := inode_tm (heap s) (t_inode etn) |} in
      (* We're done here, advance the offset *)
      Some (1, dirent1,
            set_openfiles s
              (<[handle := with_seek_pos fd (add64 (d_seek_pos fd) 1)]> (vfs_openfiles s)))
  end.

(** The listing loop of [dir_test] ([test.c], lines 34-43): the entries
    that are printed, in order.  [None] only when the fuel runs out. *)
Fixpoint dir_test_loop (fuel : nat) (s : vfs_state) (f1 : Z) (de : vfs_dirent_t tm_t)
    (printed : list (vfs_dirent_t tm_t))
  : option (list (vfs_dirent_t tm_t) * vfs_state) :=
  match fuel with
  | O => None
  | S fuel' =>
    '(ret, de1, s1) ← vfs_getdent s f1 de;
    if decide (ret <= 0) then Some (printed, s1)
    else dir_test_loop fuel' s1 f1 de1 (printed ++ [de1])
  end.

End VfsMore.

(** *** The identifier allocators (lines 45-46 and 61-83)

    [dev_t] and [ino_t] are unsigned types of the missing header; their
    numbers of values are parameters.  The locks make each call atomic. *)
Record vfs_ids := {
  next_new_dev_id : Z;
  next_new_ino_id : Z
}.

Definition vfs_ids_boot : vfs_ids := {| next_new_dev_id := 1; next_new_ino_id := 1 |}.

Definition vfs_new_dev_id (dev_modulus : Z) (st : vfs_ids) : Z * vfs_ids :=
  (next_new_dev_id st,
   {| next_new_dev_id := (next_new_dev_id st + 1) mod dev_modulus;
      next_new_ino_id := next_new_ino_id st |}).

Definition vfs_new_ino_id (ino_modulus : Z) (st : vfs_ids) : Z * vfs_ids :=
  (next_new_ino_id st,
   {| next_new_dev_id := next_new_dev_id st;
      next_new_ino_id := (next_new_ino_id st + 1) mod ino_modulus |}).

(** [n] calls in a row, with the identifiers they return. *)
Fixpoint new_dev_ids (dev_modulus : Z) (n : nat) (st : vfs_ids) : list Z * vfs_ids :=
  match n with
  | O => ([], st)
  | S n' =>
    let '(id, st1) := vfs_new_dev_id dev_modulus st in
    let '(ids, st2) := new_dev_ids dev_modulus n' st1 in
    (id :: ids, st2)
  end.

Fixpoint new_ino_ids (ino_modulus : Z) (n : nat) (st : vfs_ids) : list Z * vfs_ids :=
  match n with
  | O => ([], st)
  | S n' =>
    let '(id, st1) := vfs_new_ino_id ino_modulus st in
    let '(ids, st2) := new_ino_ids ino_modulus n' st1 in
    (id :: ids, st2)
  end.

(** *** Live handles and the counter *)

(** Every handle in the table was handed out by the counter. *)
Definition handles_below (s : vfs_state) : Prop :=
  forall h d, vfs_openfiles s !! h = Some d -> h < vfs_next_handle s.

(** ** [sys/pit.c] *)

(** What [pit_init] does to the machine, in order. *)
Inductive pit_event :=
  | PortOutb (port value : Z)
  | PortIoWait
  | ExcRegisterHandlerIrq0
  | PitTicksReset
  | IrqClearMask (line : Z).

(** The [uint16_t] variable [x] of [pit_init] (lines 46-48), for a value
    [freq] of the macro [PIT_FREQ_HZ]. *)
Definition pit_divisor (freq : Z) : Z :=
  let x := (1193182 / freq) mod 2 ^ 16 in
  if decide (1193182 mod freq > freq / 2) then (x + 1) mod 2 ^ 16 else x.

Definition PIT_FREQ_HZ : Z := 1000.

(** [pit_init] (lines 42-62), without the log line: the command byte 0x36
    goes to port 0x43 (67), the two bytes of [x] to port 0x40 (64); the
    masks are 0x00ff and 0xff00. *)
Definition pit_init (freq : Z) : list pit_event :=
  let x := pit_divisor freq in
  [PortOutb 67 54; PortIoWait;
   PortOutb 64 (Z.land x 255 mod 2 ^ 8); PortIoWait;
   PortOutb 64 (Z.shiftr (Z.land x 65280) 8 mod 2 ^ 8); PortIoWait;
   ExcRegisterHandlerIrq0; PitTicksReset; IrqClearMask 0].

(** [pit_wait] (lines 64-72).  The counter [pit_ticks] is volatile and
    moves under the interrupt handler: [ticks n] is what the [n]-th read of
    it yields.  The result is the number of reads made; [None] only when
    the fuel runs out. *)
Fixpoint pit_wait_loop (fuel : nat) (ticks : nat -> Z) (n : nat) (target_ticks : Z)
  : option nat :=
  match fuel with
  | O => None
  | S fuel' =>
    if decide (ticks n >= target_ticks) then Some (S n)
    else pit_wait_loop fuel' ticks (S n) target_ticks
  end.

Definition pit_wait (fuel : nat) (ticks : nat -> Z) (ms : Z) : option nat :=
  let target_ticks := add64 (ticks 0%nat) ms in
  pit_wait_loop fuel ticks 1 target_ticks.

(** ** [sys/hpet.c] *)

(** [hpet_get_nanos] (lines 41-56): [hpet] is the pointer to the mapped
    registers, a null pointer before [hpet_init] and when the timer is not
    usable.  ([debug_info] is never set, so nothing is printed.) *)
Definition hpet_get_nanos (hpet : option ptr) (hpet_period : Z)
    (main_counter_value pit_ticks : Z) : Z :=
  match hpet with
  | None => pit_ticks
  | Some _ => wrap64 (main_counter_value * hpet_period)
  end.

(** [hpet_nanosleep] (lines 63-80): [clock n] is what the [n]-th call of
    [hpet_get_nanos] returns.  The result is the number of calls made;
    [None] only when the fuel runs out. *)
Fixpoint hpet_nanosleep_loop (fuel : nat) (clock : nat -> Z) (n : nat) (stt tgt : Z)
  : option nat :=
  match fuel with
  | O => None
  | S fuel' =>
    let cur := clock n in
    if decide (cur >= tgt) then Some (S n)
    else if decide (cur <= stt) then Some (S n)
    else hpet_nanosleep_loop fuel' clock (S n) stt tgt
  end.

Definition hpet_nanosleep (fuel : nat) (clock : nat -> Z) (nanos : Z) : option nat :=
  let stt := clock 0%nat in
  let tgt := add64 (clock 1%nat) nanos in
  hpet_nanosleep_loop fuel clock 2 stt tgt.

(** ** [userspace/echo.c] *)

(** [main] (lines 10-25): the bytes handed to [sys_write] on [STDOUT], in
    order, and the exit status.  [argv] is the array of argument buffers
    and [argc] its length; every write is taken to be complete. *)
Fixpoint echo_loop (fuel : nat) (argc : Z) (argv : list (list ascii)) (i : Z)
    (out : list ascii) : list ascii :=
  match fuel with
  | O => out
  | S fuel' =>
    if decide (i < argc) then
      let out1 := out ++ c_str (nth (Z.to_nat i) argv []) in
      let out2 := if decide (i + 1 < argc) then out1 ++ [" "%char]
                  else out1 ++ ["010"%char] in
      echo_loop fuel' argc argv (i + 1) out2
    else out
  end.

Definition echo_main (argv : list (list ascii)) : list ascii * Z :=
  let argc := Z.of_nat (length argv) in
  (echo_loop (length argv) argc argv 1 [], 0).

(** ** What the properties below speak of *)

(** The offset of [seek] as the specification has it, in unbounded
    arithmetic: [pos], [seek_pos + pos] or [size - pos]. *)
Definition seek_target (seek_pos size pos whence : Z) : Z :=
  if decide (whence = SEEK_SET) then pos
  else if decide (whence = SEEK_CUR) then seek_pos + pos
  else size - pos.

(** The length of [read] as the specification has it, in unbounded
    arithmetic: [size - seek_pos] when [seek_pos + len > size] on a handle
    other than the TTY handle, and [len] otherwise. *)
Definition clamped_len (s : vfs_state) (handle : Z) (fd : vfs_node_desc_t)
    (ino : vfs_inode_t) (len : Z) : Z :=
  if decide (handle <> ttyfh s /\ d_seek_pos fd + len > i_size ino)
  then i_size ino - d_seek_pos fd else len.

(** The entry that [vfs_getdent] makes of a child in the heap [hp]: the
    name of the child's tree node, the type and the time of its inode. *)
Definition listed {tm_t : Type} (inode_tm : vfs_heap -> ptr -> tm_t) (hp : vfs_heap)
    (d : vfs_dirent_t tm_t) (entry : ptr) : Prop :=
  exists etn eino,
    tnodes hp !! entry = Some etn /\ inodes hp !! t_inode etn = Some eino
    /\ de_name d = t_name etn /\ de_type d = i_type eino
    /\ de_tm d = inode_tm hp (t_inode etn).

(** ** Further examples *)

Module Ex2.

(** The tree of [Ex.tree] with [/a] open read-write under handle 100, [/]
    open under handle 101 and the empty folder [/d] under handle 102. *)
Definition dirs : vfs_state :=
  {| heap := heap (Ex.tree 0 100 0 VFS_MODE_READWRITE);
     vfs_openfiles :=
       {[ 100 := Ex.opened "/a" 2%positive 12%positive 0 VFS_MODE_READWRITE;
          101 := Ex.opened "/" 1%positive 11%positive 0 VFS_MODE_READWRITE;
          102 := Ex.opened "/d" 4%positive 14%positive 0 VFS_MODE_READ ]};
     vfs_next_handle := 103;
     ttyfh := 7;
     calls := [] |}.

(** Inodes without time stamps. *)
Definition no_time (h : vfs_heap) (p : ptr) : unit := tt.

Definition blank : vfs_dirent_t unit :=
  {| de_type := VFS_NODE_FILE; de_name := ""; de_size := 0; de_tm := tt |}.

(** A clock that is 10 further on at every reading, and a tick counter
    that has moved by one at every read. *)
Definition steady_clock (n : nat) : Z := 10 * Z.of_nat n.
Definition tick_per_read (n : nat) : Z := Z.of_nat n.

(** The argument vector of [echo a bc]. *)
Definition echo_argv : list (list ascii) :=
  [list_ascii_of_string "echo" ++ [NUL]; list_ascii_of_string "a" ++ [NUL];
   list_ascii_of_string "bc" ++ [NUL]].

End Ex2.

(** * Properties *)

(** ** Machine integers *)

Lemma wrap64_range z : is_size_t (wrap64 z).
Proof. unfold is_size_t, wrap64, modulus. apply Z.mod_pos_bound. lia. Qed.

Lemma wrap64_small z : is_size_t z -> wrap64 z = z.
Proof. unfold is_size_t, wrap64. intros H. now apply Z.mod_small. Qed.

Lemma add64_zero z : is_size_t z -> add64 z 0 = z.
Proof. intros H. unfold add64. rewrite Z.add_0_r. now apply wrap64_small. Qed.

Lemma to_int64_small z : 0 <= z < half_modulus -> to_int64 z = z.
Proof.
  unfold to_int64, half_modulus, modulus. intros H.
  rewrite Z.mod_small; lia.
Qed.

Lemma to_int64_high z : half_modulus <= z < modulus -> to_int64 z = z - modulus.
Proof.
  unfold to_int64, half_modulus, modulus. intros H.
  replace (z + 2 ^ 63) with ((z - 2 ^ 63) + 1 * 2 ^ 64) by lia.
  rewrite Z.mod_add by lia. rewrite Z.mod_small; lia.
Qed.

Lemma to_int64_range z : - half_modulus <= to_int64 z < half_modulus.
Proof.
  unfold to_int64, half_modulus, modulus.
  pose proof (Z.mod_pos_bound (z + 2 ^ 63) (2 ^ 64)). lia.
Qed.

Lemma sub64_le a b : is_size_t a -> 0 <= b <= a -> sub64 a b = a - b.
Proof.
  intros Ha Hb. unfold sub64. apply wrap64_small.
  unfold is_size_t in *. lia.
Qed.

Lemma sub64_gt a b : is_size_t a -> is_size_t b -> a < b -> sub64 a b = a - b + modulus.
Proof.
  unfold sub64, wrap64, is_size_t, modulus. intros Ha Hb Hlt.
  symmetry. apply Z.mod_unique with (q := -1); lia.
Qed.

(** ** [vfs_seek] *)

Section SeekFacts.

Variables (s : vfs_state) (handle : Z) (fd : vfs_node_desc_t) (ino : vfs_inode_t).
Hypothesis handle_open : vfs_handle_to_fd s handle = Some fd.
Hypothesis inode_live : inodes (heap s) !! d_inode fd = Some ino.

Lemma seek_offset_unknown seek_pos size pos whence :
  whence <> SEEK_SET -> whence <> SEEK_CUR -> whence <> SEEK_END ->
  seek_offset seek_pos size pos whence = -1.
Proof.
  intros H1 H2 H3. unfold seek_offset.
  repeat case_decide; congruence.
Qed.

(** The two tests of [vfs_seek] agree: with a size below [2^63] the function
    stores and returns the offset exactly when it lies in [[0, size]]. *)
Lemma vfs_seek_result pos whence :
  0 <= i_size ino < half_modulus ->
  vfs_seek s handle pos whence =
    Some (if decide (0 <= seek_offset (d_seek_pos fd) (i_size ino) pos whence <= i_size ino)
          then (seek_offset (d_seek_pos fd) (i_size ino) pos whence,
                seek_stored s handle fd (seek_offset (d_seek_pos fd) (i_size ino) pos whence))
          else (-1, s)).
Proof.
  intros Hsz. unfold vfs_seek. rewrite handle_open, inode_live.
  set (off := seek_offset _ _ _ _).
  rewrite (to_int64_small (i_size ino)) by exact Hsz.
  destruct (decide (0 <= off <= i_size ino)) as [Hin | Hout].
  - rewrite bool_decide_eq_false_2 by lia.
    rewrite bool_decide_eq_true_2 by lia.
    unfold seek_stored. rewrite wrap64_small; [reflexivity |].
    unfold is_size_t, half_modulus, modulus in *. lia.
  - rewrite bool_decide_eq_true_2 by lia. reflexivity.
Qed.

Lemma seek_set_in_bounds pos size :
  is_size_t pos -> 0 <= size < half_modulus ->
  0 <= to_int64 pos <= size <-> 0 <= pos <= size.
Proof.
  intros Hp Hs. unfold is_size_t, half_modulus, modulus in *.
  destruct (decide (pos < 2 ^ 63)) as [Hlo | Hhi].
  - rewrite to_int64_small by (unfold half_modulus; lia). reflexivity.
  - rewrite to_int64_high by (unfold half_modulus, modulus; lia).
    unfold modulus. lia.
Qed.

Lemma seek_end_in_bounds pos size :
  is_size_t pos -> 0 <= size < half_modulus ->
  0 <= to_int64 (sub64 size pos) <= size <-> pos <= size.
Proof.
  intros Hp Hs.
  assert (Hsz : is_size_t size) by (unfold is_size_t, half_modulus, modulus in *; lia).
  destruct (decide (pos <= size)) as [Hle | Hgt].
  - rewrite sub64_le by (unfold is_size_t in *; lia).
    rewrite to_int64_small by (unfold is_size_t in *; lia).
    unfold is_size_t in *. lia.
  - rewrite sub64_gt by (auto; lia).
    unfold is_size_t, half_modulus, modulus in *.
    destruct (decide (size - pos + 2 ^ 64 < 2 ^ 63)) as [Hlo | Hhi].
    + rewrite to_int64_small by (unfold half_modulus; lia). lia.
    + rewrite to_int64_high by (unfold half_modulus, modulus; lia).
      unfold modulus. lia.
Qed.

(** The offset that the code computes is the offset of the specification
    whenever that lies in [[0, S]], and lies outside [[0, S]] with it. *)
Lemma seek_offset_target pos whence :
  is_size_t pos ->
  is_size_t (d_seek_pos fd) ->
  0 <= i_size ino < half_modulus ->
  whence = SEEK_SET \/ whence = SEEK_CUR \/ whence = SEEK_END ->
  (whence = SEEK_CUR -> d_seek_pos fd + pos < modulus) ->
  let off := seek_offset (d_seek_pos fd) (i_size ino) pos whence in
  let target := seek_target (d_seek_pos fd) (i_size ino) pos whence in
  (0 <= off <= i_size ino <-> 0 <= target <= i_size ino)
  /\ (0 <= target <= i_size ino -> off = target).
Proof.
  intros Hpos Hseek Hsize Hwhence Hsum off target. subst off target.
  unfold seek_offset, seek_target.
  destruct Hwhence as [-> | [-> | ->]]; simpl.
  - split; [apply seek_set_in_bounds; assumption |].
    intros Hle. apply to_int64_small. unfold is_size_t in *. lia.
  - specialize (Hsum eq_refl).
    unfold add64. rewrite wrap64_small by (unfold is_size_t in *; lia).
    unfold is_size_t, half_modulus, modulus in *.
    destruct (decide (d_seek_pos fd + pos < 2 ^ 63)) as [Hlo | Hhi].
    + rewrite to_int64_small by (unfold half_modulus; lia). split; [reflexivity | auto].
    + rewrite to_int64_high by (unfold half_modulus, modulus; lia).
      unfold modulus. split; lia.
  - pose proof (seek_end_in_bounds pos (i_size ino) Hpos Hsize) as Hend.
    unfold is_size_t in *. split; [rewrite Hend; lia |].
    intros Hle. rewrite sub64_le.
    + apply to_int64_small. lia.
    + unfold is_size_t, half_modulus, modulus in *. lia.
    + lia.
Qed.

(** C1, as the code has it.  On a file whose size [S] is below [2^63], for
    a 64-bit position [p] (with [seek_pos + p] below [2^64] for SEEK_CUR),
    let the target be [p] for SEEK_SET, [seek_pos + p] for SEEK_CUR and
    [S - p] for SEEK_END.  When the target lies outside [[0, S]],
    [vfs_seek] returns -1 and changes nothing; otherwise it returns the
    target and the descriptor of the handle has the target as its seek
    position, with its other fields, the other descriptors, the heap and
    the rest of the state as before.  SEEK_SET succeeds iff
    [0 <= p <= S]. *)
Theorem vfs_seek_bounds pos whence :
  is_size_t pos ->
  is_size_t (d_seek_pos fd) ->
  0 <= i_size ino < half_modulus ->
  whence = SEEK_SET \/ whence = SEEK_CUR \/ whence = SEEK_END ->
  (whence = SEEK_CUR -> d_seek_pos fd + pos < modulus) ->
  let target := seek_target (d_seek_pos fd) (i_size ino) pos whence in
  (~ 0 <= target <= i_size ino -> vfs_seek s handle pos whence = Some (-1, s))
  /\ (0 <= target <= i_size ino ->
      exists s' fd',
        vfs_seek s handle pos whence = Some (target, s')
        /\ vfs_handle_to_fd s' handle = Some fd'
        /\ d_seek_pos fd' = target
        /\ d_path fd' = d_path fd /\ d_tnode fd' = d_tnode fd
        /\ d_inode fd' = d_inode fd /\ d_mode fd' = d_mode fd
        /\ (forall h, h <> handle -> vfs_openfiles s' !! h = vfs_openfiles s !! h)
        /\ heap s' = heap s /\ calls s' = calls s
        /\ vfs_next_handle s' = vfs_next_handle s /\ ttyfh s' = ttyfh s)
  /\ (whence = SEEK_SET ->
      ((exists r s', vfs_seek s handle pos whence = Some (r, s') /\ r <> -1)
       <-> 0 <= pos <= i_size ino)).
Proof.
  intros Hpos Hseek Hsize Hwhence Hsum target.
  pose proof (seek_offset_target pos whence Hpos Hseek Hsize Hwhence Hsum) as [Hiff Heq].
  fold target in Hiff, Heq.
  pose proof (vfs_seek_result pos whence Hsize) as Hres.
  assert (Hfail : ~ 0 <= target <= i_size ino ->
                  vfs_seek s handle pos whence = Some (-1, s)).
  { intros Hout. rewrite Hres. rewrite decide_False by (rewrite Hiff; exact Hout).
    reflexivity. }
  assert (Hgood : 0 <= target <= i_size ino ->
                  vfs_seek s handle pos whence
                  = Some (target, seek_stored s handle fd target)).
  { intros Hin. rewrite Hres. rewrite decide_True by (rewrite Hiff; exact Hin).
    rewrite (Heq Hin). reflexivity. }
  split; [exact Hfail |]. split.
  - intros Hin. exists (seek_stored s handle fd target), (with_seek_pos fd target).
    split; [exact (Hgood Hin) |].
    split; [unfold vfs_handle_to_fd; simpl; apply lookup_insert_eq |].
    repeat split; try reflexivity.
    intros h Hne. simpl. apply lookup_insert_ne. congruence.
  - intros ->. subst target. unfold seek_target in *. simpl in *. split.
    + intros (r & s' & Hrun & Hr).
      destruct (decide (0 <= pos <= i_size ino)) as [Hin | Hout]; [exact Hin |].
      rewrite (Hfail Hout) in Hrun. injection Hrun as <- _. contradiction.
    + intros Hin. exists pos, (seek_stored s handle fd pos).
      split; [exact (Hgood Hin) | lia].
Qed.

(** C10.  A [whence] that is none of SEEK_SET (3), SEEK_CUR (1) and
    SEEK_END (2) makes [vfs_seek] return -1 and leaves the whole state, and
    so the seek position of the descriptor, as it was. *)
Theorem vfs_seek_unknown_whence pos whence :
  whence <> SEEK_SET -> whence <> SEEK_CUR -> whence <> SEEK_END ->
  vfs_seek s handle pos whence = Some (-1, s)
  /\ seek_offset (d_seek_pos fd) (i_size ino) pos whence = -1.
Proof.
  intros H1 H2 H3.
  pose proof (seek_offset_unknown (d_seek_pos fd) (i_size ino) pos whence H1 H2 H3) as Hoff.
  split; [| exact Hoff].
  unfold vfs_seek. rewrite handle_open, inode_live. simpl. rewrite Hoff.
  rewrite bool_decide_eq_true_2 by lia. reflexivity.
Qed.

End SeekFacts.

(** C1 (as stated, refuted), at two inputs.  One [vfs_write] of [2^63]
    bytes, even one that the provider rejects, makes the size of the file
    [2^63]; from then on the position 0 lies in [[0, S]], yet
    [vfs_seek (h, 0, SEEK_SET)] returns -1: the bound is compared after the
    cast [(int64_t) size], which is negative.  And on a file of 100 bytes
    at position 40, SEEK_CUR with [p = 2^64 - 30] succeeds and stores 10,
    although [seek_pos + p] lies outside [[0, S]]: the sum is computed
    modulo [2^64]. *)
Lemma vfs_seek_bounds_fail_in_64_bits :
  (exists s1,
     vfs_write Ex.fslist (Ex.tree 1 100 0 VFS_MODE_READWRITE) 100 (2 ^ 63) [] = Some (0, s1)
     /\ inode_size (heap s1) 12 = Some (2 ^ 63)
     /\ 0 <= seek_target 0 (2 ^ 63) 0 SEEK_SET <= 2 ^ 63
     /\ vfs_seek s1 100 0 SEEK_SET = Some (-1, s1))
  /\ (exists s2,
        vfs_seek (Ex.tree 0 100 40 VFS_MODE_READ) 100 (2 ^ 64 - 30) SEEK_CUR
        = Some (10, s2)
        /\ (d_seek_pos <$> vfs_handle_to_fd s2 100) = Some 10
        /\ ~ 0 <= seek_target 40 100 (2 ^ 64 - 30) SEEK_CUR <= 100).
Proof.
  split.
  - eexists. split; [vm_compute; reflexivity |].
    split; [vm_compute; reflexivity |]. split; [vm_compute; split; discriminate |].
    vm_compute. reflexivity.
  - eexists. split; [vm_compute; reflexivity |].
    split; [vm_compute; reflexivity |].
    unfold seek_target, SEEK_SET, SEEK_CUR. simpl. lia.
Qed.

(** A seek to ten bytes before the end of a file of 100 bytes. *)
Lemma vfs_seek_bounds_witness :
  exists s' fd',
    vfs_seek (Ex.tree 0 100 40 VFS_MODE_READ) 100 10 SEEK_END = Some (90, s')
    /\ vfs_handle_to_fd s' 100 = Some fd'
    /\ d_seek_pos fd' = 90.
Proof.
  destruct (proj1 (proj2 (vfs_seek_bounds (Ex.tree 0 100 40 VFS_MODE_READ) 100
                     (Ex.opened "/a" 2 12 40 VFS_MODE_READ) (Ex.plain_file 0 100 1)
                     eq_refl eq_refl 10 SEEK_END
                     ltac:(unfold is_size_t, modulus; simpl; lia)
                     ltac:(unfold is_size_t, modulus; simpl; lia)
                     ltac:(unfold half_modulus; simpl; lia)
                     ltac:(right; right; reflexivity)
                     ltac:(discriminate)))
              ltac:(unfold seek_target, SEEK_SET, SEEK_CUR, SEEK_END; simpl; lia))
    as (s' & fd' & H1 & H2 & H3 & _).
  exists s', fd'. split; [exact H1 |]. split; [exact H2 | exact H3].
Defined.

(** A seek with [whence = 0]. *)
Lemma vfs_seek_unknown_whence_witness :
  vfs_seek (Ex.tree 0 100 40 VFS_MODE_READ) 100 10 0
  = Some (-1, Ex.tree 0 100 40 VFS_MODE_READ).
Proof.
  apply (vfs_seek_unknown_whence (Ex.tree 0 100 40 VFS_MODE_READ) 100
           (Ex.opened "/a" 2 12 40 VFS_MODE_READ) (Ex.plain_file 0 100 1)
           eq_refl eq_refl 10 0); unfold SEEK_SET, SEEK_CUR, SEEK_END; lia.
Defined.

(** ** [vfs_read] *)

Lemma with_seek_pos_same fd : with_seek_pos fd (d_seek_pos fd) = fd.
Proof. destruct fd; reflexivity. Qed.

Section ReadFacts.

Variable vfs_fslist : list vfs_fsinfo_t.
Variables (s : vfs_state) (handle : Z) (fd : vfs_node_desc_t) (ino : vfs_inode_t).
Variables (fsid : nat) (fs : vfs_fsinfo_t).
Hypothesis handle_open : vfs_handle_to_fd s handle = Some fd.
Hypothesis inode_live : inodes (heap s) !! d_inode fd = Some ino.
Hypothesis inode_fs : i_fs ino = Some fsid.
Hypothesis provider : the_fs vfs_fslist fsid = Some fs.
Hypothesis seek_range : is_size_t (d_seek_pos fd).

Lemma vfs_read_at_end len buff :
  read_truncates s handle fd ino len -> read_len s handle fd ino len = 0 ->
  vfs_read vfs_fslist s handle len buff = Some (0, buff, s).
Proof.
  intros Ht H0. unfold vfs_read. rewrite handle_open, inode_live. simpl.
  rewrite decide_True by (split; assumption). rewrite H0. reflexivity.
Qed.

Lemma vfs_read_delegates len buff status buff1 h1 :
  ~ (read_truncates s handle fd ino len /\ read_len s handle fd ino len = 0) ->
  fs_read fs (heap s) (d_inode fd) (d_seek_pos fd) (read_len s handle fd ino len) buff
    = (status, buff1, h1) ->
  vfs_read vfs_fslist s handle len buff =
    Some (to_int64 (if decide (status = -1) then 0 else read_len s handle fd ino len),
          buff1,
          log_call
            (set_heap
               (set_openfiles s
                  (<[handle := with_seek_pos fd
                       (add64 (d_seek_pos fd)
                          (if decide (status = -1) then 0
                           else read_len s handle fd ino len))]> (vfs_openfiles s)))
               h1)
            (CallRead fsid (d_inode fd) (d_seek_pos fd) (read_len s handle fd ino len))).
Proof.
  intros Hn Hcall. unfold vfs_read. rewrite handle_open, inode_live. simpl.
  rewrite decide_False by exact Hn.
  rewrite inode_fs. simpl. rewrite provider. simpl. rewrite Hcall. reflexivity.
Qed.

(** Where the position is within the file and nothing wraps, the test and
    the length of the code are those of the specification. *)
Lemma read_len_clamped len :
  is_size_t (i_size ino) ->
  0 <= len ->
  d_seek_pos fd + len < modulus ->
  (handle <> ttyfh s -> d_seek_pos fd <= i_size ino) ->
  (read_truncates s handle fd ino len
   <-> handle <> ttyfh s /\ d_seek_pos fd + len > i_size ino)
  /\ read_len s handle fd ino len = clamped_len s handle fd ino len
  /\ 0 <= clamped_len s handle fd ino len <= len.
Proof.
  intros Hsize Hlen Hsum Hwithin.
  assert (Hadd : add64 (d_seek_pos fd) len = d_seek_pos fd + len).
  { unfold add64. apply wrap64_small. unfold is_size_t in *. lia. }
  assert (Hiff : read_truncates s handle fd ino len
                 <-> handle <> ttyfh s /\ d_seek_pos fd + len > i_size ino).
  { unfold read_truncates. rewrite Hadd. tauto. }
  split; [exact Hiff |].
  unfold read_len, clamped_len.
  destruct (decide (read_truncates s handle fd ino len)) as [Ht | Hn].
  - pose proof (proj1 Hiff Ht) as [Htty Hgt].
    rewrite decide_True by (split; assumption).
    specialize (Hwithin Htty).
    rewrite sub64_le by (unfold is_size_t in *; lia). lia.
  - rewrite decide_False by (intros H; apply Hn, Hiff, H). lia.
Qed.

(** C2, as the code has it.  For a length below [2^63] with
    [seek_pos + len] below [2^64], on a descriptor whose seek position is
    at most the size of the file (any position on the TTY handle): the
    length handed to the back-end is [size - seek_pos] when
    [seek_pos + len > size] on a handle other than the TTY handle, and
    [len] otherwise (always [len] on the TTY handle).  When the truncated
    length is zero [vfs_read] returns 0 and nothing changes: no provider is
    called.  Otherwise the provider's read is called once with that length;
    if it reports -1 the result is 0 and the descriptor keeps its seek
    position, else the result is the length and the seek position of the
    descriptor has advanced by it.  The other fields of the descriptor and
    the other descriptors are as before. *)
Theorem vfs_read_clamped len buff :
  is_size_t (i_size ino) ->
  0 <= len < half_modulus ->
  d_seek_pos fd + len < modulus ->
  (handle <> ttyfh s -> d_seek_pos fd <= i_size ino) ->
  let len1 := clamped_len s handle fd ino len in
  0 <= len1 <= len
  /\ (handle <> ttyfh s -> d_seek_pos fd + len > i_size ino ->
      len1 = i_size ino - d_seek_pos fd
      /\ (len1 = 0 -> vfs_read vfs_fslist s handle len buff = Some (0, buff, s)))
  /\ (handle = ttyfh s \/ ~ d_seek_pos fd + len > i_size ino -> len1 = len)
  /\ (~ (handle <> ttyfh s /\ d_seek_pos fd + len > i_size ino /\ len1 = 0) ->
      forall status buff1 h1,
        fs_read fs (heap s) (d_inode fd) (d_seek_pos fd) len1 buff = (status, buff1, h1) ->
        exists ret s1 fd1,
          vfs_read vfs_fslist s handle len buff = Some (ret, buff1, s1)
          /\ heap s1 = h1
          /\ calls s1 = calls s ++ [CallRead fsid (d_inode fd) (d_seek_pos fd) len1]
          /\ vfs_handle_to_fd s1 handle = Some fd1
          /\ d_path fd1 = d_path fd /\ d_tnode fd1 = d_tnode fd
          /\ d_inode fd1 = d_inode fd /\ d_mode fd1 = d_mode fd
          /\ (forall h, h <> handle -> vfs_openfiles s1 !! h = vfs_openfiles s !! h)
          /\ (status = -1 -> ret = 0 /\ d_seek_pos fd1 = d_seek_pos fd)
          /\ (status <> -1 -> ret = len1 /\ d_seek_pos fd1 = d_seek_pos fd + len1)).
Proof.
  intros Hsize Hlen Hsum Hwithin len1.
  destruct (read_len_clamped len Hsize ltac:(lia) Hsum Hwithin) as (Hiff & Hrl & Hrange).
  fold len1 in Hrl, Hrange.
  split; [exact Hrange |]. split; [| split].
  - intros Htty Hgt.
    assert (Hl : len1 = i_size ino - d_seek_pos fd).
    { subst len1. unfold clamped_len. rewrite decide_True by (split; assumption).
      reflexivity. }
    split; [exact Hl |]. intros H0.
    apply vfs_read_at_end; [apply Hiff; split; assumption | rewrite Hrl; exact H0].
  - intros Hno. subst len1. unfold clamped_len.
    rewrite decide_False; [reflexivity |]. intros [Hne Hgt]. destruct Hno; contradiction.
  - intros Hn status buff1 h1 Hcall. rewrite <- Hrl in Hcall.
    assert (Hn' : ~ (read_truncates s handle fd ino len
                     /\ read_len s handle fd ino len = 0)).
    { intros [Ht H0]. apply Hn. apply Hiff in Ht as [Htty Hgt].
      rewrite Hrl in H0. auto. }
    pose proof (vfs_read_delegates len buff status buff1 h1 Hn' Hcall) as Hrun.
    rewrite Hrl in Hrun.
    eexists _, _, _. split; [exact Hrun |].
    split; [reflexivity |]. split; [reflexivity |].
    split; [unfold vfs_handle_to_fd; simpl; apply lookup_insert_eq |].
    split; [reflexivity |]. split; [reflexivity |].
    split; [reflexivity |]. split; [reflexivity |].
    split; [intros h Hne; simpl; apply lookup_insert_ne; congruence |].
    split; intros Hst.
    + rewrite decide_True by exact Hst. split; [reflexivity |].
      simpl. apply add64_zero. exact seek_range.
    + rewrite decide_False by exact Hst.
      split; [apply to_int64_small; lia |].
      simpl. unfold add64. apply wrap64_small.
      unfold is_size_t in *. lia.
Qed.

End ReadFacts.

(** C2 (as stated, refuted), at three inputs.  After one [vfs_getdent] on
    the folder [/], whose size is 0, the seek position is 1: a read of 10
    bytes then asks the provider for [2^64 - 1] bytes, more than [len] and
    not [size - seek_pos].  At position 5 of a file of 100 bytes, a read of
    [2^64 - 1] bytes has [seek_pos + len > size] and yet is not truncated:
    the sum is computed modulo [2^64].  And a read of [2^63] bytes from a
    file of [2^63 + 10] bytes returns [-2^63], not the length. *)
Lemma vfs_read_not_clamped_in_64_bits :
  (exists de s1 s2,
     vfs_getdent unit Ex2.no_time Ex2.dirs 101 Ex2.blank = Some (1, de, s1)
     /\ (d_seek_pos <$> vfs_handle_to_fd s1 101) = Some 1
     /\ inode_size (heap s1) 11 = Some 0
     /\ vfs_read Ex.fslist s1 101 10 [] = Some (-1, [], s2)
     /\ calls s2 = [CallRead 0 11 1 (2 ^ 64 - 1)]
     /\ 10 < 2 ^ 64 - 1)
  /\ (exists s2,
        vfs_read Ex.fslist (Ex.tree 0 100 5 VFS_MODE_READ) 100 (2 ^ 64 - 1) []
        = Some (-1, [], s2)
        /\ calls s2 = [CallRead 0 12 5 (2 ^ 64 - 1)]
        /\ 5 + (2 ^ 64 - 1) > 100
        /\ clamped_len (Ex.tree 0 100 5 VFS_MODE_READ) 100
             (Ex.opened "/a" 2 12 5 VFS_MODE_READ) (Ex.plain_file 0 100 1) (2 ^ 64 - 1)
           = 95)
  /\ (exists s2,
        vfs_read Ex.fslist (Ex.tree 0 (2 ^ 63 + 10) 0 VFS_MODE_READ) 100 (2 ^ 63) []
        = Some (- 2 ^ 63, [], s2)
        /\ calls s2 = [CallRead 0 12 0 (2 ^ 63)]).
Proof.
  split; [| split].
  - eexists _, _, _. split; [vm_compute; reflexivity |].
    split; [vm_compute; reflexivity |]. split; [vm_compute; reflexivity |].
    split; [vm_compute; reflexivity |]. split; [vm_compute; reflexivity |]. lia.
  - eexists. split; [vm_compute; reflexivity |].
    split; [vm_compute; reflexivity |]. split; [lia |]. vm_compute. reflexivity.
  - eexists. split; [vm_compute; reflexivity |]. vm_compute. reflexivity.
Qed.

(** A read of 1000 bytes at position 40 of a file of 100 bytes asks the
    provider for 60 and leaves the position at 100. *)
Lemma vfs_read_clamped_witness :
  exists s1 fd1,
    vfs_read Ex.fslist (Ex.tree 0 100 40 VFS_MODE_READ) 100 1000 [] = Some (60, [], s1)
    /\ calls s1 = [CallRead 0 12 40 60]
    /\ vfs_handle_to_fd s1 100 = Some fd1
    /\ d_seek_pos fd1 = 100.
Proof.
  pose proof (vfs_read_clamped Ex.fslist (Ex.tree 0 100 40 VFS_MODE_READ) 100
                (Ex.opened "/a" 2 12 40 VFS_MODE_READ) (Ex.plain_file 0 100 1)
                0%nat Ex.ramfs eq_refl eq_refl eq_refl eq_refl
                ltac:(unfold is_size_t, modulus; simpl; lia) 1000 []
                ltac:(unfold is_size_t, modulus; simpl; lia)
                ltac:(unfold half_modulus; simpl; lia)
                ltac:(unfold modulus; simpl; lia)
                ltac:(simpl; lia)) as H.
  cbv zeta in H. destruct H as (_ & _ & _ & H).
  destruct (H ltac:(intros (_ & _ & H0); vm_compute in H0; discriminate H0)
              60 [] (heap (Ex.tree 0 100 40 VFS_MODE_READ)) eq_refl)
    as (ret & s1 & fd1 & H1 & _ & H2 & H3 & _ & _ & _ & _ & _ & _ & H4).
  destruct (H4 ltac:(discriminate)) as [-> H5].
  exists s1, fd1. split; [exact H1 |]. split; [exact H2 |]. split; [exact H3 | exact H5].
Defined.

(** ** [vfs_write] *)

Section WriteFacts.

Variable vfs_fslist : list vfs_fsinfo_t.
Variables (s : vfs_state) (handle : Z) (nd : vfs_node_desc_t) (ino : vfs_inode_t).
Variables (fsid : nat) (fs : vfs_fsinfo_t).
Hypothesis handle_open : vfs_handle_to_fd s handle = Some nd.
Hypothesis writable : d_mode nd <> VFS_MODE_READ.
Hypothesis inode_live : inodes (heap s) !! d_inode nd = Some ino.
Hypothesis tnode_live : is_Some (tnodes (heap s) !! d_tnode nd).
Hypothesis inode_fs : i_fs ino = Some fsid.
Hypothesis provider : the_fs vfs_fslist fsid = Some fs.
Hypothesis contract : keeps_sizes fs.

(** The growth step: afterwards the inode has the new size, and [sync] has
    been called if the file grew and the provider has one. *)
Lemma write_expand_grown len :
  add64 (d_seek_pos nd) len > i_size ino ->
  exists s1 ino1,
    write_expand vfs_fslist s nd len = Some s1
    /\ inodes (heap s1) !! d_inode nd = Some ino1
    /\ i_size ino1 = add64 (d_seek_pos nd) len
    /\ i_fs ino1 = Some fsid
    /\ is_Some (tnodes (heap s1) !! d_tnode nd)
    /\ calls s1 = calls s ++ sync_calls fs fsid (d_inode nd) true.
Proof.
  intros Hgrow. unfold write_expand. rewrite inode_live. simpl.
  rewrite decide_True by exact Hgrow.
  rewrite inode_fs. simpl. rewrite provider. simpl.
  unfold sync_calls.
  destruct (fs_sync fs) as [sync |] eqn:Hsync.
  - destruct contract as [Hs _].
    destruct (Hs sync (set_inode (heap s) (d_inode nd)
                         (with_size ino (add64 (d_seek_pos nd) len)))
                 (d_inode nd) Hsync) as [Hi Ht].
    destruct (Hi (d_inode nd) _ (lookup_insert_eq _ _ _)) as (i' & Hi' & Hsz & Hfs).
    eexists _, i'. split; [reflexivity |]. simpl.
    repeat split; try assumption.
    + rewrite Hfs. exact inode_fs.
    + apply Ht. simpl. exact tnode_live.
  - eexists _, _. split; [reflexivity |]. simpl.
    rewrite lookup_insert_eq, app_nil_r. repeat split; try assumption; reflexivity.
Qed.

Lemma write_expand_same len :
  ~ add64 (d_seek_pos nd) len > i_size ino ->
  write_expand vfs_fslist s nd len = Some s.
Proof.
  intros Hn. unfold write_expand. rewrite inode_live. simpl.
  rewrite decide_False by exact Hn. reflexivity.
Qed.

(** After the growth step: the delegation to [write] and the copy of the
    size into the tree node. *)
Lemma vfs_write_after_expand len buff s1 ino1 :
  write_expand vfs_fslist s nd len = Some s1 ->
  inodes (heap s1) !! d_inode nd = Some ino1 ->
  i_fs ino1 = Some fsid ->
  is_Some (tnodes (heap s1) !! d_tnode nd) ->
  exists s',
    vfs_write vfs_fslist s handle len buff =
      Some (to_int64
              (if decide ((fs_write fs (heap s1) (d_inode nd) (d_seek_pos nd) len buff).1 = -1)
               then 0 else len), s')
    /\ inode_size (heap s') (d_inode nd) = Some (i_size ino1)
    /\ tnode_st_size (heap s') (d_tnode nd) = Some (i_size ino1)
    /\ calls s' = calls s1 ++ [CallWrite fsid (d_inode nd) (d_seek_pos nd) len].
Proof.
  intros Hexp Hino1 Hfs1 Htn1.
  unfold vfs_write. rewrite handle_open. rewrite decide_False by exact writable.
  rewrite Hexp. simpl. rewrite Hino1. simpl. rewrite Hfs1. simpl.
  rewrite provider. simpl.
  destruct contract as [_ Hw].
  specialize (Hw (heap s1) (d_inode nd) (d_seek_pos nd) len buff).
  destruct (fs_write fs (heap s1) (d_inode nd) (d_seek_pos nd) len buff)
    as [status h2] eqn:Hcall.
  simpl in Hw. destruct Hw as [Hi Ht].
  destruct (Hi _ _ Hino1) as (ino2 & Hino2 & Hsz2 & _).
  destruct (Ht _ Htn1) as [tn2 Htn2].
  rewrite Htn2. simpl. rewrite Hino2. simpl.
  eexists. split; [reflexivity |]. simpl.
  unfold inode_size, tnode_st_size. simpl.
  rewrite Hino2, lookup_insert_eq. simpl. rewrite Hsz2.
  repeat split; reflexivity.
Qed.

(** Writing past the end, whatever the provider answers. *)
Lemma vfs_write_grows len buff :
  add64 (d_seek_pos nd) len > i_size ino ->
  exists s1 s',
    write_expand vfs_fslist s nd len = Some s1
    /\ inode_size (heap s1) (d_inode nd) = Some (add64 (d_seek_pos nd) len)
    /\ calls s1 = calls s ++ sync_calls fs fsid (d_inode nd) true
    /\ vfs_write vfs_fslist s handle len buff =
         Some (to_int64
                 (if decide ((fs_write fs (heap s1) (d_inode nd) (d_seek_pos nd) len buff).1 = -1)
                  then 0 else len), s')
    /\ inode_size (heap s') (d_inode nd) = Some (add64 (d_seek_pos nd) len)
    /\ tnode_st_size (heap s') (d_tnode nd) = Some (add64 (d_seek_pos nd) len)
    /\ calls s' = calls s1 ++ [CallWrite fsid (d_inode nd) (d_seek_pos nd) len].
Proof.
  intros Hgrow.
  destruct (write_expand_grown len Hgrow) as (s1 & ino1 & Hexp & Hino1 & Hsz & Hfs & Htn & Hcalls).
  destruct (vfs_write_after_expand len buff s1 ino1 Hexp Hino1 Hfs Htn)
    as (s' & Hw & His & Hts & Hc).
  exists s1, s'. rewrite Hsz in His, Hts.
  repeat split; try assumption.
  unfold inode_size. rewrite Hino1. simpl. rewrite Hsz. reflexivity.
Qed.



End WriteFacts.

Lemma sizes_kept_refl h : sizes_kept h h.
Proof. split; [intros p i Hi; exists i; auto | auto]. Qed.

Lemma ramfs_keeps_sizes : keeps_sizes Ex.ramfs.
Proof.
  split.
  - intros sync h p [= <-]. apply sizes_kept_refl.
  - intros h p off len buff. apply sizes_kept_refl.
Qed.

Lemma deadfs_keeps_sizes : keeps_sizes Ex.deadfs.
Proof.
  split.
  - intros sync h p [=].
  - intros h p off len buff. apply sizes_kept_refl.
Qed.



(** ** [vfs_unlink] *)

Section UnlinkFacts.

Variable vfs_fslist : list vfs_fsinfo_t.
Variable vfs_path_to_node : vfs_heap -> string -> option ptr.
Variables (s : vfs_state) (path : string).
Variables (req : ptr) (tn : vfs_tnode_t) (ino : vfs_inode_t).
Variables (fsid : nat) (fs : vfs_fsinfo_t).
Hypothesis resolves : vfs_path_to_node (heap s) path = Some req.
Hypothesis tnode_live : tnodes (heap s) !! req = Some tn.
Hypothesis inode_live : inodes (heap s) !! t_inode tn = Some ino.
Hypothesis provider :
  i_refcount ino = 0 -> i_fs ino = Some fsid /\ the_fs vfs_fslist fsid = Some fs.

(** The heap once [st_nlink] has been set to 0. *)
Let unlinked : vfs_heap := set_tnode (heap s) req (with_st_nlink tn 0).

Lemma vfs_unlink_refused :
  st_nlink (t_st tn) <> 1%N ->
  vfs_unlink vfs_fslist vfs_path_to_node s path = Some (-1, s).
Proof.
  intros Hne. unfold vfs_unlink. rewrite resolves, tnode_live. simpl.
  destruct (decide (1 < st_nlink (t_st tn))%N) as [Hgt | Hle]; [reflexivity |].
  rewrite decide_True by lia. reflexivity.
Qed.

Lemma vfs_unlink_done :
  st_nlink (t_st tn) = 1%N ->
  vfs_unlink vfs_fslist vfs_path_to_node s path =
    Some (0,
          if decide (i_refcount ino = 0) then
            match fs_rmnode fs with
            | Some rmnode =>
              log_call (set_heap s (rmnode unlinked req)) (CallRmnode fsid req)
            | None => set_heap s unlinked
            end
          else set_heap s unlinked).
Proof.
  intros H1. unfold vfs_unlink. rewrite resolves, tnode_live. simpl.
  rewrite decide_False by lia. rewrite decide_False by lia.
  rewrite inode_live. simpl.
  destruct (decide (i_refcount ino = 0)) as [H0 | Hn]; [| reflexivity].
  destruct (provider H0) as [Hfs Hp]. rewrite Hfs. simpl. rewrite Hp. simpl.
  destruct (fs_rmnode fs); reflexivity.
Qed.

(** C5.  On a path that resolves, [vfs_unlink] returns 0 iff the tree
    node's [st_nlink] is 1, and otherwise returns -1 with the state as it
    was.  On success the link count is set to 0, and the provider's
    [rmnode], when the inode's reference count is 0 and the provider has
    one, is called once on the tree node (and in no other case). *)
Theorem vfs_unlink_link_count :
  (st_nlink (t_st tn) <> 1%N ->
     vfs_unlink vfs_fslist vfs_path_to_node s path = Some (-1, s))
  /\ (st_nlink (t_st tn) = 1%N ->
      exists s',
        vfs_unlink vfs_fslist vfs_path_to_node s path = Some (0, s')
        /\ tnode_st_nlink unlinked req = Some 0%N
        /\ (forall rmnode,
              i_refcount ino = 0 -> fs_rmnode fs = Some rmnode ->
              heap s' = rmnode unlinked req
              /\ calls s' = calls s ++ [CallRmnode fsid req])
        /\ (i_refcount ino <> 0 \/ fs_rmnode fs = None ->
              heap s' = unlinked /\ calls s' = calls s))
  /\ ((exists s', vfs_unlink vfs_fslist vfs_path_to_node s path = Some (0, s'))
      <-> st_nlink (t_st tn) = 1%N).
Proof.
  split; [exact vfs_unlink_refused |]. split.
  - intros H1. eexists. split; [apply vfs_unlink_done; exact H1 |].
    split; [unfold tnode_st_nlink, unlinked; simpl; rewrite lookup_insert_eq; reflexivity |].
    split.
    + intros rmnode H0 Hrm. rewrite decide_True by exact H0. rewrite Hrm.
      split; reflexivity.
    + intros [Hn | Hnone].
      * rewrite decide_False by exact Hn. split; reflexivity.
      * rewrite Hnone. destruct (decide (i_refcount ino = 0)); split; reflexivity.
  - split.
    + intros [s' Hs']. destruct (decide (st_nlink (t_st tn) = 1%N)) as [H1 | Hne]; [exact H1 |].
      rewrite (vfs_unlink_refused Hne) in Hs'. discriminate Hs'.
    + intros H1. eexists. apply vfs_unlink_done. exact H1.
Qed.

End UnlinkFacts.

(** Unlinking [/b], which nobody has open: [rmnode] is called. *)
Lemma vfs_unlink_link_count_witness :
  exists s',
    vfs_unlink Ex.fslist Ex.resolve (Ex.tree 0 100 0 VFS_MODE_READ) "/b" = Some (0, s')
    /\ calls s' = [CallRmnode 0 3].
Proof.
  destruct (vfs_unlink_link_count Ex.fslist Ex.resolve (Ex.tree 0 100 0 VFS_MODE_READ) "/b"
              3 (Ex.named "b" 13 1 5) (Ex.plain_file 0 5 0) 0%nat Ex.ramfs
              eq_refl eq_refl eq_refl ltac:(intros _; split; reflexivity))
    as (_ & Hdone & _).
  destruct (Hdone eq_refl) as (s' & Hs' & _ & Hrm & _).
  exists s'. split; [exact Hs' |].
  exact (proj2 (Hrm Ex.ram_rmnode eq_refl eq_refl)).
Defined.

(** ** [vfs_mount] *)

Section MountFacts.

Variable vfs_fslist : list vfs_fsinfo_t.
Variable FS_NAME_SIZE : nat.
Variable vfs_path_to_node : vfs_heap -> string -> option ptr.

Lemma vfs_get_fs_from_range i l name j :
  vfs_get_fs_from FS_NAME_SIZE i l name = Some j -> (i <= j < i + length l)%nat.
Proof.
  revert i. induction l as [| fs rest IH]; intros i; simpl; [discriminate |].
  destruct (strncmp_eq name (fs_name fs) FS_NAME_SIZE).
  - intros [= <-]. lia.
  - intros H. apply IH in H. lia.
Qed.

(** The provider found by name is one of the list. *)
Lemma vfs_get_fs_registered name fsid :
  vfs_get_fs vfs_fslist FS_NAME_SIZE name = Some fsid ->
  is_Some (the_fs vfs_fslist fsid).
Proof.
  intros H. apply vfs_get_fs_from_range in H.
  apply lookup_lt_is_Some. lia.
Qed.

Lemma vfs_mount_fail_unchanged s device path fsname s' :
  vfs_mount vfs_fslist FS_NAME_SIZE vfs_path_to_node s device path fsname = Some (-1, s') ->
  s' = s.
Proof.
  unfold vfs_mount.
  destruct (vfs_get_fs vfs_fslist FS_NAME_SIZE fsname) as [fsid |]; [| congruence].
  destruct (the_fs vfs_fslist fsid) as [fs |]; simpl; [| discriminate].
  destruct (mount_device vfs_path_to_node (heap s) fs device) as [[dev |] |];
    simpl; [| congruence | discriminate].
  destruct (vfs_path_to_node (heap s) path) as [at_ |]; [| congruence].
  destruct (tnodes (heap s) !! at_) as [atn |]; simpl; [| discriminate].
  destruct (inodes (heap s) !! t_inode atn) as [aino |]; simpl; [| discriminate].
  destruct (decide (i_type aino <> VFS_NODE_FOLDER \/ i_child aino <> [])); [congruence |].
  match goal with |- context [mbind _ ?m] => destruct m as [dev_inode |] end;
    simpl; [| discriminate].
  destruct (fs_mount fs _ dev_inode) as [root h2].
  destruct (tnodes h2 !! at_) as [atn2 |]; simpl; [| discriminate].
  match goal with |- context [mbind _ ?m] => destruct m end; simpl; discriminate.
Qed.

(** C4.  Whenever [vfs_mount] returns -1 the state is the one it started
    from: no inode was freed or replaced, no back-reference set and no
    provider called.  It returns -1 when no provider has the name, when the
    device of a provider that needs one does not resolve or is not a block
    device, when the path does not resolve, and when the inode at the path
    is not a folder or has children. *)
Theorem vfs_mount_failure_leaves_tree s device path fsname :
  (forall s',
     vfs_mount vfs_fslist FS_NAME_SIZE vfs_path_to_node s device path fsname = Some (-1, s') ->
     s' = s)
  /\ (vfs_get_fs vfs_fslist FS_NAME_SIZE fsname = None ->
      vfs_mount vfs_fslist FS_NAME_SIZE vfs_path_to_node s device path fsname = Some (-1, s))
  /\ (forall fsid fs,
        vfs_get_fs vfs_fslist FS_NAME_SIZE fsname = Some fsid ->
        the_fs vfs_fslist fsid = Some fs ->
        (mount_device vfs_path_to_node (heap s) fs device = Some None ->
         vfs_mount vfs_fslist FS_NAME_SIZE vfs_path_to_node s device path fsname = Some (-1, s))
        /\ (is_Some (mount_device vfs_path_to_node (heap s) fs device) ->
            vfs_path_to_node (heap s) path = None ->
            vfs_mount vfs_fslist FS_NAME_SIZE vfs_path_to_node s device path fsname = Some (-1, s))
        /\ (forall at_ atn aino,
              is_Some (mount_device vfs_path_to_node (heap s) fs device) ->
              vfs_path_to_node (heap s) path = Some at_ ->
              tnodes (heap s) !! at_ = Some atn ->
              inodes (heap s) !! t_inode atn = Some aino ->
              i_type aino <> VFS_NODE_FOLDER \/ i_child aino <> [] ->
              vfs_mount vfs_fslist FS_NAME_SIZE vfs_path_to_node s device path fsname
              = Some (-1, s))).
Proof.
  split; [intros s'; apply vfs_mount_fail_unchanged |].
  split; [intros Hnone; unfold vfs_mount; rewrite Hnone; reflexivity |].
  intros fsid fs Hget Hfs. unfold vfs_mount. rewrite Hget, Hfs. simpl.
  split; [intros Hdev; rewrite Hdev; reflexivity |].
  split.
  - intros [[dev |] Hdev] Hpath; rewrite Hdev; simpl; [rewrite Hpath |]; reflexivity.
  - intros at_ atn aino [[dev |] Hdev] Hpath Htn Hino Hbad; rewrite Hdev; simpl;
      [| reflexivity].
    rewrite Hpath, Htn. simpl. rewrite Hino. simpl.
    rewrite decide_True by exact Hbad. reflexivity.
Qed.

End MountFacts.

(** Mounting onto [/], which has children. *)
Lemma vfs_mount_failure_leaves_tree_witness :
  vfs_mount Ex.fslist 16 Ex.resolve (Ex.tree 0 100 0 VFS_MODE_READ) None "/" "ramfs"
  = Some (-1, Ex.tree 0 100 0 VFS_MODE_READ).
Proof.
  refine (proj2 (proj2 (proj2 (proj2
            (vfs_mount_failure_leaves_tree Ex.fslist 16 Ex.resolve
               (Ex.tree 0 100 0 VFS_MODE_READ) None "/" "ramfs"))
            0%nat Ex.ramfs eq_refl eq_refl))
            1%positive (Ex.named "" 11 1 0) (Ex.folder 0 [2; 3; 4]%positive)
            _ eq_refl eq_refl eq_refl _).
  - eexists. reflexivity.
  - right. discriminate.
Defined.

(** ** [vfs_get_parent_dir] *)

Lemma strlen_app_nul a r : nul_free a -> strlen (a ++ NUL :: r) = length a.
Proof.
  induction 1 as [| c a Hc Ha IH]; simpl.
  - reflexivity.
  - destruct (decide (c = NUL)); [contradiction |]. rewrite IH. reflexivity.
Qed.

Lemma c_str_app_nul a r : nul_free a -> c_str (a ++ NUL :: r) = a.
Proof.
  intros Ha. unfold c_str. rewrite strlen_app_nul by exact Ha.
  apply take_app_length.
Qed.

Lemma c_str_nul_free l : nul_free (c_str l).
Proof.
  unfold c_str, nul_free. induction l as [| c l IH]; simpl; [constructor |].
  destruct (decide (c = NUL)); simpl; [constructor |].
  constructor; assumption.
Qed.

Lemma c_str_nul_free_id a : nul_free a -> c_str a = a.
Proof.
  unfold c_str. induction 1 as [| c a Hc Ha IH]; simpl; [reflexivity |].
  destruct (decide (c = NUL)); [contradiction |]. simpl. rewrite IH. reflexivity.
Qed.

Lemma strlen_c_str l : length (c_str l) = strlen l.
Proof.
  unfold c_str. induction l as [| c l IH]; simpl; [reflexivity |].
  destruct (decide (c = NUL)); simpl; [reflexivity | rewrite IH; reflexivity].
Qed.

Lemma strcpy_c_str dst src : c_str (strcpy dst src) = c_str src.
Proof. unfold strcpy. apply c_str_app_nul, c_str_nul_free. Qed.

Lemma strlen_strcpy dst src : strlen (strcpy dst src) = strlen src.
Proof.
  unfold strcpy. rewrite strlen_app_nul by apply c_str_nul_free.
  apply strlen_c_str.
Qed.

Lemma buf_get_below stray buf : buf_get stray buf (-1) = stray.
Proof. unfold buf_get. rewrite decide_True by lia. reflexivity. Qed.

Lemma buf_get_at stray a x r :
  buf_get stray (a ++ x :: r) (Z.of_nat (length a)) = x.
Proof.
  unfold buf_get. rewrite decide_False by lia. rewrite Nat2Z.id.
  apply nth_middle.
Qed.

Lemma buf_set_at a x y r :
  buf_set (a ++ x :: r) (Z.of_nat (length a)) y = a ++ y :: r.
Proof.
  unfold buf_set. rewrite Nat2Z.id.
  replace (length a) with (length a + 0)%nat by lia.
  rewrite insert_app_r. reflexivity.
Qed.

Lemma replicate_snoc {A} (n : nat) (x : A) : replicate (S n) x = replicate n x ++ [x].
Proof. induction n as [| n IH]; simpl; [reflexivity |]. simpl in IH. rewrite <- IH. reflexivity. Qed.

Lemma replicate_shift {A} (n : nat) (x : A) (R : list A) :
  x :: replicate n x ++ R = replicate n x ++ x :: R.
Proof. induction n as [| n IH]; simpl; [reflexivity |]. rewrite <- IH. reflexivity. Qed.

Lemma strip_loop_spec stray q j R fuel :
  last q <> Some SLASH -> (j + 1 <= fuel)%nat ->
  strip_loop stray fuel (q ++ replicate j SLASH ++ R) (Z.of_nat (length q + j) - 1)
  = Some (q ++ replicate j NUL ++ R, Z.of_nat (length q) - 1).
Proof.
  intros Hq. revert R fuel. induction j as [| j IH]; intros R fuel Hfuel.
  - destruct fuel as [| fuel]; [lia |]. simpl replicate. simpl app.
    rewrite Nat.add_0_r.
    destruct q as [| c q' _] using rev_ind.
    + simpl. reflexivity.
    + rewrite last_snoc in Hq. assert (Hc : c <> SLASH) by congruence.
      rewrite length_app. simpl length.
      replace (Z.of_nat (length q' + 1) - 1) with (Z.of_nat (length q')) by lia.
      rewrite <- app_assoc. simpl app. simpl strip_loop.
      rewrite decide_True by lia.
      rewrite buf_get_at. rewrite decide_False by exact Hc.
      rewrite buf_get_at. rewrite decide_True by exact Hc. reflexivity.
  - destruct fuel as [| fuel]; [lia |].
    rewrite replicate_snoc. rewrite <- !app_assoc. simpl app.
    rewrite (app_assoc q (replicate j SLASH)).
    replace (Z.of_nat (length q + S j) - 1)
      with (Z.of_nat (length (q ++ replicate j SLASH)))
      by (rewrite length_app, length_replicate; lia).
    simpl strip_loop. rewrite decide_True by lia.
    rewrite buf_get_at. rewrite decide_True by reflexivity.
    rewrite buf_set_at.
    replace (Z.of_nat (length (q ++ replicate j SLASH)) - 1)
      with (Z.of_nat (length q + j) - 1)
      by (rewrite length_app, length_replicate; lia).
    rewrite <- app_assoc.
    simpl replicate. simpl app. rewrite (replicate_shift j NUL R).
    specialize (IH (NUL :: R) fuel ltac:(lia)).
    destruct (decide (buf_get stray (q ++ replicate j SLASH ++ NUL :: R)
                        (Z.of_nat (length q + j) - 1) <> SLASH)) as [Hbrk | Hcont].
    + (* break: only possible when no slash is left *)
      destruct j as [| j'].
      * simpl. rewrite Nat.add_0_r. reflexivity.
      * exfalso. apply Hbrk.
        rewrite replicate_snoc. rewrite <- !app_assoc. simpl app.
        rewrite (app_assoc q (replicate j' SLASH)).
        replace (Z.of_nat (length q + S j') - 1)
          with (Z.of_nat (length (q ++ replicate j' SLASH)))
          by (rewrite length_app, length_replicate; lia).
        apply buf_get_at.
    + exact IH.
Qed.

Lemma split_loop_found stray pre base R fuel :
  slash_free base -> (length base + 1 <= fuel)%nat ->
  split_loop stray fuel (pre ++ SLASH :: base ++ R) (Z.of_nat (length pre + length base))
  = Some (pre ++ NUL :: base ++ R, Z.of_nat (length pre)).
Proof.
  revert R fuel. induction base as [| c b IH] using rev_ind; intros R fuel Hsf Hfuel.
  - destruct fuel as [| fuel]; [simpl in Hfuel; lia |].
    simpl length. rewrite Nat.add_0_r. simpl app. simpl split_loop.
    rewrite decide_True by lia. rewrite buf_get_at.
    rewrite decide_True by reflexivity. rewrite buf_set_at. reflexivity.
  - apply Forall_app in Hsf as [Hb Hc]. apply Forall_inv in Hc.
    rewrite length_app in *. simpl length in *.
    destruct fuel as [| fuel]; [lia |].
    rewrite <- !app_assoc. simpl app.
    replace (pre ++ SLASH :: b ++ c :: R) with ((pre ++ SLASH :: b) ++ c :: R)
      by (rewrite <- app_assoc; reflexivity).
    replace (Z.of_nat (length pre + (length b + 1)))
      with (Z.of_nat (length (pre ++ SLASH :: b)))
      by (rewrite length_app; simpl length; lia).
    simpl split_loop. rewrite decide_True by lia. rewrite buf_get_at.
    rewrite decide_False by exact Hc.
    replace (Z.of_nat (length (pre ++ SLASH :: b)) - 1)
      with (Z.of_nat (length pre + length b))
      by (rewrite length_app; simpl length; lia).
    rewrite <- app_assoc. simpl app.
    apply (IH (c :: R) fuel Hb). lia.
Qed.

Lemma split_loop_none stray a b fuel :
  slash_free a -> (length a + 1 <= fuel)%nat ->
  split_loop stray fuel (a ++ b) (Z.of_nat (length a) - 1) = Some (a ++ b, -1).
Proof.
  revert b fuel. induction a as [| c a IH] using rev_ind; intros b fuel Hsf Hfuel.
  - destruct fuel as [| fuel]; [simpl in Hfuel; lia |]. reflexivity.
  - apply Forall_app in Hsf as [Ha Hc]. apply Forall_inv in Hc.
    rewrite length_app in *. simpl length in *.
    destruct fuel as [| fuel]; [lia |].
    rewrite <- app_assoc. simpl app.
    replace (Z.of_nat (length a + 1) - 1) with (Z.of_nat (length a)) by lia.
    simpl split_loop. rewrite decide_True by lia. rewrite buf_get_at.
    rewrite decide_False by exact Hc.
    apply (IH (c :: b) fuel Ha). lia.
Qed.

Lemma index_of_strlen n :
  0 <= n < half_modulus -> to_int64 (sub64 n 1) = n - 1.
Proof.
  intros Hn. destruct (decide (n = 0)) as [-> | Hne]; [reflexivity |].
  rewrite sub64_le by (unfold is_size_t, half_modulus, modulus in *; lia).
  apply to_int64_small. lia.
Qed.

Lemma c_str_cleared l : l <> [] -> c_str (buf_set l 0 NUL) = [].
Proof. destruct l; [congruence | reflexivity]. Qed.

Section ParentDirFacts.

Variables (stray : ascii) (path parent : list ascii) (currdir : option (list ascii)).
Variables (q : list ascii) (k : nat).
Hypothesis path_shape : c_str path = q ++ replicate k SLASH.
Hypothesis stripped : last q <> Some SLASH.
Hypothesis path_fits : Z.of_nat (strlen path) < half_modulus.

Lemma stripped_nul_free : nul_free q.
Proof.
  pose proof (c_str_nul_free path) as H. rewrite path_shape in H.
  apply Forall_app in H. tauto.
Qed.

Lemma strlen_path : strlen path = (length q + k)%nat.
Proof.
  rewrite <- strlen_c_str, path_shape, length_app, length_replicate. reflexivity.
Qed.

(** The buffer after the first loop: the stripped path, then a NUL. *)
Lemma strip_phase :
  exists R,
    strip_loop stray (S (strlen (strcpy parent path))) (strcpy parent path)
      (to_int64 (sub64 (Z.of_nat (strlen (strcpy parent path))) 1))
    = Some (q ++ NUL :: R, Z.of_nat (length q) - 1).
Proof.
  rewrite strlen_strcpy. rewrite index_of_strlen by lia.
  rewrite strlen_path. unfold strcpy. rewrite path_shape, <- app_assoc.
  exists (replicate k NUL ++ drop (S (strlen path)) parent).
  rewrite (replicate_shift k NUL).
  apply strip_loop_spec; [exact stripped | lia].
Qed.

(** The buffer the second loop starts from. *)
Lemma strip_phase_length R : strlen (q ++ NUL :: R) = length q.
Proof. apply strlen_app_nul, stripped_nul_free. Qed.

Lemma parent_dir_root_case :
  (length q <= 1)%nat ->
  exists parent',
    vfs_get_parent_dir stray (Some path) (Some parent) currdir
    = Some (-1, Some parent', currdir)
    /\ c_str parent' = [].
Proof.
  destruct strip_phase as [R Hstrip].
  intros Hshort. unfold vfs_get_parent_dir. rewrite Hstrip. simpl.
  rewrite decide_True by lia.
  eexists. split; [reflexivity |].
  apply c_str_cleared. destruct q; discriminate.
Qed.

Lemma parent_dir_split_case pre base :
  (1 < length q)%nat -> q = pre ++ SLASH :: base -> slash_free base ->
  exists parent' currdir',
    vfs_get_parent_dir stray (Some path) (Some parent) currdir
    = Some (0, Some parent', currdir')
    /\ c_str parent' = (if decide (pre = []) then [SLASH] else pre)
    /\ c_str <$> currdir' = (fun _ => base) <$> currdir.
Proof.
  destruct strip_phase as [R Hstrip].
  pose proof stripped_nul_free as Hnf.
  pose proof (strip_phase_length R) as Hlen.
  intros Hlong Hq Hsf. rewrite Hq in Hnf, Hlen, Hstrip, Hlong.
  apply Forall_app in Hnf as [Hpre Hbase]. apply Forall_cons in Hbase as [_ Hbase].
  rewrite length_app in Hlong, Hlen, Hstrip. simpl length in Hlong, Hlen, Hstrip.
  unfold vfs_get_parent_dir. rewrite Hstrip. cbn -[split_loop strlen strcpy].
  rewrite decide_False by lia. rewrite Hlen.
  replace (Z.of_nat (length pre + S (length base)) - 1)
    with (Z.of_nat (length pre + length base)) by lia.
  rewrite <- app_assoc. simpl app.
  rewrite split_loop_found by (try assumption; lia). cbn -[strlen strcpy].
  rewrite strlen_app_nul by exact Hpre.
  eexists _, _. split; [reflexivity |]. split.
  - destruct pre as [| c pre']; simpl.
    + reflexivity.
    + apply (c_str_app_nul (c :: pre')). exact Hpre.
  - destruct currdir as [c |]; [| reflexivity].
    rewrite decide_True by lia. simpl fmap.
    f_equal. rewrite strcpy_c_str.
    replace (Z.to_nat (Z.of_nat (length pre) + 1)) with (length (pre ++ [NUL]))
      by (rewrite length_app; simpl; lia).
    replace (pre ++ NUL :: base ++ NUL :: R) with ((pre ++ [NUL]) ++ base ++ NUL :: R)
      by (rewrite <- app_assoc; reflexivity).
    rewrite drop_app_length. apply c_str_app_nul. exact Hbase.
Qed.

Lemma parent_dir_plain_case :
  (1 < length q)%nat -> slash_free q ->
  exists parent',
    vfs_get_parent_dir stray (Some path) (Some parent) currdir
    = Some (0, Some parent', currdir)
    /\ c_str parent' = q.
Proof.
  destruct strip_phase as [R Hstrip].
  pose proof (strip_phase_length R) as Hlen.
  intros Hlong Hsf.
  unfold vfs_get_parent_dir. rewrite Hstrip. cbn -[split_loop strlen strcpy].
  rewrite decide_False by lia. rewrite Hlen.
  rewrite split_loop_none by (try assumption; lia). cbn -[strlen strcpy].
  rewrite Hlen. rewrite decide_False by lia.
  eexists. split.
  - destruct currdir; reflexivity.
  - apply c_str_app_nul. exact stripped_nul_free.
Qed.

(** C8, as the code has it.  Write the path as [q] followed by [k] slashes,
    [q] not ending in a slash.  If [q] has at most one character the
    routine returns -1 with the empty string in [parent] and [currdir]
    untouched.  Otherwise it returns 0; if [q] is [pre/base] with no slash
    in [base], [parent] holds [pre] (or "/" when [pre] is empty) and
    [currdir], when given, holds [base]; if [q] has no slash at all,
    [parent] holds [q] and [currdir] is untouched. *)
Theorem vfs_get_parent_dir_cases :
  ((length q <= 1)%nat ->
     exists parent',
       vfs_get_parent_dir stray (Some path) (Some parent) currdir
       = Some (-1, Some parent', currdir)
       /\ c_str parent' = [])
  /\ (forall pre base,
        (1 < length q)%nat -> q = pre ++ SLASH :: base -> slash_free base ->
        exists parent' currdir',
          vfs_get_parent_dir stray (Some path) (Some parent) currdir
          = Some (0, Some parent', currdir')
          /\ c_str parent' = (if decide (pre = []) then [SLASH] else pre)
          /\ c_str <$> currdir' = (fun _ => base) <$> currdir)
  /\ ((1 < length q)%nat -> slash_free q ->
        exists parent',
          vfs_get_parent_dir stray (Some path) (Some parent) currdir
          = Some (0, Some parent', currdir)
          /\ c_str parent' = q).
Proof.
  split; [exact parent_dir_root_case |].
  split; [exact parent_dir_split_case |].
  exact parent_dir_plain_case.
Qed.

End ParentDirFacts.

(** Every string is a string that does not end in a slash, followed by
    slashes. *)
Lemma trailing_slashes (l : list ascii) :
  exists q k, l = q ++ replicate k SLASH /\ last q <> Some SLASH.
Proof.
  induction l as [| c l IH] using rev_ind.
  - exists [], 0%nat. split; [reflexivity | discriminate].
  - destruct (decide (c = SLASH)) as [-> | Hc].
    + destruct IH as (q & k & -> & Hq). exists q, (S k).
      split; [| exact Hq]. rewrite replicate_snoc, app_assoc. reflexivity.
    + exists (l ++ [c]), 0%nat. split; [rewrite app_nil_r; reflexivity |].
      rewrite last_snoc. congruence.
Qed.

(** A string has no slash, or a last one. *)
Lemma last_slash (q : list ascii) :
  slash_free q \/ exists pre base, q = pre ++ SLASH :: base /\ slash_free base.
Proof.
  induction q as [| c q IH] using rev_ind.
  - left. constructor.
  - destruct (decide (c = SLASH)) as [-> | Hc].
    + right. exists q, []. split; [reflexivity | constructor].
    + destruct IH as [Hsf | (pre & base & -> & Hsf)].
      * left. apply Forall_app. split; [exact Hsf | constructor; [exact Hc | constructor]].
      * right. exists pre, (base ++ [c]). split; [rewrite <- app_assoc; reflexivity |].
        apply Forall_app. split; [exact Hsf | constructor; [exact Hc | constructor]].
Qed.

(** [vfs_get_parent_dir] returns on every path, and what it leaves in
    [parent] is the path itself or something shorter. *)
Lemma vfs_get_parent_dir_total stray path parent currdir :
  Z.of_nat (strlen path) < half_modulus ->
  exists ret parent' currdir',
    vfs_get_parent_dir stray (Some path) (Some parent) currdir
    = Some (ret, Some parent', currdir')
    /\ (c_str parent' = c_str path
        \/ (strlen parent' < strlen path)%nat).
Proof.
  intros Hfits.
  destruct (trailing_slashes (c_str path)) as (q & k & Hshape & Hq).
  pose proof (parent_dir_root_case stray path parent currdir q k Hshape Hq Hfits) as Hroot.
  pose proof (parent_dir_split_case stray path parent currdir q k Hshape Hq Hfits) as Hsplit.
  pose proof (parent_dir_plain_case stray path parent currdir q k Hshape Hq Hfits) as Hplain.
  assert (Hlen : strlen path = (length q + k)%nat).
  { rewrite <- strlen_c_str, Hshape, length_app, length_replicate. reflexivity. }
  destruct (decide (length q <= 1)%nat) as [Hshort | Hlong].
  - destruct (Hroot Hshort) as (parent' & Hrun & Hp).
    exists (-1), parent', currdir. split; [exact Hrun |].
    destruct (c_str path) as [| c rest] eqn:Hpath; [left; exact Hp |].
    right. rewrite <- (strlen_c_str parent'), Hp, <- (strlen_c_str path), Hpath.
    simpl. lia.
  - destruct (last_slash q) as [Hsf | (pre & base & Hq' & Hsf)].
    + destruct (Hplain ltac:(lia) Hsf) as (parent' & Hrun & Hp).
      exists 0, parent', currdir. split; [exact Hrun |].
      destruct k as [| k].
      * left. rewrite Hp, Hshape. simpl. rewrite app_nil_r. reflexivity.
      * right. rewrite <- (strlen_c_str parent'), Hp, Hlen. lia.
    + destruct (Hsplit pre base ltac:(lia) Hq' Hsf) as (parent' & currdir' & Hrun & Hp & _).
      exists 0, parent', currdir'. split; [exact Hrun |].
      right. rewrite <- (strlen_c_str parent'), Hp, Hlen.
      subst q. rewrite length_app in *. simpl length in *.
      destruct (decide (pre = [])); simpl; lia.
Qed.

(** The ancestor walk of [vfs_open] ends within [strlen curpath + 1]
    rounds. *)
Lemma strcpy_in_fits cap dst src :
  (strlen src < cap)%nat -> strcpy_in cap dst src = Some (strcpy dst src).
Proof. intros H. unfold strcpy_in. rewrite decide_True by exact H. reflexivity. Qed.

Lemma strcpy_in_Some cap dst src buf :
  strcpy_in cap dst src = Some buf -> (strlen src < cap)%nat /\ buf = strcpy dst src.
Proof.
  unfold strcpy_in. destruct (decide (strlen src < cap)%nat); [| discriminate].
  intros [= <-]. split; [assumption | reflexivity].
Qed.

Lemma ancestor_walk_total vfs_path_to_node stray cap fuel : forall h curpath parent,
  (strlen curpath < fuel)%nat ->
  (strlen curpath < cap)%nat ->
  Z.of_nat (strlen curpath) < half_modulus ->
  is_Some (ancestor_walk vfs_path_to_node stray cap fuel h curpath parent).
Proof.
  induction fuel as [| fuel IH]; intros h curpath parent Hfuel Hcap Hfits; [lia |].
  destruct (vfs_get_parent_dir_total stray curpath parent None Hfits)
    as (ret & parent' & currdir' & Hrun & Hshrink).
  cbn [ancestor_walk]. rewrite (strcpy_in_fits cap parent curpath Hcap).
  cbn [mbind option_bind]. rewrite Hrun. cbn [mbind option_bind].
  destruct (decide (c_str curpath = c_str parent')) as [Heq | Hne]; [eauto |].
  destruct (vfs_path_to_node h (string_of_list_ascii (c_str parent'))); [eauto |].
  destruct Hshrink as [Heq | Hlt]; [congruence |].
  rewrite strcpy_in_fits by lia. cbn [mbind option_bind].
  apply IH; rewrite strlen_strcpy; lia.
Qed.

Lemma strlen_terminated l r : (strlen (l ++ NUL :: r) <= length l)%nat.
Proof.
  induction l as [| c l IH]; simpl; [lia |].
  destruct (decide (c = NUL)); lia.
Qed.

(** The walk that [vfs_open] starts on a path that does not resolve ends:
    the model of [vfs_open] never runs out of fuel. *)
Lemma vfs_open_walk_ends vfs_path_to_node stray cap h (path : string) curpath :
  strcpy_in cap [NUL] (list_ascii_of_string path ++ [NUL]) = Some curpath ->
  Z.of_nat (length (list_ascii_of_string path)) < half_modulus ->
  is_Some (ancestor_walk vfs_path_to_node stray cap
             (S (S (strlen curpath))) h curpath [NUL]).
Proof.
  intros Hcopy Hfits.
  apply strcpy_in_Some in Hcopy as [Hcap ->].
  pose proof (strlen_terminated (list_ascii_of_string path) []) as Hle.
  rewrite strlen_strcpy.
  apply ancestor_walk_total; rewrite ?strlen_strcpy; lia.
Qed.

(** C8 (as stated, refuted): for the path "/", which has no parent
    directory, the routine returns -1 and leaves the empty string in
    [parent], not "/". *)
Lemma vfs_get_parent_dir_root_gives_empty_parent :
  exists parent',
    vfs_get_parent_dir "x"%char (Some [SLASH; NUL]) (Some []) None
    = Some (-1, Some parent', None)
    /\ c_str parent' = []
    /\ c_str parent' <> [SLASH].
Proof. eexists. split; [vm_compute; reflexivity |]. split; [reflexivity | discriminate]. Qed.

(** The path [/a/b//]. *)
Lemma vfs_get_parent_dir_cases_witness :
  exists parent' currdir',
    vfs_get_parent_dir "x"%char (Some (list_ascii_of_string "/a/b//")) (Some []) (Some [])
    = Some (0, Some parent', currdir')
    /\ c_str parent' = list_ascii_of_string "/a"
    /\ c_str <$> currdir' = Some (list_ascii_of_string "b").
Proof.
  refine (proj1 (proj2 (vfs_get_parent_dir_cases "x"%char
                   (list_ascii_of_string "/a/b//") [] (Some [])
                   (list_ascii_of_string "/a/b") 2 _ _ _))
            (list_ascii_of_string "/a") (list_ascii_of_string "b") _ _ _).
  - reflexivity.
  - simpl. discriminate.
  - unfold half_modulus. simpl. lia.
  - simpl. lia.
  - reflexivity.
  - unfold slash_free. repeat constructor. discriminate.
Defined.

(** ** The handle counter *)

(** Case analysis on every test and every dereference of a run. *)
Ltac run_cases H :=
  repeat (simpl in H;
          match type of H with
          | context [mbind _ ?m] => destruct m eqn:?; simpl in H; try discriminate H
          | context [match ?x with _ => _ end] => destruct x eqn:?; simpl in H; try discriminate H
          | context [let '(_, _) := ?x in _] => destruct x eqn:?
          end).

Section HandleFacts.

Variable vfs_fslist : list vfs_fsinfo_t.
Variable FS_NAME_SIZE : nat.
Variable vfs_path_to_node : vfs_heap -> string -> option ptr.
Variable VFS_INVALID_HANDLE : Z.
Variable refcount_modulus : Z.
Variable stray : ascii.
Variable VFS_MAX_PATH_LEN : nat.
Variable DESC_PATH_LEN : nat.
Variable after_kmfree : vfs_node_desc_t -> option vfs_node_desc_t.

(** [VFS_MIN_HANDLE], from the missing header: the initial value of
    [vfs_next_handle]. *)
Variable VFS_MIN_HANDLE : Z.

Abbreviation vfs_open :=
  (vfs_open vfs_fslist vfs_path_to_node VFS_INVALID_HANDLE refcount_modulus stray
     VFS_MAX_PATH_LEN DESC_PATH_LEN).

Lemma open_finish_counter s req path mode fh s' :
  open_finish refcount_modulus DESC_PATH_LEN s req path mode = Some (fh, s') ->
  fh = to_int64 (vfs_next_handle s)
  /\ vfs_next_handle s' = add64 (vfs_next_handle s) 1.
Proof.
  unfold open_finish. intros H. run_cases H.
  injection H as <- <-. split; reflexivity.
Qed.

Lemma provider_open_counter s fsid inode path r s1 :
  provider_open vfs_fslist s fsid inode path = Some (r, s1) ->
  vfs_next_handle s1 = vfs_next_handle s.
Proof.
  unfold provider_open. intros H. run_cases H.
  injection H as <- <-. reflexivity.
Qed.

Lemma vfs_open_counter s path mode fh s' :
  vfs_open s path mode = Some (fh, s') ->
  (fh = VFS_INVALID_HANDLE /\ vfs_next_handle s' = vfs_next_handle s)
  \/ (fh = to_int64 (vfs_next_handle s)
      /\ vfs_next_handle s' = add64 (vfs_next_handle s) 1).
Proof.
  unfold vfs_open. intros H.
  destruct (vfs_path_to_node (heap s) path) as [req |].
  - destruct (tnodes (heap s) !! req) as [rtn |]; simpl in H; [| discriminate].
    destruct (inodes (heap s) !! t_inode rtn) as [rino |]; simpl in H; [| discriminate].
    destruct (i_fs rino) as [fsid |].
    + destruct (provider_open vfs_fslist s fsid (t_inode rtn) path) as [[r s1] |] eqn:Hp;
        simpl in H; [| discriminate].
      destruct r as [req1 |]; simpl in H; [| discriminate].
      apply provider_open_counter in Hp. apply open_finish_counter in H.
      right. rewrite <- Hp. exact H.
    + right. apply open_finish_counter in H. exact H.
  - destruct (strcpy_in _ _ _) as [curpath |]; cbn [mbind option_bind] in H;
      [| discriminate].
    destruct (ancestor_walk _ _ _ _ _ _ _) as [[pn parent] |]; simpl in H; [| discriminate].
    destruct pn as [pn |]; [| injection H as <- <-; left; split; reflexivity].
    destruct (tnodes (heap s) !! pn) as [ptn |]; simpl in H; [| discriminate].
    destruct (inodes (heap s) !! t_inode ptn) as [pino |]; simpl in H; [| discriminate].
    destruct (i_fs pino) as [fsid |]; [| injection H as <- <-; left; split; reflexivity].
    destruct (provider_open vfs_fslist s fsid (t_inode ptn) path) as [[r s1] |] eqn:Hp;
      simpl in H; [| discriminate].
    apply provider_open_counter in Hp.
    destruct r as [req1 |].
    + apply open_finish_counter in H. right. rewrite <- Hp. exact H.
    + injection H as <- <-. left. split; [reflexivity | exact Hp].
Qed.

Lemma vfs_close_counter s handle r s' :
  vfs_close vfs_fslist refcount_modulus after_kmfree s handle = Some (r, s') ->
  vfs_next_handle s' = vfs_next_handle s.
Proof.
  unfold vfs_close. intros H. run_cases H; injection H as <- <-; reflexivity.
Qed.

Lemma vfs_read_counter s handle len buff r b s' :
  vfs_read vfs_fslist s handle len buff = Some (r, b, s') ->
  vfs_next_handle s' = vfs_next_handle s.
Proof.
  unfold vfs_read. intros H. run_cases H; injection H as <- <- <-; reflexivity.
Qed.

Lemma write_expand_counter s nd len s1 :
  write_expand vfs_fslist s nd len = Some s1 ->
  vfs_next_handle s1 = vfs_next_handle s.
Proof.
  unfold write_expand. intros H. run_cases H; injection H as <-; reflexivity.
Qed.

Lemma vfs_write_counter s handle len buff r s' :
  vfs_write vfs_fslist s handle len buff = Some (r, s') ->
  vfs_next_handle s' = vfs_next_handle s.
Proof.
  unfold vfs_write. intros H.
  destruct (vfs_handle_to_fd s handle) as [nd |]; [| injection H as <- <-; reflexivity].
  destruct (decide (d_mode nd = VFS_MODE_READ)); [injection H as <- <-; reflexivity |].
  destruct (write_expand vfs_fslist s nd len) as [s1 |] eqn:Hexp; simpl in H; [| discriminate].
  apply write_expand_counter in Hexp.
  run_cases H; injection H as <- <-; exact Hexp.
Qed.

Lemma vfs_seek_counter s handle pos whence r s' :
  vfs_seek s handle pos whence = Some (r, s') ->
  vfs_next_handle s' = vfs_next_handle s.
Proof.
  unfold vfs_seek. intros H. run_cases H; injection H as <- <-; reflexivity.
Qed.

Lemma vfs_unlink_counter s path r s' :
  vfs_unlink vfs_fslist vfs_path_to_node s path = Some (r, s') ->
  vfs_next_handle s' = vfs_next_handle s.
Proof.
  unfold vfs_unlink. intros H. run_cases H; injection H as <- <-; reflexivity.
Qed.

Lemma vfs_mount_counter s device path fsname r s' :
  vfs_mount vfs_fslist FS_NAME_SIZE vfs_path_to_node s device path fsname = Some (r, s') ->
  vfs_next_handle s' = vfs_next_handle s.
Proof.
  unfold vfs_mount. intros H. run_cases H; injection H as <- <-; reflexivity.
Qed.

Abbreviation exec :=
  (vfs_exec vfs_fslist FS_NAME_SIZE vfs_path_to_node VFS_INVALID_HANDLE
     refcount_modulus stray VFS_MAX_PATH_LEN DESC_PATH_LEN after_kmfree).
Abbreviation run :=
  (vfs_run vfs_fslist FS_NAME_SIZE vfs_path_to_node VFS_INVALID_HANDLE
     refcount_modulus stray VFS_MAX_PATH_LEN DESC_PATH_LEN after_kmfree).
Abbreviation opened := (opened_handles VFS_INVALID_HANDLE).

(** One call either leaves the counter alone and contributes no handle, or
    is an open that returns the counter and increments it. *)
Lemma vfs_exec_counter s op r s' :
  exec s op = Some (r, s') ->
  (vfs_next_handle s' = vfs_next_handle s
   /\ forall ops rets, opened (op :: ops) (r :: rets) = opened ops rets)
  \/ (r = to_int64 (vfs_next_handle s)
      /\ vfs_next_handle s' = add64 (vfs_next_handle s) 1
      /\ forall ops rets,
           opened (op :: ops) (r :: rets)
           = if decide (r = VFS_INVALID_HANDLE) then opened ops rets
             else r :: opened ops rets).
Proof.
  destruct op as [path mode | h | h len buff | h len buff | h pos whence | path
                 | device path fsname]; simpl; intros H.
  - apply vfs_open_counter in H as [[-> H] | [H1 H2]].
    + left. split; [exact H |]. intros ops rets.
      rewrite decide_True by reflexivity. reflexivity.
    + right. split; [exact H1 |]. split; [exact H2 |]. reflexivity.
  - left. split; [eapply vfs_close_counter; eassumption | reflexivity].
  - destruct (vfs_read vfs_fslist s h len buff) as [[[r0 b] s0] |] eqn:Hr;
      simpl in H; [| discriminate].
    injection H as <- <-.
    left. split; [eapply vfs_read_counter; eassumption | reflexivity].
  - left. split; [eapply vfs_write_counter; eassumption | reflexivity].
  - left. split; [eapply vfs_seek_counter; eassumption | reflexivity].
  - left. split; [eapply vfs_unlink_counter; eassumption | reflexivity].
  - left. split; [eapply vfs_mount_counter; eassumption | reflexivity].
Qed.

Lemma vfs_run_handles ops : forall s rets s',
  run s ops = Some (rets, s') ->
  0 <= vfs_next_handle s ->
  vfs_next_handle s + Z.of_nat (length ops) < half_modulus ->
  vfs_next_handle s <= vfs_next_handle s'
  /\ vfs_next_handle s' <= vfs_next_handle s + Z.of_nat (length ops)
  /\ Forall (fun h => vfs_next_handle s <= h < vfs_next_handle s') (opened ops rets)
  /\ StronglySorted Z.lt (opened ops rets).
Proof.
  induction ops as [| op ops IH]; intros s rets s' Hrun Hlo Hhi.
  - simpl in Hrun. injection Hrun as <- <-. simpl.
    repeat split; try lia; constructor.
  - simpl in Hrun.
    destruct (exec s op) as [[r s1] |] eqn:Hexec; simpl in Hrun; [| discriminate].
    destruct (run s1 ops) as [[rs s2] |] eqn:Hrest; simpl in Hrun; [| discriminate].
    injection Hrun as <- <-.
    simpl length in *. rewrite Nat2Z.inj_succ in *.
    apply vfs_exec_counter in Hexec as [[Hsame Hop] | (Hr & Hnext & Hop)]; rewrite Hop.
    + destruct (IH s1 rs s2 Hrest) as (H1 & H2 & H3 & H4); [lia | lia |].
      rewrite Hsame in *. repeat split; try lia; assumption.
    + assert (Hn1 : vfs_next_handle s1 = vfs_next_handle s + 1).
      { rewrite Hnext. unfold add64. apply wrap64_small.
        unfold is_size_t, half_modulus, modulus in *. lia. }
      assert (Hr1 : r = vfs_next_handle s).
      { rewrite Hr. apply to_int64_small. unfold half_modulus in *. lia. }
      destruct (IH s1 rs s2 Hrest) as (H1 & H2 & H3 & H4); [lia | lia |].
      rewrite Hn1 in *.
      assert (H3' : Forall (fun h => vfs_next_handle s <= h < vfs_next_handle s2)
                      (opened ops rs)).
      { eapply Forall_impl; [exact H3 |]. simpl. intros h Hh. lia. }
      destruct (decide (r = VFS_INVALID_HANDLE)).
      * repeat split; try lia; assumption.
      * repeat split; try lia.
        -- constructor; [lia | exact H3'].
        -- constructor; [exact H4 |].
           eapply Forall_impl; [exact H3 |]. simpl. intros h Hh. lia.
Qed.

Lemma sorted_handles_distinct l : StronglySorted Z.lt l -> NoDup l.
Proof.
  induction 1 as [| x l Hs IH Hx]; [constructor |].
  apply NoDup_cons. split; [| exact IH].
  intros Hin. rewrite Forall_forall in Hx.
  specialize (Hx x Hin). lia.
Qed.

(** C7.  In every run of calls from a state whose counter is at least
    [VFS_MIN_HANDLE] (its initial value) and does not reach [2^63] during
    the run, the handles returned by the successful opens are strictly
    increasing, pairwise distinct and at least [VFS_MIN_HANDLE], and the
    counter never decreases: each call leaves it alone or adds one. *)
Theorem vfs_open_handles_increase s ops rets s' :
  run s ops = Some (rets, s') ->
  0 <= vfs_next_handle s ->
  VFS_MIN_HANDLE <= vfs_next_handle s ->
  vfs_next_handle s + Z.of_nat (length ops) < half_modulus ->
  StronglySorted Z.lt (opened ops rets)
  /\ NoDup (opened ops rets)
  /\ Forall (fun h => VFS_MIN_HANDLE <= h) (opened ops rets)
  /\ vfs_next_handle s <= vfs_next_handle s'
  /\ VFS_MIN_HANDLE <= vfs_next_handle s'.
Proof.
  intros Hrun H0 Hmin Hhi.
  destruct (vfs_run_handles ops s rets s' Hrun H0 Hhi) as (H1 & H2 & H3 & H4).
  split; [exact H4 |]. split; [apply sorted_handles_distinct; exact H4 |].
  split; [| lia].
  eapply Forall_impl; [exact H3 |]. simpl. intros h Hh. lia.
Qed.

End HandleFacts.

(** Three opens, the second of which fails, with other calls between. *)
Lemma vfs_open_handles_increase_witness :
  exists rets s',
    vfs_run Ex.fslist 16 Ex.resolve (-1) (2 ^ 32) "x"%char 64 64 Ex.kept_block
      (Ex.tree 0 100 0 VFS_MODE_READ) Ex.two_opens = Some (rets, s')
    /\ opened_handles (-1) Ex.two_opens rets = [101; 102]
    /\ StronglySorted Z.lt (opened_handles (-1) Ex.two_opens rets).
Proof.
  eexists _, _. split; [vm_compute; reflexivity |].
  split; [vm_compute; reflexivity |].
  refine (proj1 (vfs_open_handles_increase Ex.fslist 16 Ex.resolve (-1) (2 ^ 32)
                   "x"%char 64 64 Ex.kept_block 100 (Ex.tree 0 100 0 VFS_MODE_READ)
                   Ex.two_opens _ _
                   _ _ _ _)).
  - vm_compute. reflexivity.
  - simpl. lia.
  - simpl. lia.
  - unfold half_modulus. simpl. lia.
Defined.

(** ** Reference counts: [vfs_open] and [vfs_close] *)

Lemma refs_insert_fresh (tbl : gmap Z vfs_node_desc_t) k d p :
  tbl !! k = None ->
  refs (<[k := d]> tbl) p
  = (refs tbl p + if decide (d_inode d = p) then 1 else 0)%nat.
Proof.
  intros Hk. unfold refs. rewrite map_filter_insert. simpl.
  destruct (decide (d_inode d = p)) as [Heq | Hne].
  - rewrite map_size_insert_None; [lia |].
    apply map_lookup_filter_None. left. exact Hk.
  - rewrite delete_id by exact Hk. lia.
Qed.

Lemma refs_delete (tbl : gmap Z vfs_node_desc_t) k d p :
  tbl !! k = Some d ->
  refs tbl p
  = (refs (delete k tbl) p + if decide (d_inode d = p) then 1 else 0)%nat.
Proof.
  intros Hk. unfold refs. rewrite map_filter_delete.
  destruct (decide (d_inode d = p)) as [Heq | Hne].
  - assert (Hin : filter (fun kv : Z * vfs_node_desc_t => d_inode kv.2 = p) tbl !! k = Some d).
    { apply map_lookup_filter_Some. split; [exact Hk | exact Heq]. }
    rewrite map_size_delete, Hin.
    assert (size (filter (fun kv : Z * vfs_node_desc_t => d_inode kv.2 = p) tbl) <> 0)%nat.
    { intros H0. apply map_size_empty_inv in H0. rewrite H0 in Hin.
      rewrite lookup_empty in Hin. discriminate. }
    lia.
  - rewrite delete_id; [lia |].
    apply map_lookup_filter_None. right. intros x Hx. simpl.
    rewrite Hk in Hx. injection Hx as <-. exact Hne.
Qed.

Lemma refcounts_kept_refl h : refcounts_kept h h.
Proof.
  split.
  - intros p i Hi. exists i. auto.
  - intros p i' Hn Hs. congruence.
Qed.

Section RefcountFacts.

Variable vfs_fslist : list vfs_fsinfo_t.
Variable vfs_path_to_node : vfs_heap -> string -> option ptr.
Variable VFS_INVALID_HANDLE : Z.
Variable refcount_modulus : Z.
Variable stray : ascii.
Variable VFS_MAX_PATH_LEN : nat.
Variable DESC_PATH_LEN : nat.
Variable after_kmfree : vfs_node_desc_t -> option vfs_node_desc_t.

Abbreviation vfs_open :=
  (vfs_open vfs_fslist vfs_path_to_node VFS_INVALID_HANDLE refcount_modulus stray
     VFS_MAX_PATH_LEN DESC_PATH_LEN).
Abbreviation vfs_close := (vfs_close vfs_fslist refcount_modulus after_kmfree).

Hypothesis open_contract : open_keeps_refcounts vfs_fslist.

(** What [open_finish] does to a state. *)
Lemma open_finish_effect s req path mode fh s1 :
  open_finish refcount_modulus DESC_PATH_LEN s req path mode = Some (fh, s1) ->
  exists rtn rino,
    tnodes (heap s) !! req = Some rtn
    /\ inodes (heap s) !! t_inode rtn = Some rino
    /\ fh = to_int64 (vfs_next_handle s)
    /\ vfs_openfiles s1
       = <[fh := {| d_path := path; d_tnode := req; d_inode := t_inode rtn;
                    d_seek_pos := 0; d_mode := mode |}]> (vfs_openfiles s)
    /\ heap s1
       = set_tnode
           (set_inode (heap s) (t_inode rtn)
              (with_refcount rino ((i_refcount rino + 1) mod refcount_modulus)))
           req (with_st_size rtn (i_size rino))
    /\ calls s1 = calls s.
Proof.
  unfold open_finish. intros H.
  destruct (tnodes (heap s) !! req) as [rtn |] eqn:Htn; simpl in H; [| discriminate].
  destruct (inodes (heap s) !! t_inode rtn) as [rino |] eqn:Hino; simpl in H;
    [| discriminate].
  destruct (strcpy_in _ _ _); simpl in H; [| discriminate].
  injection H as <- <-. exists rtn, rino. simpl. repeat split; try reflexivity.
  exact Hino.
Qed.

Lemma provider_open_effect s fsid inode path r s0 :
  provider_open vfs_fslist s fsid inode path = Some (r, s0) ->
  refcounts_kept (heap s) (heap s0)
  /\ vfs_openfiles s0 = vfs_openfiles s
  /\ vfs_next_handle s0 = vfs_next_handle s.
Proof.
  unfold provider_open, the_fs. intros H.
  destruct (vfs_fslist !! fsid) as [fs |] eqn:Hfs; simpl in H; [| discriminate].
  pose proof (open_contract fsid fs (heap s) inode path Hfs) as Hk.
  destruct (fs_open fs (heap s) inode path) as [req h1]. simpl in Hk.
  injection H as <- <-. simpl. repeat split; apply Hk.
Qed.

(** An open either fails, leaving the descriptors alone, or goes through
    [open_finish] from a state that differs from the first only by what
    the provider's [open] did to the heap. *)
Lemma vfs_open_shape s path mode fh s1 :
  vfs_open s path mode = Some (fh, s1) ->
  exists s0,
    refcounts_kept (heap s) (heap s0)
    /\ vfs_openfiles s0 = vfs_openfiles s
    /\ vfs_next_handle s0 = vfs_next_handle s
    /\ ((fh = VFS_INVALID_HANDLE /\ s1 = s0)
        \/ exists req, open_finish refcount_modulus DESC_PATH_LEN s0 req path mode = Some (fh, s1)).
Proof.
  unfold vfs_open. intros H.
  destruct (vfs_path_to_node (heap s) path) as [req |].
  - destruct (tnodes (heap s) !! req) as [rtn |]; simpl in H; [| discriminate].
    destruct (inodes (heap s) !! t_inode rtn) as [rino |]; simpl in H; [| discriminate].
    destruct (i_fs rino) as [fsid |].
    + destruct (provider_open vfs_fslist s fsid (t_inode rtn) path) as [[r s0] |] eqn:Hp;
        simpl in H; [| discriminate].
      destruct r as [req1 |]; simpl in H; [| discriminate].
      apply provider_open_effect in Hp as (Hk & Ht & Hn).
      exists s0. split; [exact Hk |]. split; [exact Ht |]. split; [exact Hn |].
      right. eauto.
    + exists s. split; [apply refcounts_kept_refl |].
      split; [reflexivity |]. split; [reflexivity |]. right. eauto.
  - destruct (strcpy_in _ _ _) as [curpath |]; cbn [mbind option_bind] in H;
      [| discriminate].
    destruct (ancestor_walk _ _ _ _ _ _ _) as [[pn parent] |]; simpl in H; [| discriminate].
    assert (Hfail : forall s0, refcounts_kept (heap s) (heap s0) ->
                      vfs_openfiles s0 = vfs_openfiles s ->
                      vfs_next_handle s0 = vfs_next_handle s ->
                      Some (VFS_INVALID_HANDLE, s0) = Some (fh, s1) ->
                      exists s0,
                        refcounts_kept (heap s) (heap s0)
                        /\ vfs_openfiles s0 = vfs_openfiles s
                        /\ vfs_next_handle s0 = vfs_next_handle s
                        /\ ((fh = VFS_INVALID_HANDLE /\ s1 = s0)
                            \/ exists req, open_finish refcount_modulus DESC_PATH_LEN s0 req path mode
                                           = Some (fh, s1))).
    { intros s0 Hk Ht Hn [= <- <-]. exists s0.
      split; [exact Hk |]. split; [exact Ht |]. split; [exact Hn |].
      left. split; reflexivity. }
    destruct pn as [pn |]; [| apply (Hfail s); auto using refcounts_kept_refl].
    destruct (tnodes (heap s) !! pn) as [ptn |]; simpl in H; [| discriminate].
    destruct (inodes (heap s) !! t_inode ptn) as [pino |]; simpl in H; [| discriminate].
    destruct (i_fs pino) as [fsid |]; [| apply (Hfail s); auto using refcounts_kept_refl].
    destruct (provider_open vfs_fslist s fsid (t_inode ptn) path) as [[r s0] |] eqn:Hp;
      simpl in H; [| discriminate].
    apply provider_open_effect in Hp as (Hk & Ht & Hn).
    destruct r as [req1 |]; [| apply (Hfail s0); assumption].
    exists s0. split; [exact Hk |]. split; [exact Ht |]. split; [exact Hn |].
    right. eauto.
Qed.

(** What a [vfs_close] that returns has done to a state in which the
    handle was open, whatever the reads of the freed descriptor found. *)
Lemma vfs_close_effect s handle fd ino r s2 :
  vfs_openfiles s !! handle = Some fd ->
  inodes (heap s) !! d_inode fd = Some ino ->
  vfs_close s handle = Some (r, s2) ->
  r = 0
  /\ vfs_openfiles s2 = delete handle (vfs_openfiles s)
  /\ exists fd1,
       after_kmfree fd = Some fd1
       /\ ((heap s2 = set_inode (heap s) (d_inode fd)
                        (with_refcount ino ((i_refcount ino - 1) mod refcount_modulus))
            /\ calls s2 = calls s)
           \/ exists fsid fs rmnode,
                vfs_fslist !! fsid = Some fs
                /\ fs_rmnode fs = Some rmnode
                /\ (d_inode fd1 = d_inode fd ->
                    (i_refcount ino - 1) mod refcount_modulus = 0)
                /\ heap s2
                   = rmnode (set_inode (heap s) (d_inode fd)
                               (with_refcount ino
                                  ((i_refcount ino - 1) mod refcount_modulus)))
                       (d_tnode fd1)
                /\ calls s2 = calls s ++ [CallRmnode fsid (d_tnode fd1)]).
Proof.
  intros Hfd Hino. unfold vfs_close, vfs_handle_to_fd.
  rewrite Hfd, Hino. simpl. intros H.
  destruct (after_kmfree fd) as [fd1 |]; simpl in H; [| discriminate].
  assert (Hplain : forall s',
             Some (0, s') = Some (r, s2) ->
             vfs_openfiles s' = delete handle (vfs_openfiles s) ->
             heap s' = set_inode (heap s) (d_inode fd)
                         (with_refcount ino ((i_refcount ino - 1) mod refcount_modulus)) ->
             calls s' = calls s ->
             r = 0
             /\ vfs_openfiles s2 = delete handle (vfs_openfiles s)
             /\ exists fd1',
                  Some fd1 = Some fd1'
                  /\ ((heap s2 = set_inode (heap s) (d_inode fd)
                                   (with_refcount ino
                                      ((i_refcount ino - 1) mod refcount_modulus))
                       /\ calls s2 = calls s)
                      \/ exists fsid fs rmnode,
                           vfs_fslist !! fsid = Some fs
                           /\ fs_rmnode fs = Some rmnode
                           /\ (d_inode fd1' = d_inode fd ->
                               (i_refcount ino - 1) mod refcount_modulus = 0)
                           /\ heap s2
                              = rmnode (set_inode (heap s) (d_inode fd)
                                          (with_refcount ino
                                             ((i_refcount ino - 1) mod refcount_modulus)))
                                  (d_tnode fd1')
                           /\ calls s2 = calls s ++ [CallRmnode fsid (d_tnode fd1')])).
  { intros s' [= <- <-] Ht Hh Hc. split; [reflexivity |]. split; [exact Ht |].
    exists fd1. split; [reflexivity |]. left. split; assumption. }
  match type of H with
  | context [mbind _ ?m] => destruct m as [ino2 |] eqn:Hino2
  end; simpl in H; [| discriminate].
  destruct (decide (i_refcount ino2 = 0)) as [H0 | Hn];
    [| apply (Hplain _ H); reflexivity].
  match type of H with
  | context [mbind _ ?m] => destruct m as [tn |]
  end; simpl in H; [| discriminate].
  destruct (decide (st_nlink (t_st tn) = 0%N)); [| apply (Hplain _ H); reflexivity].
  destruct (i_fs ino2) as [fsid |]; simpl in H; [| discriminate].
  unfold the_fs in H.
  destruct (vfs_fslist !! fsid) as [fs |] eqn:Hfs; simpl in H; [| discriminate].
  destruct (fs_rmnode fs) as [rmnode |] eqn:Hrm; [| apply (Hplain _ H); reflexivity].
  injection H as <- <-. split; [reflexivity |]. split; [reflexivity |].
  exists fd1. split; [reflexivity |]. right. exists fsid, fs, rmnode.
  split; [exact Hfs |]. split; [exact Hrm |]. split; [| split; reflexivity].
  intros Hsame. rewrite Hsame, lookup_insert_eq in Hino2.
  injection Hino2 as <-. exact H0.
Qed.

Lemma refs_positive (tbl : gmap Z vfs_node_desc_t) k d :
  tbl !! k = Some d -> (1 <= refs tbl (d_inode d))%nat.
Proof.
  intros Hk. rewrite (refs_delete tbl k d (d_inode d) Hk).
  rewrite decide_True by reflexivity. lia.
Qed.

Lemma refs_none (tbl : gmap Z vfs_node_desc_t) p :
  (forall k d, tbl !! k = Some d -> d_inode d <> p) -> refs tbl p = 0%nat.
Proof.
  intros Hno. unfold refs.
  replace (filter (fun kv : Z * vfs_node_desc_t => d_inode kv.2 = p) tbl)
    with (∅ : gmap Z vfs_node_desc_t); [apply map_size_empty |].
  symmetry. apply map_empty. intros k.
  apply map_lookup_filter_None. right. intros d Hd. simpl. eauto.
Qed.

(** The provider's [open] keeps the counts exact. *)
Lemma kept_exact s s0 :
  refcounts_exact s ->
  refcounts_kept (heap s) (heap s0) ->
  vfs_openfiles s0 = vfs_openfiles s ->
  refcounts_exact s0.
Proof.
  intros [Hex Hlive] [Hold Hnew] Ht. split.
  - intros p ino' Hp. rewrite Ht.
    destruct (inodes (heap s) !! p) as [ino |] eqn:Hs.
    + destruct (Hold p ino Hs) as (i' & Hi' & Hrc).
      rewrite Hp in Hi'. injection Hi' as <-. rewrite Hrc. apply Hex. exact Hs.
    + rewrite (Hnew p ino' Hs Hp). rewrite refs_none; [reflexivity |].
      intros k d Hd Heq. destruct (Hlive k d Hd) as [x Hx].
      rewrite Heq in Hx. congruence.
  - intros k d Hd. rewrite Ht in Hd.
    destruct (Hlive k d Hd) as [ino Hino].
    destruct (Hold _ _ Hino) as (i' & Hi' & _). eauto.
Qed.

Lemma open_keeps_exact s path mode fh s1 :
  refcounts_exact s ->
  vfs_openfiles s !! to_int64 (vfs_next_handle s) = None ->
  (forall p, Z.of_nat (refs (vfs_openfiles s) p) + 1 < refcount_modulus) ->
  vfs_open s path mode = Some (fh, s1) ->
  refcounts_exact s1.
Proof.
  intros Hex Hfresh Hroom Hopen.
  apply vfs_open_shape in Hopen as (s0 & Hk & Ht & Hn & [[_ ->] | [req Hfin]]).
  - eapply kept_exact; eassumption.
  - pose proof (kept_exact s s0 Hex Hk Ht) as [Hex0 Hlive0].
    apply open_finish_effect in Hfin as (rtn & rino & Htn & Hino & Hfh & Htbl & Hheap & _).
    rewrite Hn in Hfh. rewrite Ht in Htbl.
    assert (Hfr : vfs_openfiles s !! fh = None) by (rewrite Hfh; exact Hfresh).
    split.
    + intros p ino Hp. rewrite Htbl. rewrite refs_insert_fresh by exact Hfr. simpl.
      rewrite Hheap in Hp. simpl in Hp.
      destruct (decide (t_inode rtn = p)) as [<- | Hne].
      * rewrite lookup_insert_eq in Hp. injection Hp as <-. simpl.
        rewrite (Hex0 _ _ Hino), Ht.
        specialize (Hroom (t_inode rtn)).
        rewrite Z.mod_small by lia. lia.
      * rewrite lookup_insert_ne in Hp by exact Hne.
        rewrite (Hex0 _ _ Hp), Ht. lia.
    + intros k d Hd. rewrite Htbl in Hd. rewrite Hheap. simpl.
      destruct (decide (fh = k)) as [<- | Hne].
      * rewrite lookup_insert_eq in Hd. injection Hd as <-. simpl.
        rewrite lookup_insert_eq. eauto.
      * rewrite lookup_insert_ne in Hd by exact Hne.
        rewrite <- Ht in Hd. destruct (Hlive0 k d Hd) as [x Hx].
        destruct (decide (t_inode rtn = d_inode d)) as [<- | Hne'].
        -- rewrite lookup_insert_eq. eauto.
        -- rewrite lookup_insert_ne by exact Hne'. eauto.
Qed.

Lemma close_keeps_exact s handle r s' :
  refcounts_exact s ->
  rmnode_frees_unreferenced vfs_fslist ->
  (forall p, Z.of_nat (refs (vfs_openfiles s) p) < refcount_modulus) ->
  vfs_close s handle = Some (r, s') ->
  refcounts_exact s'.
Proof.
  intros Hex Hrm Hroom Hclose.
  destruct (vfs_openfiles s !! handle) as [fd |] eqn:Hfd.
  2:{ unfold vfs_close, vfs_handle_to_fd in Hclose. rewrite Hfd in Hclose.
      injection Hclose as <- <-. exact Hex. }
  destruct Hex as [Hex Hlive].
  destruct (Hlive handle fd Hfd) as [ino Hino].
  destruct (vfs_close_effect s handle fd ino r s' Hfd Hino Hclose)
    as (_ & Htbl & fd1 & _ & Hheap).
  pose proof (refs_delete _ handle fd (d_inode fd) Hfd) as Hone.
  rewrite decide_True in Hone by reflexivity.
  pose proof (Hex _ _ Hino) as Hrc.
  assert (Hdec : (i_refcount ino - 1) mod refcount_modulus
                 = Z.of_nat (refs (delete handle (vfs_openfiles s)) (d_inode fd))).
  { specialize (Hroom (d_inode fd)). rewrite Z.mod_small by lia. lia. }
  (* the state after the decrement and the release of the descriptor *)
  assert (Hmid : forall p ino',
             inodes (set_inode (heap s) (d_inode fd)
                       (with_refcount ino ((i_refcount ino - 1) mod refcount_modulus)))
               !! p = Some ino' ->
             i_refcount ino' = Z.of_nat (refs (delete handle (vfs_openfiles s)) p)).
  { intros p ino' Hp. simpl in Hp.
    destruct (decide (d_inode fd = p)) as [<- | Hne].
    - rewrite lookup_insert_eq in Hp. injection Hp as <-. simpl. exact Hdec.
    - rewrite lookup_insert_ne in Hp by exact Hne.
      rewrite (Hex _ _ Hp). rewrite (refs_delete _ handle fd p Hfd).
      rewrite decide_False by exact Hne. lia. }
  assert (Hmidlive : forall k d,
             delete handle (vfs_openfiles s) !! k = Some d ->
             is_Some (inodes (set_inode (heap s) (d_inode fd)
                                (with_refcount ino
                                   ((i_refcount ino - 1) mod refcount_modulus)))
                        !! d_inode d)).
  { intros k d Hd. apply lookup_delete_Some in Hd as [_ Hd].
    destruct (Hlive k d Hd) as [x Hx]. simpl.
    destruct (decide (d_inode fd = d_inode d)) as [<- | Hne].
    - rewrite lookup_insert_eq. eauto.
    - rewrite lookup_insert_ne by exact Hne. eauto. }
  destruct Hheap as [[Hh _] | (fsid & fs & rmnode & Hin & Hrmn & _ & Hh & _)].
  - split.
    + intros p ino' Hp. rewrite Htbl. rewrite Hh in Hp. apply Hmid. exact Hp.
    + intros k d Hd. rewrite Htbl in Hd. rewrite Hh. apply Hmidlive with k. exact Hd.
  - destruct (Hrm fsid fs rmnode
                (set_inode (heap s) (d_inode fd)
                   (with_refcount ino ((i_refcount ino - 1) mod refcount_modulus)))
                (d_tnode fd1) Hin Hrmn) as [Hsame Hkeep].
    split.
    + intros p ino' Hp. rewrite Htbl. rewrite Hh in Hp.
      destruct (Hsame p ino' Hp) as (i & Hi & Hrc'). rewrite Hrc'.
      apply Hmid. exact Hi.
    + intros k d Hd. rewrite Htbl in Hd. rewrite Hh.
      destruct (Hmidlive k d Hd) as [x Hx].
      apply (Hkeep _ x Hx). rewrite (Hmid _ _ Hx).
      pose proof (refs_positive _ k d Hd). lia.
Qed.

Lemma refcount_round_trip r :
  0 <= r < refcount_modulus ->
  ((r + 1) mod refcount_modulus - 1) mod refcount_modulus = r.
Proof.
  intros Hr. rewrite Zminus_mod_idemp_l.
  replace (r + 1 - 1) with r by lia. apply Z.mod_small. exact Hr.
Qed.

(** The count the provider's [open] leaves in an inode is the one the
    inode had before the call, 0 for an inode the provider created. *)
Lemma kept_refcount_before h h0 p ino0 :
  refcounts_kept h h0 -> inodes h0 !! p = Some ino0 ->
  i_refcount ino0 = refcount_before h p.
Proof.
  intros [Hold Hnew] Hp. unfold refcount_before, inode_refcount.
  destruct (inodes h !! p) as [ino |] eqn:Hs; simpl.
  - destruct (Hold p ino Hs) as (i' & Hi' & Hrc). congruence.
  - eapply Hnew; eassumption.
Qed.


End RefcountFacts.

(** The example providers and the example tree meet the assumptions. *)
Lemma fslist_open_keeps : open_keeps_refcounts Ex.fslist.
Proof.
  intros fsid fs h p path Hfs.
  destruct fsid as [| [| fsid]]; simpl in Hfs; [| | discriminate];
    injection Hfs as <-; apply refcounts_kept_refl.
Qed.

Lemma tree_typed : refcounts_typed (2 ^ 32) (heap (Ex.tree 0 100 0 VFS_MODE_READ)).
Proof.
  change (map_Forall (fun (_ : positive) ino => 0 <= i_refcount ino < 2 ^ 32)
            (inodes (heap (Ex.tree 0 100 0 VFS_MODE_READ)))).
  apply (bool_decide_unpack _). vm_compute. exact I.
Qed.

Lemma tree_exact : refcounts_exact (Ex.tree 0 100 0 VFS_MODE_READ).
Proof.
  split.
  - change (map_Forall (fun (p : positive) ino =>
              i_refcount ino = Z.of_nat (refs (vfs_openfiles (Ex.tree 0 100 0 VFS_MODE_READ)) p))
            (inodes (heap (Ex.tree 0 100 0 VFS_MODE_READ)))).
    apply (bool_decide_unpack _). vm_compute. exact I.
  - change (map_Forall (fun (_ : Z) d =>
              is_Some (inodes (heap (Ex.tree 0 100 0 VFS_MODE_READ)) !! d_inode d))
            (vfs_openfiles (Ex.tree 0 100 0 VFS_MODE_READ))).
    apply (bool_decide_unpack _). vm_compute. exact I.
Qed.

Lemma fslist_rmnode_frees_unreferenced : rmnode_frees_unreferenced Ex.fslist.
Proof.
  intros fsid fs rmnode h t Hfs Hrm.
  destruct fsid as [| [| fsid]]; simpl in Hfs; [| | discriminate];
    injection Hfs as <-; simpl in Hrm; [| discriminate].
  injection Hrm as <-. unfold Ex.ram_rmnode.
  destruct (tnodes h !! t) as [tn |]; [| split; eauto].
  destruct (inodes h !! t_inode tn) as [ino |] eqn:Hino; [| split; simpl; eauto].
  destruct (decide (i_refcount ino = 0)) as [H0 | Hn]; [| split; simpl; eauto].
  split; simpl.
  - intros p i' Hp. apply lookup_delete_Some in Hp as [_ Hp]. eauto.
  - intros p i Hp Hrc. destruct (decide (t_inode tn = p)) as [<- | Hne].
    + congruence.
    + rewrite lookup_delete_ne by exact Hne. eauto.
Qed.

Lemma refs_le_size (tbl : gmap Z vfs_node_desc_t) p : (refs tbl p <= size tbl)%nat.
Proof. unfold refs. apply map_subseteq_size, map_filter_subseteq. Qed.



(** * Further properties *)

(** ** A closed handle is gone *)

Lemma vfs_close_table vfs_fslist refcount_modulus after_kmfree s handle r s2 :
  vfs_close vfs_fslist refcount_modulus after_kmfree s handle = Some (r, s2) ->
  vfs_openfiles s2 = delete handle (vfs_openfiles s)
  /\ ((r = 0 /\ is_Some (vfs_openfiles s !! handle)) \/ (r = -1 /\ s2 = s)).
Proof.
  unfold vfs_close, vfs_handle_to_fd. intros H.
  destruct (vfs_openfiles s !! handle) as [fd |] eqn:Hfd.
  - run_cases H; injection H as <- <-; (split; [reflexivity | left; eauto]).
  - injection H as <- <-. split; [| right; split; reflexivity].
    symmetry. apply delete_id. exact Hfd.
Qed.

(** X1.  Whenever [vfs_close] returns (it reads the descriptor after
    [kmfree]), the handle is unknown to every later call: a second
    [vfs_close] returns -1, [vfs_read] and [vfs_write] return 0,
    [vfs_seek] returns -1 and [vfs_tell] returns 0, all without touching
    the state; in particular the reference count is not decremented
    twice.  The result is 0 when the handle was open, and -1 with the
    state unchanged otherwise. *)
Theorem vfs_close_retires_handle vfs_fslist refcount_modulus after_kmfree s handle r s2 :
  vfs_close vfs_fslist refcount_modulus after_kmfree s handle = Some (r, s2) ->
  vfs_handle_to_fd s2 handle = None
  /\ ((r = 0 /\ is_Some (vfs_handle_to_fd s handle)) \/ (r = -1 /\ s2 = s))
  /\ vfs_close vfs_fslist refcount_modulus after_kmfree s2 handle = Some (-1, s2)
  /\ (forall len buff, vfs_read vfs_fslist s2 handle len buff = Some (0, buff, s2))
  /\ (forall len buff, vfs_write vfs_fslist s2 handle len buff = Some (0, s2))
  /\ (forall pos whence, vfs_seek s2 handle pos whence = Some (-1, s2))
  /\ vfs_tell s2 handle = Some 0.
Proof.
  intros Hclose. apply vfs_close_table in Hclose as [Htbl Hr].
  assert (Hgone : vfs_handle_to_fd s2 handle = None).
  { unfold vfs_handle_to_fd. rewrite Htbl. apply lookup_delete_eq. }
  split; [exact Hgone |]. split; [exact Hr |].
  split; [unfold vfs_close; rewrite Hgone; reflexivity |].
  split; [intros len buff; unfold vfs_read; rewrite Hgone; reflexivity |].
  split; [intros len buff; unfold vfs_write; rewrite Hgone; reflexivity |].
  split; [intros pos whence; unfold vfs_seek; rewrite Hgone; reflexivity |].
  unfold vfs_tell. rewrite Hgone. reflexivity.
Qed.

(** ** [vfs_write] and the seek position *)

Lemma write_expand_table vfs_fslist s nd len s1 :
  write_expand vfs_fslist s nd len = Some s1 ->
  vfs_openfiles s1 = vfs_openfiles s.
Proof.
  unfold write_expand. intros H. run_cases H; injection H as <-; reflexivity.
Qed.

Lemma vfs_write_table vfs_fslist s handle len buff r s' :
  vfs_write vfs_fslist s handle len buff = Some (r, s') ->
  vfs_openfiles s' = vfs_openfiles s.
Proof.
  unfold vfs_write. intros H.
  destruct (vfs_handle_to_fd s handle) as [nd |]; [| injection H as <- <-; reflexivity].
  destruct (decide (d_mode nd = VFS_MODE_READ)); [injection H as <- <-; reflexivity |].
  destruct (write_expand vfs_fslist s nd len) as [s1 |] eqn:Hexp; simpl in H; [| discriminate].
  apply write_expand_table in Hexp.
  run_cases H; injection H as <- <-; exact Hexp.
Qed.

Section WritePosition.

Variable vfs_fslist : list vfs_fsinfo_t.
Variables (s : vfs_state) (handle : Z) (nd : vfs_node_desc_t) (ino : vfs_inode_t).
Variables (fsid : nat) (fs : vfs_fsinfo_t).
Hypothesis handle_open : vfs_handle_to_fd s handle = Some nd.
Hypothesis writable : d_mode nd <> VFS_MODE_READ.
Hypothesis inode_live : inodes (heap s) !! d_inode nd = Some ino.
Hypothesis tnode_live : is_Some (tnodes (heap s) !! d_tnode nd).
Hypothesis inode_fs : i_fs ino = Some fsid.
Hypothesis provider : the_fs vfs_fslist fsid = Some fs.
Hypothesis contract : keeps_sizes fs.

Lemma vfs_write_returns len buff :
  exists r s',
    vfs_write vfs_fslist s handle len buff = Some (r, s')
    /\ exists before,
         calls s' = before ++ [CallWrite fsid (d_inode nd) (d_seek_pos nd) len].
Proof.
  destruct (decide (add64 (d_seek_pos nd) len > i_size ino)) as [Hgrow | Hsame].
  - destruct (write_expand_grown vfs_fslist s nd ino fsid fs inode_live tnode_live
                inode_fs provider contract len Hgrow)
      as (s1 & ino1 & Hexp & Hino1 & _ & Hfs1 & Htn1 & _).
    destruct (vfs_write_after_expand vfs_fslist s handle nd fsid fs handle_open writable
                provider contract len buff s1 ino1 Hexp Hino1 Hfs1 Htn1)
      as (s' & Hw & _ & _ & Hc).
    eauto 6.
  - pose proof (write_expand_same vfs_fslist s nd ino inode_live len Hsame) as Hexp.
    destruct (vfs_write_after_expand vfs_fslist s handle nd fsid fs handle_open writable
                provider contract len buff s ino Hexp inode_live inode_fs tnode_live)
      as (s' & Hw & _ & _ & Hc).
    eauto 6.
Qed.

(** X2.  [vfs_write] never moves the seek position: the descriptor is the
    same after the call as before, whatever the provider answers, and the
    provider's [write] was called at that position.  A second write
    therefore goes to the offset of the first. *)
Theorem vfs_write_keeps_position len buff :
  exists r s' before,
    vfs_write vfs_fslist s handle len buff = Some (r, s')
    /\ vfs_openfiles s' = vfs_openfiles s
    /\ vfs_handle_to_fd s' handle = Some nd
    /\ calls s' = before ++ [CallWrite fsid (d_inode nd) (d_seek_pos nd) len].
Proof.
  destruct (vfs_write_returns len buff) as (r & s' & Hw & before & Hc).
  pose proof (vfs_write_table _ _ _ _ _ _ _ Hw) as Htbl.
  exists r, s', before. split; [exact Hw |]. split; [exact Htbl |].
  split; [| exact Hc].
  unfold vfs_handle_to_fd in *. rewrite Htbl. exact handle_open.
Qed.

End WritePosition.

(** ** [vfs_unlink] of a file that is open *)

Section UnlinkOpenFile.

Variable vfs_fslist : list vfs_fsinfo_t.
Variable vfs_path_to_node : vfs_heap -> string -> option ptr.
Variables (s : vfs_state) (path : string) (handle : Z).
Variables (fd : vfs_node_desc_t) (tn : vfs_tnode_t) (ino : vfs_inode_t).
Hypothesis resolves : vfs_path_to_node (heap s) path = Some (d_tnode fd).
Hypothesis handle_open : vfs_openfiles s !! handle = Some fd.
Hypothesis tnode_live : tnodes (heap s) !! d_tnode fd = Some tn.
Hypothesis same_inode : t_inode tn = d_inode fd.
Hypothesis inode_live : inodes (heap s) !! d_inode fd = Some ino.
Hypothesis linked : st_nlink (t_st tn) = 1%N.
Hypothesis referenced : i_refcount ino <> 0.


End UnlinkOpenFile.

(** X4.  A name cannot be unlinked twice: after a [vfs_unlink] that found
    the file still referenced, a second [vfs_unlink] of a path that still
    resolves to the tree node returns -1 and changes nothing. *)
Theorem vfs_unlink_twice_refused vfs_fslist vfs_path_to_node s path req tn ino :
  vfs_path_to_node (heap s) path = Some req ->
  tnodes (heap s) !! req = Some tn ->
  inodes (heap s) !! t_inode tn = Some ino ->
  st_nlink (t_st tn) = 1%N ->
  i_refcount ino <> 0 ->
  exists s1,
    vfs_unlink vfs_fslist vfs_path_to_node s path = Some (0, s1)
    /\ (vfs_path_to_node (heap s1) path = Some req ->
        vfs_unlink vfs_fslist vfs_path_to_node s1 path = Some (-1, s1)).
Proof.
  intros Hres Htn Hino Hlink Href.
  exists (set_heap s (set_tnode (heap s) req (with_st_nlink tn 0))). split.
  - unfold vfs_unlink. rewrite Hres, Htn. simpl. rewrite Hlink. simpl.
    rewrite Hino. simpl. rewrite decide_False by exact Href. reflexivity.
  - intros Hres1. unfold vfs_unlink. rewrite Hres1. simpl.
    rewrite lookup_insert_eq. reflexivity.
Qed.

(** Closing handle 100 of the example tree, twice, with an allocator that
    leaves freed blocks as they were. *)
Lemma vfs_close_retires_handle_witness :
  exists s2,
    vfs_close Ex.fslist (2 ^ 32) Ex.kept_block (Ex.tree 0 100 0 VFS_MODE_READ) 100
    = Some (0, s2)
    /\ vfs_close Ex.fslist (2 ^ 32) Ex.kept_block s2 100 = Some (-1, s2)
    /\ vfs_tell s2 100 = Some 0.
Proof.
  destruct (vfs_close Ex.fslist (2 ^ 32) Ex.kept_block (Ex.tree 0 100 0 VFS_MODE_READ) 100)
    as [[r s2] |] eqn:Hclose; [| vm_compute in Hclose; discriminate Hclose].
  assert (Hr : r = 0).
  { pose proof Hclose as Heq. vm_compute in Heq. injection Heq as <- _. reflexivity. }
  subst r.
  destruct (vfs_close_retires_handle Ex.fslist (2 ^ 32) Ex.kept_block
              (Ex.tree 0 100 0 VFS_MODE_READ) 100 0 s2 Hclose)
    as (_ & _ & H2 & _ & _ & _ & H3).
  exists s2. split; [reflexivity |]. split; [exact H2 | exact H3].
Defined.

(** A write of 1000 bytes at position 40: the position is still 40. *)
Lemma vfs_write_keeps_position_witness :
  exists r s',
    vfs_write Ex.fslist (Ex.tree 0 100 40 VFS_MODE_READWRITE) 100 1000 [] = Some (r, s')
    /\ vfs_handle_to_fd s' 100 = Some (Ex.opened "/a" 2 12 40 VFS_MODE_READWRITE).
Proof.
  destruct (vfs_write_keeps_position Ex.fslist (Ex.tree 0 100 40 VFS_MODE_READWRITE) 100
              (Ex.opened "/a" 2 12 40 VFS_MODE_READWRITE) (Ex.plain_file 0 100 1)
              0%nat Ex.ramfs eq_refl ltac:(discriminate) eq_refl
              ltac:(eexists; reflexivity) eq_refl eq_refl ramfs_keeps_sizes 1000 [])
    as (r & s' & before & Hw & _ & Hfd & _).
  exists r, s'. split; assumption.
Defined.


(** Unlinking [/a] twice while handle 100 is open on it. *)
Lemma vfs_unlink_twice_refused_witness :
  exists s1,
    vfs_unlink Ex.fslist Ex.resolve (Ex.tree 0 100 0 VFS_MODE_READ) "/a" = Some (0, s1)
    /\ vfs_unlink Ex.fslist Ex.resolve s1 "/a" = Some (-1, s1).
Proof.
  destruct (vfs_unlink_twice_refused Ex.fslist Ex.resolve
              (Ex.tree 0 100 0 VFS_MODE_READ) "/a" 2
              (Ex.named "a" 12 1 100) (Ex.plain_file 0 100 1)
              eq_refl eq_refl eq_refl eq_refl ltac:(simpl; lia))
    as (s1 & H1 & H2).
  exists s1. split; [exact H1 |]. apply H2.
  pose proof H1 as Heq. vm_compute in Heq. injection Heq as <-.
  vm_compute. reflexivity.
Defined.

(** ** A successful [vfs_mount] *)

Section MountDone.

Variable vfs_fslist : list vfs_fsinfo_t.
Variable FS_NAME_SIZE : nat.
Variable vfs_path_to_node : vfs_heap -> string -> option ptr.
Variables (s : vfs_state) (device : option string) (path fsname : string).
Variables (fsid : nat) (fs : vfs_fsinfo_t) (dev : option ptr) (dev_inode : option ptr).
Variables (at_ : ptr) (atn : vfs_tnode_t) (aino : vfs_inode_t).
Variables (root : ptr) (h2 : vfs_heap) (atn2 : vfs_tnode_t) (rino : vfs_inode_t).
Hypothesis fs_found : vfs_get_fs vfs_fslist FS_NAME_SIZE fsname = Some fsid.
Hypothesis fs_here : the_fs vfs_fslist fsid = Some fs.
Hypothesis device_ok : mount_device vfs_path_to_node (heap s) fs device = Some (Some dev).
Hypothesis device_inode :
  match dev with
  | Some d => exists dtn, tnodes (heap s) !! d = Some dtn /\ dev_inode = Some (t_inode dtn)
  | None => dev_inode = None
  end.
Hypothesis resolves : vfs_path_to_node (heap s) path = Some at_.
Hypothesis tnode_live : tnodes (heap s) !! at_ = Some atn.
Hypothesis inode_live : inodes (heap s) !! t_inode atn = Some aino.
Hypothesis is_folder : i_type aino = VFS_NODE_FOLDER.
Hypothesis is_empty : i_child aino = [].
Hypothesis provider_mounts :
  fs_mount fs (free_inode (heap s) (t_inode atn)) dev_inode = (root, h2).
Hypothesis tnode_kept : tnodes h2 !! at_ = Some atn2.
Hypothesis root_live : inodes h2 !! root = Some rino.

Lemma vfs_mount_done :
  vfs_mount vfs_fslist FS_NAME_SIZE vfs_path_to_node s device path fsname
  = Some (0,
          log_call
            (set_heap s
               (set_inode (set_tnode h2 at_ (with_t_inode atn2 root)) root
                  (with_mountpoint rino (Some at_))))
            (CallMount fsid dev_inode)).
Proof.
  unfold vfs_mount. rewrite fs_found, fs_here. simpl. rewrite device_ok. simpl.
  rewrite resolves, tnode_live. simpl. rewrite inode_live. simpl.
  rewrite decide_False by (rewrite is_folder, is_empty; intros [H | H]; congruence).
  destruct dev as [d |].
  - destruct device_inode as (dtn & Hd & Hdi). simpl. rewrite Hd. simpl.
    rewrite <- Hdi, provider_mounts, tnode_kept. simpl.
    rewrite root_live. reflexivity.
  - simpl. rewrite <- device_inode, provider_mounts, tnode_kept. simpl.
    rewrite root_live. reflexivity.
Qed.

(** X5.  When [vfs_mount] succeeds, the tree node at the path names the
    inode the provider returned and that inode's mount point is the tree
    node: following the node to its inode and the inode to its mount point
    leads back to the node.  The provider's [mount] was called once and the
    table of open files is as before. *)
Theorem vfs_mount_links_root :
  exists s',
    vfs_mount vfs_fslist FS_NAME_SIZE vfs_path_to_node s device path fsname = Some (0, s')
    /\ (t_inode <$> tnodes (heap s') !! at_) = Some root
    /\ (inodes (heap s') !! root ≫= i_mountpoint) = Some at_
    /\ calls s' = calls s ++ [CallMount fsid dev_inode]
    /\ vfs_openfiles s' = vfs_openfiles s.
Proof.
  eexists. split; [exact vfs_mount_done |]. simpl.
  rewrite !lookup_insert_eq. repeat split; reflexivity.
Qed.

(** X6.  [vfs_mount] frees the inode of the mount point without looking at
    its reference count: a descriptor that was open on the folder still
    refers to the freed inode afterwards (unless the provider put a new
    inode at that address), so the reference counts are no longer exact
    and [vfs_seek] and [vfs_tell] on that handle dereference a dead
    pointer. *)
Theorem vfs_mount_strands_descriptors handle fd :
  vfs_openfiles s !! handle = Some fd ->
  d_inode fd = t_inode atn ->
  inodes h2 !! t_inode atn = None ->
  exists s',
    vfs_mount vfs_fslist FS_NAME_SIZE vfs_path_to_node s device path fsname = Some (0, s')
    /\ vfs_handle_to_fd s' handle = Some fd
    /\ inodes (heap s') !! d_inode fd = None
    /\ ~ refcounts_exact s'
    /\ (forall pos whence, vfs_seek s' handle pos whence = None)
    /\ vfs_tell s' handle = None.
Proof.
  intros Hfd Hsame Hfree.
  assert (Hne : root <> t_inode atn) by (intros ->; congruence).
  eexists. split; [exact vfs_mount_done |].
  assert (Hdead : inodes
                    (set_inode (set_tnode h2 at_ (with_t_inode atn2 root)) root
                       (with_mountpoint rino (Some at_))) !! d_inode fd = None).
  { simpl. rewrite Hsame. rewrite lookup_insert_ne by exact Hne. exact Hfree. }
  split; [exact Hfd |]. split; [exact Hdead |].
  split.
  - intros [_ Hlive]. destruct (Hlive handle fd Hfd) as [x Hx].
    simpl in Hx, Hdead. rewrite Hdead in Hx. discriminate.
  - split.
    + intros pos whence. unfold vfs_seek, vfs_handle_to_fd. simpl.
      rewrite Hfd. simpl in Hdead. rewrite Hdead. reflexivity.
    + unfold vfs_tell, vfs_handle_to_fd. simpl.
      rewrite Hfd. simpl in Hdead. rewrite Hdead. reflexivity.
Qed.

End MountDone.

(** ** What [vfs_open] leaves behind *)

Section OpenResult.

Variable vfs_fslist : list vfs_fsinfo_t.
Variable vfs_path_to_node : vfs_heap -> string -> option ptr.
Variable VFS_INVALID_HANDLE : Z.
Variable refcount_modulus : Z.
Variable stray : ascii.
Variable VFS_MAX_PATH_LEN : nat.
Variable DESC_PATH_LEN : nat.
Variable after_kmfree : vfs_node_desc_t -> option vfs_node_desc_t.

Abbreviation vfs_open :=
  (vfs_open vfs_fslist vfs_path_to_node VFS_INVALID_HANDLE refcount_modulus stray
     VFS_MAX_PATH_LEN DESC_PATH_LEN).

(** An open that returns went through [open_finish], or returned
    [VFS_INVALID_HANDLE]; the provider's [open] before that leaves the
    table and the counter alone. *)
Lemma vfs_open_ends s path mode fh s1 :
  vfs_open s path mode = Some (fh, s1) ->
  exists s0,
    vfs_openfiles s0 = vfs_openfiles s
    /\ vfs_next_handle s0 = vfs_next_handle s
    /\ ((fh = VFS_INVALID_HANDLE /\ s1 = s0)
        \/ exists req, open_finish refcount_modulus DESC_PATH_LEN s0 req path mode = Some (fh, s1)).
Proof.
  assert (Hprov : forall fsid inode r s0,
             provider_open vfs_fslist s fsid inode path = Some (r, s0) ->
             vfs_openfiles s0 = vfs_openfiles s /\ vfs_next_handle s0 = vfs_next_handle s).
  { unfold provider_open. intros fsid inode r s0 H. run_cases H.
    injection H as <- <-. split; reflexivity. }
  unfold vfs_open. intros H.
  destruct (vfs_path_to_node (heap s) path) as [req |].
  - destruct (tnodes (heap s) !! req) as [rtn |]; simpl in H; [| discriminate].
    destruct (inodes (heap s) !! t_inode rtn) as [rino |]; simpl in H; [| discriminate].
    destruct (i_fs rino) as [fsid |]; [| exists s; eauto 6].
    destruct (provider_open vfs_fslist s fsid (t_inode rtn) path) as [[r s0] |] eqn:Hp;
      simpl in H; [| discriminate].
    apply Hprov in Hp as [Hp1 Hp2].
    destruct r as [req1 |]; simpl in H; [exists s0; eauto 6 | discriminate].
  - destruct (strcpy_in _ _ _) as [curpath |]; cbn [mbind option_bind] in H;
      [| discriminate].
    destruct (ancestor_walk _ _ _ _ _ _ _) as [[pn parent] |]; simpl in H; [| discriminate].
    destruct pn as [pn |]; [| injection H as <- <-; exists s; auto].
    destruct (tnodes (heap s) !! pn) as [ptn |]; simpl in H; [| discriminate].
    destruct (inodes (heap s) !! t_inode ptn) as [pino |]; simpl in H; [| discriminate].
    destruct (i_fs pino) as [fsid |]; [| injection H as <- <-; exists s; auto].
    destruct (provider_open vfs_fslist s fsid (t_inode ptn) path) as [[r s0] |] eqn:Hp;
      simpl in H; [| discriminate].
    apply Hprov in Hp as [Hp1 Hp2].
    destruct r as [req1 |]; [exists s0; eauto 6 | injection H as <- <-; exists s0; auto].
Qed.

(** X7.  The descriptor behind a handle that [vfs_open] has just returned
    carries the path and the mode of the call and the seek position 0,
    whatever the mode (an append mode does not start at the end); its tree
    node names its inode, and the tree node's [st_size] is the size of
    that inode. *)
Theorem vfs_open_fresh_descriptor s path mode fh s1 :
  vfs_open s path mode = Some (fh, s1) ->
  fh <> VFS_INVALID_HANDLE ->
  exists nd tn ino,
    vfs_handle_to_fd s1 fh = Some nd
    /\ d_path nd = path /\ d_mode nd = mode /\ d_seek_pos nd = 0
    /\ tnodes (heap s1) !! d_tnode nd = Some tn
    /\ t_inode tn = d_inode nd
    /\ inodes (heap s1) !! d_inode nd = Some ino
    /\ st_size (t_st tn) = i_size ino.
Proof.
  intros Hopen Hvalid.
  apply vfs_open_ends in Hopen as (s0 & _ & _ & [[Hbad _] | (req & Hfin)]);
    [contradiction |].
  apply open_finish_effect in Hfin as (rtn & rino & Htn & Hino & Hfh & Htbl & Hheap & _).
  exists {| d_path := path; d_tnode := req; d_inode := t_inode rtn;
            d_seek_pos := 0; d_mode := mode |},
    (with_st_size rtn (i_size rino)),
    (with_refcount rino ((i_refcount rino + 1) mod refcount_modulus)).
  unfold vfs_handle_to_fd. rewrite Htbl, Hheap. simpl.
  rewrite !lookup_insert_eq. repeat split; reflexivity.
Qed.

(** *** The walk up the ancestors *)

(** What [vfs_get_parent_dir] leaves in [parent] is a prefix of the path,
    and the result is -1 exactly when that prefix is empty. *)
Lemma parent_dir_prefix path parent currdir :
  Z.of_nat (strlen path) < half_modulus ->
  exists ret parent' currdir',
    vfs_get_parent_dir stray (Some path) (Some parent) currdir
    = Some (ret, Some parent', currdir')
    /\ c_str parent' `prefix_of` c_str path
    /\ (ret = 0 \/ ret = -1)
    /\ (ret = -1 <-> c_str parent' = []).
Proof.
  intros Hfits.
  destruct (trailing_slashes (c_str path)) as (q & k & Hshape & Hq).
  pose proof (parent_dir_root_case stray path parent currdir q k Hshape Hq Hfits) as Hroot.
  pose proof (parent_dir_split_case stray path parent currdir q k Hshape Hq Hfits) as Hsplit.
  pose proof (parent_dir_plain_case stray path parent currdir q k Hshape Hq Hfits) as Hplain.
  destruct (decide (length q <= 1)%nat) as [Hshort | Hlong].
  - destruct (Hroot Hshort) as (parent' & Hrun & Hp).
    exists (-1), parent', currdir. split; [exact Hrun |].
    rewrite Hp. split; [apply prefix_nil |]. split; [right; reflexivity |].
    split; reflexivity.
  - destruct (last_slash q) as [Hsf | (pre & base & Hq' & Hsf)].
    + destruct (Hplain ltac:(lia) Hsf) as (parent' & Hrun & Hp).
      exists 0, parent', currdir. split; [exact Hrun |].
      rewrite Hp, Hshape. split; [apply prefix_app_r; reflexivity |].
      split; [left; reflexivity |].
      split; [discriminate |]. intros ->. simpl in Hlong. lia.
    + destruct (Hsplit pre base ltac:(lia) Hq' Hsf) as (parent' & currdir' & Hrun & Hp & _).
      exists 0, parent', currdir'. split; [exact Hrun |].
      rewrite Hp, Hshape, Hq'.
      split.
      * destruct (decide (pre = [])) as [-> |].
        -- exists (base ++ replicate k SLASH). reflexivity.
        -- exists ((SLASH :: base) ++ replicate k SLASH). rewrite <- app_assoc. reflexivity.
      * split; [left; reflexivity |].
        split; [discriminate |].
        destruct (decide (pre = [])); [discriminate | contradiction].
Qed.

(** X8.  On a path that fits, [vfs_get_parent_dir] returns 0 or -1 and
    leaves in [parent] a prefix of the path; the result is -1 exactly when
    that prefix is the empty string. *)
Theorem vfs_get_parent_dir_gives_prefix path parent currdir :
  Z.of_nat (strlen path) < half_modulus ->
  exists ret parent' currdir',
    vfs_get_parent_dir stray (Some path) (Some parent) currdir
    = Some (ret, Some parent', currdir')
    /\ c_str parent' `prefix_of` c_str path
    /\ (ret = 0 \/ ret = -1)
    /\ (ret = -1 <-> c_str parent' = []).
Proof. exact (parent_dir_prefix path parent currdir). Qed.

(** A node that the walk settles on is what the resolver gives for a
    proper prefix of the path. *)
Lemma ancestor_walk_found fuel : forall h curpath parent pn parent',
  Z.of_nat (strlen curpath) < half_modulus ->
  ancestor_walk vfs_path_to_node stray VFS_MAX_PATH_LEN fuel h curpath parent
  = Some (Some pn, parent') ->
  c_str parent' `prefix_of` c_str curpath
  /\ c_str parent' <> c_str curpath
  /\ vfs_path_to_node h (string_of_list_ascii (c_str parent')) = Some pn.
Proof.
  induction fuel as [| fuel IH]; intros h curpath parent pn parent' Hfits Hwalk;
    [discriminate |].
  destruct (parent_dir_prefix curpath parent None Hfits)
    as (ret & p1 & cd & Hrun & Hpre & _).
  cbn [ancestor_walk] in Hwalk.
  destruct (strcpy_in VFS_MAX_PATH_LEN parent curpath); cbn [mbind option_bind] in Hwalk;
    [| discriminate].
  rewrite Hrun in Hwalk. cbn [mbind option_bind] in Hwalk.
  destruct (decide (c_str curpath = c_str p1)) as [Heq | Hne]; [discriminate |].
  destruct (vfs_path_to_node h (string_of_list_ascii (c_str p1))) as [p |] eqn:Hres.
  - injection Hwalk as <- <-. split; [exact Hpre |]. split; [congruence | exact Hres].
  - assert (Hlen : (strlen p1 <= strlen curpath)%nat).
    { rewrite <- (strlen_c_str p1), <- (strlen_c_str curpath).
      apply prefix_length. exact Hpre. }
    destruct (strcpy_in VFS_MAX_PATH_LEN curpath p1) as [curpath1 |] eqn:Hcopy;
      cbn [mbind option_bind] in Hwalk; [| discriminate].
    apply strcpy_in_Some in Hcopy as [_ ->].
    apply IH in Hwalk as (Hpre' & Hne' & Hres'); [| rewrite strlen_strcpy; lia].
    rewrite strcpy_c_str in Hpre', Hne'.
    split; [etrans; eassumption |]. split; [| exact Hres'].
    intros Heq. apply Hne'.
    apply prefix_length_eq; [exact Hpre' |].
    rewrite Heq. apply prefix_length. exact Hpre.
Qed.

(** The array [curpath] after [strcpy (curpath, path)], for a path that
    fits. *)
Lemma curpath_of_path (path : string) :
  (strlen (list_ascii_of_string path ++ [NUL]) < VFS_MAX_PATH_LEN)%nat ->
  strcpy_in VFS_MAX_PATH_LEN [NUL] (list_ascii_of_string path ++ [NUL])
  = Some (strcpy [NUL] (list_ascii_of_string path ++ [NUL])).
Proof. apply strcpy_in_fits. Qed.

(** X9.  For a path that fits the arrays of [VFS_MAX_PATH_LEN] characters
    (and is shorter than [2^63] characters), the copy into [curpath]
    succeeds and the [while (true)] loop of [vfs_open] ends; a node it
    settles on is what the resolver gives for a proper prefix of the path:
    the buffer [parent] holds that prefix. *)
Theorem vfs_open_walk_settles_on_prefix h (path : string) :
  let chars := list_ascii_of_string path ++ [NUL] in
  (strlen chars < VFS_MAX_PATH_LEN)%nat ->
  Z.of_nat (length (list_ascii_of_string path)) < half_modulus ->
  exists curpath pn parent',
    strcpy_in VFS_MAX_PATH_LEN [NUL] chars = Some curpath
    /\ c_str curpath = c_str chars
    /\ ancestor_walk vfs_path_to_node stray VFS_MAX_PATH_LEN (S (S (strlen curpath))) h
         curpath [NUL]
       = Some (pn, parent')
    /\ forall p, pn = Some p ->
         c_str parent' `prefix_of` c_str chars
         /\ c_str parent' <> c_str chars
         /\ vfs_path_to_node h (string_of_list_ascii (c_str parent')) = Some p.
Proof.
  intros chars Hcap Hfits.
  pose proof (strlen_terminated (list_ascii_of_string path) []) as Hle.
  fold chars in Hle.
  exists (strcpy [NUL] chars).
  destruct (ancestor_walk_total vfs_path_to_node stray VFS_MAX_PATH_LEN
              (S (S (strlen (strcpy [NUL] chars)))) h (strcpy [NUL] chars) [NUL])
    as [[pn parent'] Hwalk];
    [rewrite strlen_strcpy; lia | rewrite strlen_strcpy; lia
    | rewrite strlen_strcpy; lia |].
  exists pn, parent'. split; [apply curpath_of_path; exact Hcap |].
  split; [apply strcpy_c_str |]. split; [exact Hwalk |].
  intros p ->. rewrite <- (strcpy_c_str [NUL] chars).
  eapply ancestor_walk_found; [| exact Hwalk]. rewrite strlen_strcpy. lia.
Qed.


End OpenResult.

(** Mounting the memory provider on the empty folder [/d]. *)
Lemma vfs_mount_links_root_witness :
  exists s',
    vfs_mount Ex.fslist 16 Ex.resolve (Ex.tree 0 100 0 VFS_MODE_READ) None "/d" "ramfs"
    = Some (0, s')
    /\ (t_inode <$> tnodes (heap s') !! 4%positive) = Some 50%positive
    /\ (inodes (heap s') !! 50%positive ≫= i_mountpoint) = Some 4%positive
    /\ calls s' = [CallMount 0 None].
Proof.
  destruct (vfs_mount_links_root Ex.fslist 16 Ex.resolve (Ex.tree 0 100 0 VFS_MODE_READ)
              None "/d" "ramfs" 0%nat Ex.ramfs None None 4 (Ex.named "d" 14 1 0)
              (Ex.folder 0 []) 50
              (set_inode (free_inode (heap (Ex.tree 0 100 0 VFS_MODE_READ)) 14) 50 Ex.ram_root)
              (Ex.named "d" 14 1 0) Ex.ram_root
              eq_refl eq_refl eq_refl eq_refl eq_refl eq_refl eq_refl eq_refl eq_refl
              eq_refl eq_refl eq_refl)
    as (s' & H1 & H2 & H3 & H4 & _).
  exists s'. split; [exact H1 |]. split; [exact H2 |]. split; [exact H3 | exact H4].
Defined.

(** The same mount while handle 102 is open on [/d]. *)
Lemma vfs_mount_strands_descriptors_witness :
  exists s',
    vfs_mount Ex.fslist 16 Ex.resolve Ex2.dirs None "/d" "ramfs" = Some (0, s')
    /\ vfs_handle_to_fd s' 102 = Some (Ex.opened "/d" 4 14 0 VFS_MODE_READ)
    /\ vfs_tell s' 102 = None.
Proof.
  destruct (vfs_mount_strands_descriptors Ex.fslist 16 Ex.resolve Ex2.dirs
              None "/d" "ramfs" 0%nat Ex.ramfs None None 4 (Ex.named "d" 14 1 0)
              (Ex.folder 0 []) 50
              (set_inode (free_inode (heap Ex2.dirs) 14) 50 Ex.ram_root)
              (Ex.named "d" 14 1 0) Ex.ram_root
              eq_refl eq_refl eq_refl eq_refl eq_refl eq_refl eq_refl eq_refl eq_refl
              eq_refl eq_refl eq_refl
              102 (Ex.opened "/d" 4 14 0 VFS_MODE_READ) eq_refl eq_refl eq_refl)
    as (s' & H1 & H2 & _ & _ & _ & H3).
  exists s'. split; [exact H1 |]. split; [exact H2 | exact H3].
Defined.

(** Opening [/b] in the example tree. *)
Lemma vfs_open_fresh_descriptor_witness :
  exists s1 nd,
    vfs_open Ex.fslist Ex.resolve (-1) (2 ^ 32) "x"%char 64 64
      (Ex.tree 0 100 0 VFS_MODE_READ) "/b" VFS_MODE_APPEND = Some (101, s1)
    /\ vfs_handle_to_fd s1 101 = Some nd
    /\ d_mode nd = VFS_MODE_APPEND /\ d_seek_pos nd = 0.
Proof.
  destruct (vfs_open Ex.fslist Ex.resolve (-1) (2 ^ 32) "x"%char 64 64
              (Ex.tree 0 100 0 VFS_MODE_READ) "/b" VFS_MODE_APPEND)
    as [[fh s1] |] eqn:Hopen; [| vm_compute in Hopen; discriminate Hopen].
  assert (Hfh : fh = 101).
  { pose proof Hopen as Heq. vm_compute in Heq. injection Heq as <- _. reflexivity. }
  subst fh.
  destruct (vfs_open_fresh_descriptor Ex.fslist Ex.resolve (-1) (2 ^ 32) "x"%char 64 64
              (Ex.tree 0 100 0 VFS_MODE_READ) "/b" VFS_MODE_APPEND 101 s1 Hopen
              ltac:(discriminate))
    as (nd & tn & ino & H1 & _ & H2 & H3 & _).
  exists s1, nd. split; [reflexivity |]. split; [exact H1 |]. split; [exact H2 | exact H3].
Defined.

(** The path [/a/b//]. *)
Lemma vfs_get_parent_dir_gives_prefix_witness :
  exists ret parent' currdir',
    vfs_get_parent_dir "x"%char (Some (list_ascii_of_string "/a/b//")) (Some []) (Some [])
    = Some (ret, Some parent', currdir')
    /\ c_str parent' `prefix_of` c_str (list_ascii_of_string "/a/b//")
    /\ (ret = 0 \/ ret = -1)
    /\ (ret = -1 <-> c_str parent' = []).
Proof.
  apply (vfs_get_parent_dir_gives_prefix "x"%char (list_ascii_of_string "/a/b//") []
           (Some [])).
  unfold half_modulus. simpl. lia.
Defined.

(** The walk from [/a/zz/y] in the example tree, with arrays of 64
    characters. *)
Lemma vfs_open_walk_settles_on_prefix_witness :
  exists curpath pn parent',
    strcpy_in 64 [NUL] (list_ascii_of_string "/a/zz/y" ++ [NUL]) = Some curpath
    /\ ancestor_walk Ex.resolve "x"%char 64 (S (S (strlen curpath)))
         (heap (Ex.tree 0 100 0 VFS_MODE_READ)) curpath [NUL]
       = Some (pn, parent')
    /\ forall p, pn = Some p ->
         Ex.resolve (heap (Ex.tree 0 100 0 VFS_MODE_READ))
           (string_of_list_ascii (c_str parent')) = Some p.
Proof.
  pose proof (vfs_open_walk_settles_on_prefix Ex.resolve "x"%char 64
                (heap (Ex.tree 0 100 0 VFS_MODE_READ)) "/a/zz/y") as H.
  cbv zeta in H.
  destruct H as (curpath & pn & parent' & Hc & _ & Hw & Hp);
    [simpl; lia | unfold half_modulus; simpl; lia |].
  exists curpath, pn, parent'. split; [exact Hc |]. split; [exact Hw |].
  intros p Hpn. exact (proj2 (proj2 (Hp p Hpn))).
Defined.

(** The example resolver returns live tree nodes. *)
Lemma ex_walk_live h comps : forall cur r,
  is_Some (tnodes h !! cur) ->
  Ex.walk h cur comps = Some r ->
  is_Some (tnodes h !! r).
Proof.
  induction comps as [| name rest IH]; intros cur r Hcur Hr.
  - injection Hr as <-. exact Hcur.
  - cbn [Ex.walk] in Hr.
    destruct (Ex.find_child h cur name) as [c |] eqn:Hc; simpl in Hr; [| discriminate].
    apply (IH c); [| exact Hr].
    unfold Ex.find_child in Hc.
    destruct (tnodes h !! cur) as [ctn |]; simpl in Hc; [| discriminate].
    destruct (inodes h !! t_inode ctn) as [cino |]; simpl in Hc; [| discriminate].
    apply head_Some_elem_of, list_elem_of_In, filter_In in Hc as [_ Hc].
    destruct (tnodes h !! c); [eauto | discriminate].
Qed.



(** ** Live handles stay below the counter *)

Section HandlesBelow.

Variable vfs_fslist : list vfs_fsinfo_t.
Variable FS_NAME_SIZE : nat.
Variable vfs_path_to_node : vfs_heap -> string -> option ptr.
Variable VFS_INVALID_HANDLE : Z.
Variable refcount_modulus : Z.
Variable stray : ascii.
Variable VFS_MAX_PATH_LEN : nat.
Variable DESC_PATH_LEN : nat.
Variable after_kmfree : vfs_node_desc_t -> option vfs_node_desc_t.

Abbreviation vfs_open :=
  (vfs_open vfs_fslist vfs_path_to_node VFS_INVALID_HANDLE refcount_modulus stray
     VFS_MAX_PATH_LEN DESC_PATH_LEN).
Abbreviation exec :=
  (vfs_exec vfs_fslist FS_NAME_SIZE vfs_path_to_node VFS_INVALID_HANDLE
     refcount_modulus stray VFS_MAX_PATH_LEN DESC_PATH_LEN after_kmfree).
Abbreviation run :=
  (vfs_run vfs_fslist FS_NAME_SIZE vfs_path_to_node VFS_INVALID_HANDLE
     refcount_modulus stray VFS_MAX_PATH_LEN DESC_PATH_LEN after_kmfree).

(** A handle that is in the table after a call was there before, or is
    the value of the counter, which the call has incremented. *)
Lemma vfs_exec_table s op r s' h :
  exec s op = Some (r, s') ->
  is_Some (vfs_openfiles s' !! h) ->
  is_Some (vfs_openfiles s !! h)
  \/ (h = to_int64 (vfs_next_handle s)
      /\ vfs_next_handle s' = add64 (vfs_next_handle s) 1).
Proof.
  destruct op as [path mode | h0 | h0 len buff | h0 len buff | h0 pos whence | path
                 | device path fsname]; simpl; intros H Hin.
  - apply vfs_open_ends in H as (s0 & Htbl & Hnext & [[_ Heq] | (req & Hfin)]).
    + left. rewrite <- Htbl, <- Heq. exact Hin.
    + pose proof (open_finish_counter _ _ _ _ _ _ _ _ Hfin) as [Hfh Hn].
      apply open_finish_effect in Hfin as (rtn & rino & _ & _ & _ & Ht & _).
      rewrite Ht in Hin. rewrite <- Htbl, <- Hnext.
      destruct (decide (h = r)) as [-> | Hne].
      * right. split; assumption.
      * left. rewrite lookup_insert_ne in Hin by congruence. exact Hin.
  - left. unfold vfs_close, vfs_handle_to_fd in H.
    run_cases H; injection H as <- <-; simpl in Hin;
      try (apply lookup_delete_is_Some in Hin as [_ Hin]); exact Hin.
  - destruct (vfs_read vfs_fslist s h0 len buff) as [[[r0 b] s0] |] eqn:Hr;
      simpl in H; [| discriminate].
    injection H as <- <-. left. unfold vfs_read, vfs_handle_to_fd in Hr.
    run_cases Hr; injection Hr as <- <- <-; simpl in Hin; try exact Hin.
    all: (destruct (decide (h = h0)) as [-> | Hne]; [eauto |]);
      rewrite lookup_insert_ne in Hin by congruence; exact Hin.
  - left. apply vfs_write_table in H. rewrite <- H. exact Hin.
  - left. unfold vfs_seek, vfs_handle_to_fd in H.
    run_cases H; injection H as <- <-; simpl in Hin; try exact Hin.
    all: (destruct (decide (h = h0)) as [-> | Hne]; [eauto |]);
      rewrite lookup_insert_ne in Hin by congruence; exact Hin.
  - left. unfold vfs_unlink in H.
    run_cases H; injection H as <- <-; exact Hin.
  - left. unfold vfs_mount in H.
    run_cases H; injection H as <- <-; exact Hin.
Qed.

Lemma vfs_exec_below s op r s' :
  exec s op = Some (r, s') ->
  0 <= vfs_next_handle s -> vfs_next_handle s + 1 < half_modulus ->
  handles_below s -> handles_below s'.
Proof.
  intros Hexec Hlo Hhi Hinv h d Hd.
  destruct (vfs_exec_table s op r s' h Hexec (ex_intro _ d Hd)) as [[d0 Hd0] | [Hh Hn]].
  - specialize (Hinv h d0 Hd0).
    apply vfs_exec_counter in Hexec as [[Hsame _] | (_ & Hnext & _)].
    + lia.
    + rewrite Hnext. unfold add64. rewrite wrap64_small; [lia |].
      unfold is_size_t, half_modulus, modulus in *. lia.
  - rewrite Hn, Hh. unfold add64. rewrite wrap64_small
      by (unfold is_size_t, half_modulus, modulus in *; lia).
    rewrite to_int64_small by (unfold half_modulus in *; lia). lia.
Qed.

Lemma vfs_run_below ops : forall s rets s',
  run s ops = Some (rets, s') ->
  0 <= vfs_next_handle s ->
  vfs_next_handle s + Z.of_nat (length ops) < half_modulus ->
  handles_below s ->
  handles_below s' /\ vfs_next_handle s <= vfs_next_handle s'
  /\ vfs_next_handle s' <= vfs_next_handle s + Z.of_nat (length ops).
Proof.
  induction ops as [| op ops IH]; intros s rets s' Hrun Hlo Hhi Hinv.
  - simpl in Hrun. injection Hrun as <- <-. simpl. split; [exact Hinv | lia].
  - simpl in Hrun.
    destruct (exec s op) as [[r s1] |] eqn:Hexec; simpl in Hrun; [| discriminate].
    destruct (run s1 ops) as [[rs s2] |] eqn:Hrest; simpl in Hrun; [| discriminate].
    injection Hrun as <- <-.
    simpl length in *. rewrite Nat2Z.inj_succ in *.
    assert (Hinv1 : handles_below s1) by (eapply vfs_exec_below; [eassumption | lia ..| assumption]).
    assert (Hn : vfs_next_handle s1 = vfs_next_handle s
                 \/ vfs_next_handle s1 = vfs_next_handle s + 1).
    { apply vfs_exec_counter in Hexec as [[Hsame _] | (_ & Hnext & _)]; [left; exact Hsame |].
      right. rewrite Hnext. unfold add64. apply wrap64_small.
      unfold is_size_t, half_modulus, modulus in *. lia. }
    destruct (IH s1 rs s2 Hrest) as (H1 & H2 & H3); [lia | lia | exact Hinv1 |].
    split; [exact H1 | lia].
Qed.

(** X11.  From a state in which every live handle is below the counter
    (at boot the table is empty), and as long as the counter stays below
    [2^63], every run of calls keeps it so; a handle that [vfs_open] then
    returns was not in the table, so no open replaces the descriptor of a
    handle that is still open. *)
Theorem vfs_open_handle_is_fresh s ops rets s1 path mode fh s2 :
  handles_below s ->
  0 <= vfs_next_handle s ->
  vfs_next_handle s + Z.of_nat (length ops) + 1 < half_modulus ->
  run s ops = Some (rets, s1) ->
  vfs_open s1 path mode = Some (fh, s2) ->
  fh <> VFS_INVALID_HANDLE ->
  handles_below s1
  /\ vfs_openfiles s1 !! fh = None
  /\ handles_below s2.
Proof.
  intros Hinv Hlo Hhi Hrun Hopen Hvalid.
  destruct (vfs_run_below ops s rets s1 Hrun Hlo ltac:(lia) Hinv) as (Hinv1 & Hge & Hle).
  split; [exact Hinv1 |]. split.
  - apply vfs_open_counter in Hopen as [[Hbad _] | [Hfh _]]; [contradiction |].
    rewrite to_int64_small in Hfh by (unfold half_modulus in *; lia).
    destruct (vfs_openfiles s1 !! fh) as [d |] eqn:Hd; [| reflexivity].
    specialize (Hinv1 fh d Hd). lia.
  - apply (vfs_exec_below s1 (OpOpen path mode) fh s2); [exact Hopen | lia | lia | exact Hinv1].
Qed.

End HandlesBelow.

(** ** [vfs_tell], [vfs_seek] and [vfs_read] together *)

(** X12.  [vfs_tell] reports the size of the file, not the position: no
    [vfs_seek] changes what it returns. *)
Theorem vfs_tell_ignores_seek s handle pos whence r s' h :
  vfs_seek s handle pos whence = Some (r, s') ->
  vfs_tell s' h = vfs_tell s h.
Proof.
  unfold vfs_seek, vfs_tell, vfs_handle_to_fd. intros H.
  destruct (vfs_openfiles s !! handle) as [fd |] eqn:Hfd; [| injection H as <- <-; reflexivity].
  destruct (inodes (heap s) !! d_inode fd) as [ino |]; [| discriminate].
  destruct (bool_decide _); [injection H as <- <-; reflexivity |].
  destruct (bool_decide _); [| injection H as <- <-; reflexivity].
  injection H as <- <-. simpl.
  destruct (decide (h = handle)) as [-> | Hne].
  - rewrite lookup_insert_eq, Hfd. reflexivity.
  - rewrite lookup_insert_ne by congruence. reflexivity.
Qed.

Section EndOfFile.

Variable vfs_fslist : list vfs_fsinfo_t.
Variables (s : vfs_state) (handle : Z) (fd : vfs_node_desc_t) (ino : vfs_inode_t).
Hypothesis handle_open : vfs_handle_to_fd s handle = Some fd.
Hypothesis inode_live : inodes (heap s) !! d_inode fd = Some ino.
Hypothesis not_tty : handle <> ttyfh s.

Lemma sub64_self a : sub64 a a = 0.
Proof. unfold sub64, wrap64. rewrite Z.sub_diag. reflexivity. Qed.

Lemma add64_sub64 a b : is_size_t b -> add64 a (sub64 b a) = b.
Proof.
  intros Hb. unfold add64, sub64, wrap64.
  rewrite Zplus_mod_idemp_r. replace (a + (b - a)) with b by lia.
  apply Z.mod_small. exact Hb.
Qed.

Lemma add64_to_int64 a b : add64 a (to_int64 b) = add64 a b.
Proof.
  unfold add64, to_int64, wrap64, half_modulus, modulus.
  replace (a + ((b + 2 ^ 63) mod 2 ^ 64 - 2 ^ 63))
    with ((b + 2 ^ 63) mod 2 ^ 64 + (a - 2 ^ 63)) by lia.
  rewrite Zplus_mod_idemp_l. f_equal. lia.
Qed.

(** A read at the end of the file: nothing is asked of the provider. *)
Lemma vfs_read_end_of_file len buff :
  d_seek_pos fd = i_size ino ->
  add64 (i_size ino) len > i_size ino ->
  vfs_read vfs_fslist s handle len buff = Some (0, buff, s).
Proof.
  intros Hpos Hlen.
  assert (Ht : read_truncates s handle fd ino len).
  { split; [rewrite Hpos; exact Hlen | exact not_tty]. }
  assert (H0 : read_len s handle fd ino len = 0).
  { unfold read_len. rewrite decide_True by exact Ht. rewrite Hpos. apply sub64_self. }
  unfold vfs_read. rewrite handle_open, inode_live. simpl.
  rewrite decide_True by (split; [exact Ht | exact H0]).
  rewrite H0. reflexivity.
Qed.

End EndOfFile.

(** X13.  On a file smaller than [2^63] bytes, [vfs_seek] to offset 0 from
    [SEEK_END] returns what [vfs_tell] returns, the size of the file, and
    a read after it (of a length that does not wrap the position) returns
    0 without calling the provider. *)
Theorem vfs_seek_end_then_read vfs_fslist s handle fd ino :
  vfs_handle_to_fd s handle = Some fd ->
  inodes (heap s) !! d_inode fd = Some ino ->
  handle <> ttyfh s ->
  0 <= i_size ino < half_modulus ->
  exists s1,
    vfs_seek s handle 0 SEEK_END = Some (i_size ino, s1)
    /\ vfs_tell s handle = Some (i_size ino)
    /\ forall len buff,
         0 < len -> i_size ino + len < modulus ->
         vfs_read vfs_fslist s1 handle len buff = Some (0, buff, s1).
Proof.
  intros Hfd Hino Htty Hsz.
  assert (Hsize : is_size_t (i_size ino))
    by (unfold is_size_t, half_modulus, modulus in *; lia).
  assert (Hoff : seek_offset (d_seek_pos fd) (i_size ino) 0 SEEK_END = i_size ino).
  { unfold seek_offset. simpl. unfold sub64. rewrite Z.sub_0_r, wrap64_small by exact Hsize.
    apply to_int64_small. exact Hsz. }
  exists (seek_stored s handle fd (i_size ino)).
  split; [| split].
  - rewrite (vfs_seek_result s handle fd ino Hfd Hino 0 SEEK_END Hsz), Hoff.
    rewrite decide_True by lia. reflexivity.
  - unfold vfs_tell. rewrite Hfd, Hino. simpl. rewrite to_int64_small by exact Hsz.
    reflexivity.
  - intros len buff Hlen Hfit.
    apply (vfs_read_end_of_file vfs_fslist (seek_stored s handle fd (i_size ino)) handle
             (with_seek_pos fd (i_size ino)) ino).
    + unfold vfs_handle_to_fd. simpl. apply lookup_insert_eq.
    + exact Hino.
    + exact Htty.
    + reflexivity.
    + unfold add64. rewrite wrap64_small; [lia |]. unfold is_size_t in *. lia.
Qed.

Section ReadPosition.

Variable vfs_fslist : list vfs_fsinfo_t.
Variables (s : vfs_state) (handle : Z) (fd : vfs_node_desc_t) (ino : vfs_inode_t).
Hypothesis handle_open : vfs_handle_to_fd s handle = Some fd.
Hypothesis inode_live : inodes (heap s) !! d_inode fd = Some ino.
Hypothesis not_tty : handle <> ttyfh s.
Hypothesis size_range : is_size_t (i_size ino).
Hypothesis seek_range : is_size_t (d_seek_pos fd).
Hypothesis within : d_seek_pos fd <= i_size ino.

(** What a read that returns leaves in the descriptor. *)
Lemma vfs_read_position len buff r b s' :
  vfs_read vfs_fslist s handle len buff = Some (r, b, s') ->
  exists fd',
    vfs_handle_to_fd s' handle = Some fd'
    /\ d_inode fd' = d_inode fd
    /\ d_seek_pos fd' = add64 (d_seek_pos fd) r
    /\ d_seek_pos fd' <= i_size ino
    /\ (read_truncates s handle fd ino len -> r <> 0 -> d_seek_pos fd' = i_size ino).
Proof.
  unfold vfs_read. rewrite handle_open, inode_live. simpl. intros H.
  destruct (decide (read_truncates s handle fd ino len /\ read_len s handle fd ino len = 0))
    as [[Ht H0] | Hn].
  - injection H as <- <- <-. rewrite H0. exists fd.
    split; [exact handle_open |]. split; [reflexivity |].
    change (to_int64 0) with 0. rewrite add64_zero by exact seek_range.
    split; [reflexivity |]. split; [exact within |]. intros _ Hr. contradiction.
  - destruct (i_fs ino) as [fsid |]; simpl in H; [| discriminate].
    destruct (the_fs vfs_fslist fsid) as [fs |]; simpl in H; [| discriminate].
    destruct (fs_read fs _ _ _ _ _) as [[status buff1] h1].
    injection H as <- <- <-.
    eexists. unfold vfs_handle_to_fd. simpl. rewrite lookup_insert_eq.
    split; [reflexivity |]. simpl. split; [reflexivity |].
    rewrite add64_to_int64. split; [reflexivity |].
    destruct (decide (status = -1)) as [Hst | Hst].
    + rewrite add64_zero by exact seek_range. split; [exact within |].
      intros _ Hr. exfalso. apply Hr. reflexivity.
    + unfold read_len.
      destruct (decide (read_truncates s handle fd ino len)) as [Ht | Hnt].
      * rewrite add64_sub64 by exact size_range. split; [lia | reflexivity].
      * split; [| intros Ht; contradiction].
        unfold read_truncates in Hnt.
        destruct (decide (add64 (d_seek_pos fd) len > i_size ino)); [| lia].
        exfalso. apply Hnt. split; assumption.
Qed.

(** X14.  A read on a handle other than the TTY handle moves the seek
    position by the number it returns (modulo [2^64]) and never beyond the
    size the file had; a read that was cut short and returned something
    leaves the position at that size. *)
Theorem vfs_read_advances_within_file len buff r b s' :
  vfs_read vfs_fslist s handle len buff = Some (r, b, s') ->
  exists fd',
    vfs_handle_to_fd s' handle = Some fd'
    /\ d_inode fd' = d_inode fd
    /\ d_seek_pos fd' = add64 (d_seek_pos fd) r
    /\ d_seek_pos fd' <= i_size ino
    /\ (read_truncates s handle fd ino len -> r <> 0 -> d_seek_pos fd' = i_size ino).
Proof. exact (vfs_read_position len buff r b s'). Qed.

(** X15.  The end of the file is sticky: after a read that was cut short
    at the end of the file, and whose provider left the size of the file
    alone, a further read returns 0 and changes nothing, without a call of
    the provider. *)
Theorem vfs_read_end_is_sticky len buff r b s' len' buff' :
  vfs_read vfs_fslist s handle len buff = Some (r, b, s') ->
  read_truncates s handle fd ino len -> r <> 0 ->
  inode_size (heap s') (d_inode fd) = Some (i_size ino) ->
  0 < len' -> i_size ino + len' < modulus ->
  vfs_read vfs_fslist s' handle len' buff' = Some (0, buff', s').
Proof.
  intros Hread Ht Hr Hsize Hlen Hfit.
  assert (Htty : ttyfh s' = ttyfh s).
  { revert Hread. unfold vfs_read. rewrite handle_open, inode_live. simpl. intros H.
    run_cases H; injection H as <- <- <-; reflexivity. }
  destruct (vfs_read_position len buff r b s' Hread) as (fd' & Hfd' & Hino' & _ & _ & Hend).
  specialize (Hend Ht Hr).
  unfold inode_size in Hsize.
  destruct (inodes (heap s') !! d_inode fd) as [ino' |] eqn:Hlive; [| discriminate].
  injection Hsize as Hsize.
  apply (vfs_read_end_of_file vfs_fslist s' handle fd' ino').
  - exact Hfd'.
  - rewrite Hino'. exact Hlive.
  - rewrite Htty. exact not_tty.
  - congruence.
  - rewrite Hsize. unfold add64. rewrite wrap64_small; [lia |].
    unfold is_size_t in *. lia.
Qed.

End ReadPosition.

Lemma tree_handles_below : handles_below (Ex.tree 0 100 0 VFS_MODE_READ).
Proof.
  intros h d Hd.
  destruct (decide (h = 100)) as [-> | Hne]; [simpl; lia |].
  simpl in Hd. rewrite lookup_singleton_ne in Hd by congruence. discriminate Hd.
Qed.

(** An open after the calls of [Ex.two_opens]. *)
Lemma vfs_open_handle_is_fresh_witness :
  exists rets s1 s2,
    vfs_run Ex.fslist 16 Ex.resolve (-1) (2 ^ 32) "x"%char 64 64 Ex.kept_block
      (Ex.tree 0 100 0 VFS_MODE_READ) Ex.two_opens = Some (rets, s1)
    /\ vfs_open Ex.fslist Ex.resolve (-1) (2 ^ 32) "x"%char 64 64 s1 "/b" VFS_MODE_READ
       = Some (103, s2)
    /\ vfs_openfiles s1 !! 103 = None
    /\ handles_below s2.
Proof.
  destruct (vfs_run Ex.fslist 16 Ex.resolve (-1) (2 ^ 32) "x"%char 64 64 Ex.kept_block
              (Ex.tree 0 100 0 VFS_MODE_READ) Ex.two_opens)
    as [[rets s1] |] eqn:Hrun; [| vm_compute in Hrun; discriminate Hrun].
  destruct (vfs_open Ex.fslist Ex.resolve (-1) (2 ^ 32) "x"%char 64 64 s1 "/b" VFS_MODE_READ)
    as [[fh s2] |] eqn:Hopen.
  - assert (Hfh : fh = 103).
    { pose proof Hrun as Heq. vm_compute in Heq. injection Heq as <- <-.
      vm_compute in Hopen. injection Hopen as <- _. reflexivity. }
    subst fh.
    destruct (vfs_open_handle_is_fresh Ex.fslist 16 Ex.resolve (-1) (2 ^ 32) "x"%char
                64 64 Ex.kept_block
                (Ex.tree 0 100 0 VFS_MODE_READ) Ex.two_opens rets s1 "/b" VFS_MODE_READ
                103 s2 tree_handles_below ltac:(simpl; lia)
                ltac:(unfold half_modulus; simpl; lia) Hrun Hopen ltac:(discriminate))
      as (_ & H1 & H2).
    exists rets, s1, s2. split; [reflexivity |]. split; [exact Hopen |].
    split; [exact H1 | exact H2].
  - pose proof Hrun as Heq. vm_compute in Heq. injection Heq as <- <-.
    vm_compute in Hopen. discriminate Hopen.
Defined.

(** A seek to position 10 of [/a]. *)
Lemma vfs_tell_ignores_seek_witness :
  vfs_tell (seek_stored (Ex.tree 0 100 0 VFS_MODE_READ) 100
              (Ex.opened "/a" 2 12 0 VFS_MODE_READ) 10) 100
  = vfs_tell (Ex.tree 0 100 0 VFS_MODE_READ) 100.
Proof.
  apply (vfs_tell_ignores_seek (Ex.tree 0 100 0 VFS_MODE_READ) 100 10 SEEK_SET 10).
  vm_compute. reflexivity.
Defined.

(** Seeking to the end of [/a] (100 bytes) and reading. *)
Lemma vfs_seek_end_then_read_witness :
  exists s1,
    vfs_seek (Ex.tree 0 100 0 VFS_MODE_READ) 100 0 SEEK_END = Some (100, s1)
    /\ vfs_tell (Ex.tree 0 100 0 VFS_MODE_READ) 100 = Some 100
    /\ vfs_read Ex.fslist s1 100 8 [] = Some (0, [], s1).
Proof.
  destruct (vfs_seek_end_then_read Ex.fslist (Ex.tree 0 100 0 VFS_MODE_READ) 100
              (Ex.opened "/a" 2 12 0 VFS_MODE_READ) (Ex.plain_file 0 100 1)
              eq_refl eq_refl ltac:(discriminate) ltac:(unfold half_modulus; simpl; lia))
    as (s1 & H1 & H2 & H3).
  exists s1. split; [exact H1 |]. split; [exact H2 |].
  apply H3; [lia | unfold modulus; simpl; lia].
Defined.

(** A read of 1000 bytes at position 40 of [/a]. *)
Lemma vfs_read_advances_within_file_witness :
  exists s' fd',
    vfs_read Ex.fslist (Ex.tree 0 100 40 VFS_MODE_READ) 100 1000 [] = Some (60, [], s')
    /\ vfs_handle_to_fd s' 100 = Some fd'
    /\ d_seek_pos fd' = add64 40 60
    /\ d_seek_pos fd' <= 100.
Proof.
  destruct (vfs_read Ex.fslist (Ex.tree 0 100 40 VFS_MODE_READ) 100 1000 [])
    as [[[r b] s'] |] eqn:Hread; [| vm_compute in Hread; discriminate Hread].
  assert (Hr : r = 60 /\ b = []).
  { pose proof Hread as Heq. vm_compute in Heq. injection Heq as <- <- _.
    split; reflexivity. }
  destruct Hr as [-> ->].
  destruct (vfs_read_advances_within_file Ex.fslist (Ex.tree 0 100 40 VFS_MODE_READ) 100
              (Ex.opened "/a" 2 12 40 VFS_MODE_READ) (Ex.plain_file 0 100 1)
              eq_refl eq_refl ltac:(discriminate)
              ltac:(unfold is_size_t, modulus; simpl; lia)
              ltac:(unfold is_size_t, modulus; simpl; lia)
              ltac:(simpl; lia) 1000 [] 60 [] s' Hread)
    as (fd' & H1 & _ & H2 & H3 & _).
  exists s', fd'. split; [reflexivity |]. split; [exact H1 |].
  split; [exact H2 | exact H3].
Defined.

(** The same read, and a second one after it. *)
Lemma vfs_read_end_is_sticky_witness :
  exists s',
    vfs_read Ex.fslist (Ex.tree 0 100 40 VFS_MODE_READ) 100 1000 [] = Some (60, [], s')
    /\ vfs_read Ex.fslist s' 100 8 [] = Some (0, [], s').
Proof.
  destruct (vfs_read Ex.fslist (Ex.tree 0 100 40 VFS_MODE_READ) 100 1000 [])
    as [[[r b] s'] |] eqn:Hread; [| vm_compute in Hread; discriminate Hread].
  assert (Hr : r = 60 /\ b = []
               /\ inode_size (heap s') 12 = Some 100).
  { pose proof Hread as Heq. vm_compute in Heq. injection Heq as <- <- <-.
    repeat split; reflexivity. }
  destruct Hr as (-> & -> & Hsize).
  exists s'. split; [reflexivity |].
  apply (vfs_read_end_is_sticky Ex.fslist (Ex.tree 0 100 40 VFS_MODE_READ) 100
           (Ex.opened "/a" 2 12 40 VFS_MODE_READ) (Ex.plain_file 0 100 1)
           eq_refl eq_refl ltac:(discriminate)
           ltac:(unfold is_size_t, modulus; simpl; lia)
           ltac:(unfold is_size_t, modulus; simpl; lia)
           ltac:(simpl; lia) 1000 [] 60 [] s' 8 [] Hread).
  - split; [vm_compute; reflexivity | discriminate].
  - discriminate.
  - exact Hsize.
  - lia.
  - unfold modulus. simpl. lia.
Defined.

(** ** [vfs_chmod] *)

Section ChmodFacts.

Variable vfs_fslist : list vfs_fsinfo_t.
Variable PERM_MASK : Z.
Variables (s : vfs_state) (handle : Z) (fd : vfs_node_desc_t).
Hypothesis handle_open : vfs_handle_to_fd s handle = Some fd.

(** X16.  A descriptor opened read-only protects its file: [vfs_chmod]
    returns -1 and [vfs_write] returns 0, and neither changes anything or
    calls the provider. *)
Theorem vfs_read_only_is_protected newperms len buff :
  d_mode fd = VFS_MODE_READ ->
  vfs_chmod vfs_fslist PERM_MASK s handle newperms = Some (-1, s)
  /\ vfs_write vfs_fslist s handle len buff = Some (0, s).
Proof.
  intros Hmode. unfold vfs_chmod, vfs_write. rewrite handle_open.
  rewrite !decide_True by exact Hmode. split; reflexivity.
Qed.

Variables (ino : vfs_inode_t) (tn : vfs_tnode_t) (fsid : nat) (fs : vfs_fsinfo_t).
Variable sync : vfs_heap -> ptr -> vfs_heap.
Hypothesis writable : d_mode fd <> VFS_MODE_READ.
Hypothesis inode_live : inodes (heap s) !! d_inode fd = Some ino.
Hypothesis tnode_live : tnodes (heap s) !! d_tnode fd = Some tn.
Hypothesis inode_fs : i_fs ino = Some fsid.
Hypothesis provider : the_fs vfs_fslist fsid = Some fs.
Hypothesis has_sync : fs_sync fs = Some sync.

(** X17.  A successful [vfs_chmod] hands to the provider's [sync] a heap
    in which the permissions of the inode are the new ones cut to the
    mask, and in which [st_mode] of the tree node has gained those bits
    and lost none: a bit that was set in [st_mode] stays set.  Nothing
    else in the heap has changed. *)
Theorem vfs_chmod_only_adds_mode_bits newperms :
  exists h2 ino2 tn2,
    vfs_chmod vfs_fslist PERM_MASK s handle newperms
    = Some (0, log_call (set_heap s (sync h2 (d_inode fd))) (CallSync fsid (d_inode fd)))
    /\ inodes h2 !! d_inode fd = Some ino2
    /\ tnodes h2 !! d_tnode fd = Some tn2
    /\ i_perms ino2 = Z.land newperms PERM_MASK
    /\ st_mode (t_st tn2) = Z.lor (st_mode (t_st tn)) (i_perms ino2)
    /\ (forall n, Z.testbit (i_perms ino2) n = true -> Z.testbit PERM_MASK n = true)
    /\ (forall n, Z.testbit (st_mode (t_st tn)) n = true ->
                  Z.testbit (st_mode (t_st tn2)) n = true)
    /\ (forall p, p <> d_inode fd -> inodes h2 !! p = inodes (heap s) !! p)
    /\ (forall t, t <> d_tnode fd -> tnodes h2 !! t = tnodes (heap s) !! t).
Proof.
  eexists _, (with_perms ino (Z.land newperms PERM_MASK)),
    (with_st_mode tn (Z.lor (st_mode (t_st tn)) (Z.land newperms PERM_MASK))).
  split.
  - unfold vfs_chmod. rewrite handle_open.
    rewrite decide_False by exact writable.
    rewrite inode_live. simpl. rewrite tnode_live. simpl.
    rewrite lookup_insert_eq. simpl.
    rewrite inode_fs. simpl. rewrite provider. simpl. rewrite has_sync. simpl.
    reflexivity.
  - simpl. rewrite !lookup_insert_eq.
    repeat split; try reflexivity.
    + intros n Hn. rewrite Z.land_spec in Hn. apply andb_true_iff in Hn. tauto.
    + intros n Hn. rewrite Z.lor_spec, Hn. reflexivity.
    + intros p Hp. apply lookup_insert_ne. congruence.
    + intros t Ht. apply lookup_insert_ne. congruence.
Qed.

End ChmodFacts.

(** ** [vfs_getdent] and the listing loop of [dir_test] *)

Section ListingFacts.

Variable tm_t : Type.
Variable inode_tm : vfs_heap -> ptr -> tm_t.
Variables (hp : vfs_heap) (handle : Z) (dir : ptr) (ino : vfs_inode_t).
Hypothesis dir_live : inodes hp !! dir = Some ino.
Hypothesis traversable : IS_TRAVERSABLE ino = true.
Hypothesis children_fit : Z.of_nat (length (i_child ino)) < modulus.
Hypothesis children_live :
  Forall (fun entry => exists etn eino,
            tnodes hp !! entry = Some etn /\ inodes hp !! t_inode etn = Some eino)
         (i_child ino).

Abbreviation vfs_getdent := (vfs_getdent tm_t inode_tm).
Abbreviation dir_test_loop := (dir_test_loop tm_t inode_tm).

Abbreviation listed := (listed inode_tm hp).

Lemma vfs_getdent_at_end s fd de :
  heap s = hp -> vfs_handle_to_fd s handle = Some fd -> d_inode fd = dir ->
  d_seek_pos fd >= Z.of_nat (length (i_child ino)) ->
  vfs_getdent s handle de = Some (0, de, s).
Proof.
  intros Hheap Hfd Hdir Hpos. unfold vfs_getdent. rewrite Hfd, Hheap, Hdir, dir_live.
  simpl. rewrite traversable. simpl. rewrite decide_True by exact Hpos. reflexivity.
Qed.

Lemma dir_test_loop_step fuel s de printed :
  dir_test_loop (S fuel) s handle de printed
  = '(ret, de1, s1) ← vfs_getdent s handle de;
    if decide (ret <= 0) then Some (printed, s1)
    else dir_test_loop fuel s1 handle de1 (printed ++ [de1]).
Proof. reflexivity. Qed.

Lemma dir_test_loop_lists n : forall s fd de printed k,
  heap s = hp -> vfs_handle_to_fd s handle = Some fd -> d_inode fd = dir ->
  d_seek_pos fd = Z.of_nat k ->
  (k + n = length (i_child ino))%nat ->
  exists s' rest,
    dir_test_loop (S n) s handle de printed = Some (printed ++ rest, s')
    /\ Forall2 listed rest (drop k (i_child ino))
    /\ heap s' = hp
    /\ calls s' = calls s
    /\ vfs_handle_to_fd s' handle
       = Some (with_seek_pos fd (if decide (n = 0%nat) then d_seek_pos fd
                                 else Z.of_nat (length (i_child ino))))
    /\ (forall h, h <> handle -> vfs_openfiles s' !! h = vfs_openfiles s !! h).
Proof.
  induction n as [| n IH]; intros s fd de printed k Hheap Hfd Hdir Hpos Hk.
  - exists s, []. rewrite dir_test_loop_step.
    rewrite (vfs_getdent_at_end s fd de Hheap Hfd Hdir) by lia. simpl.
    rewrite app_nil_r. split; [reflexivity |].
    split; [rewrite drop_ge by lia; constructor |].
    split; [exact Hheap |]. split; [reflexivity |].
    split; [| reflexivity].
    rewrite Hfd. destruct fd; reflexivity.
  - destruct (lookup_lt_is_Some_2 (i_child ino) k ltac:(lia)) as [entry Hentry].
    pose proof (proj1 (Forall_lookup _ _) children_live k entry Hentry)
      as (etn & eino & Hetn & Heino).
    set (de1 := {| de_type := i_type eino; de_name := t_name etn;
                   de_size := de_size de; de_tm := inode_tm hp (t_inode etn) |}).
    set (fd1 := with_seek_pos fd (add64 (d_seek_pos fd) 1)).
    set (s1 := set_openfiles s (<[handle := fd1]> (vfs_openfiles s))).
    assert (Hstep : vfs_getdent s handle de = Some (1, de1, s1)).
    { unfold vfs_getdent. rewrite Hfd, Hheap, Hdir, dir_live. simpl.
      rewrite traversable. simpl. rewrite decide_False by lia.
      rewrite Hpos, Nat2Z.id, Hentry. simpl. rewrite Hetn. simpl. rewrite Heino.
      unfold s1, fd1. rewrite Hpos. reflexivity. }
    assert (Hnext : add64 (d_seek_pos fd) 1 = Z.of_nat (S k)).
    { unfold add64. rewrite wrap64_small; [lia |]. unfold is_size_t. lia. }
    destruct (IH s1 fd1 de1 (printed ++ [de1]) (S k)) as (s' & rest & Hrun & Hall & Hh & Hc & Hfd' & Hother).
    + exact Hheap.
    + unfold vfs_handle_to_fd. simpl. apply lookup_insert_eq.
    + exact Hdir.
    + exact Hnext.
    + lia.
    + exists s', (de1 :: rest).
      rewrite dir_test_loop_step, Hstep.
      cbn [mbind option_bind]. rewrite decide_False by lia.
      split; [rewrite Hrun, <- app_assoc; reflexivity |].
      split.
      { rewrite (drop_S _ entry) by exact Hentry. constructor; [| exact Hall].
        exists etn, eino. repeat split; assumption. }
      split; [exact Hh |]. split; [exact Hc |].
      split.
      * rewrite Hfd'. destruct (decide (S n = 0%nat)) as [| _]; [lia |]. f_equal.
        destruct (decide (n = 0%nat)) as [-> | Hn]; [| reflexivity].
        unfold fd1, with_seek_pos. simpl. f_equal. rewrite Hnext. f_equal. lia.
      * intros h Hne. rewrite Hother by exact Hne. simpl.
        apply lookup_insert_ne. congruence.
Qed.

(** X18.  The listing loop of [dir_test] on a descriptor at position 0 of
    a folder whose children are live ends after one call of [vfs_getdent]
    per child and one more: it prints one entry per child, in the order of
    the child vector, each with the name of the child's tree node and the
    type and time of its inode.  No provider is called and the heap and
    the other descriptors are as before; the position is then the number
    of children, and a further [vfs_getdent] returns 0 and changes
    nothing. *)
Theorem dir_test_lists_children s fd de :
  heap s = hp -> vfs_handle_to_fd s handle = Some fd -> d_inode fd = dir ->
  d_seek_pos fd = 0 ->
  exists s' printed,
    dir_test_loop (S (length (i_child ino))) s handle de [] = Some (printed, s')
    /\ Forall2 listed printed (i_child ino)
    /\ heap s' = hp
    /\ calls s' = calls s
    /\ (forall h, h <> handle -> vfs_openfiles s' !! h = vfs_openfiles s !! h)
    /\ (d_seek_pos <$> vfs_handle_to_fd s' handle)
       = Some (Z.of_nat (length (i_child ino)))
    /\ forall de', vfs_getdent s' handle de' = Some (0, de', s').
Proof.
  intros Hheap Hfd Hdir Hpos.
  destruct (dir_test_loop_lists (length (i_child ino)) s fd de [] 0%nat
              Hheap Hfd Hdir Hpos ltac:(lia))
    as (s' & rest & Hrun & Hall & Hh & Hc & Hfd' & Hother).
  exists s', rest. split; [exact Hrun |]. split; [exact Hall |].
  split; [exact Hh |]. split; [exact Hc |]. split; [exact Hother |].
  assert (Hend : d_seek_pos <$> vfs_handle_to_fd s' handle
                 = Some (Z.of_nat (length (i_child ino)))).
  { rewrite Hfd'. simpl. f_equal.
    destruct (decide (length (i_child ino) = 0%nat)) as [-> | _]; [exact Hpos | reflexivity]. }
  split; [exact Hend |].
  intros de'. rewrite Hfd' in Hend.
  eapply vfs_getdent_at_end; [exact Hh | exact Hfd' | exact Hdir |].
  simpl in Hend |- *. injection Hend as ->. lia.
Qed.

End ListingFacts.

(** X19.  [vfs_getdent] on a descriptor of a node that is neither a folder
    nor a mount point returns -1, leaves the entry behind [dirent] as it
    was and changes nothing, wherever the seek position is. *)
Theorem vfs_getdent_not_traversable (tm_t : Type) (inode_tm : vfs_heap -> ptr -> tm_t)
    s handle fd ino de :
  vfs_handle_to_fd s handle = Some fd ->
  inodes (heap s) !! d_inode fd = Some ino ->
  i_type ino <> VFS_NODE_FOLDER -> i_type ino <> VFS_NODE_MOUNTPOINT ->
  vfs_getdent tm_t inode_tm s handle de = Some (-1, de, s)
  /\ forall pos s1,
       vfs_seek s handle pos SEEK_SET = Some (pos, s1) ->
       vfs_getdent tm_t inode_tm s1 handle de = Some (-1, de, s1).
Proof.
  intros Hfd Hino Hf Hm.
  assert (Hnt : IS_TRAVERSABLE ino = false).
  { unfold IS_TRAVERSABLE. apply bool_decide_eq_false_2. intros [H | H]; contradiction. }
  split.
  - unfold vfs_getdent. rewrite Hfd, Hino. simpl. rewrite Hnt. reflexivity.
  - intros pos s1 Hseek. revert Hseek. unfold vfs_seek. rewrite Hfd, Hino.
    destruct (bool_decide _).
    + intros [= _ <-]. unfold vfs_getdent. rewrite Hfd, Hino. simpl. rewrite Hnt. reflexivity.
    + destruct (bool_decide _).
      * intros [= _ <-]. unfold vfs_getdent, vfs_handle_to_fd. simpl.
        rewrite lookup_insert_eq. simpl. rewrite Hino. simpl. rewrite Hnt. reflexivity.
      * intros [= _ <-]. unfold vfs_getdent. rewrite Hfd, Hino. simpl. rewrite Hnt.
        reflexivity.
Qed.

(** Handle 100 opened read-only. *)
Lemma vfs_read_only_is_protected_witness :
  vfs_chmod Ex.fslist 511 (Ex.tree 0 100 0 VFS_MODE_READ) 100 0
  = Some (-1, Ex.tree 0 100 0 VFS_MODE_READ)
  /\ vfs_write Ex.fslist (Ex.tree 0 100 0 VFS_MODE_READ) 100 10 []
     = Some (0, Ex.tree 0 100 0 VFS_MODE_READ).
Proof.
  apply (vfs_read_only_is_protected Ex.fslist 511 (Ex.tree 0 100 0 VFS_MODE_READ) 100
           (Ex.opened "/a" 2 12 0 VFS_MODE_READ) eq_refl 0 10 [] eq_refl).
Defined.

(** [chmod 07777] on [/a], with the mask 0777. *)
Lemma vfs_chmod_only_adds_mode_bits_witness :
  exists h2 ino2,
    vfs_chmod Ex.fslist 511 (Ex.tree 0 100 0 VFS_MODE_READWRITE) 100 4095
    = Some (0, log_call (set_heap (Ex.tree 0 100 0 VFS_MODE_READWRITE) h2)
                 (CallSync 0 12))
    /\ inodes h2 !! 12%positive = Some ino2
    /\ i_perms ino2 = 511.
Proof.
  destruct (vfs_chmod_only_adds_mode_bits Ex.fslist 511
              (Ex.tree 0 100 0 VFS_MODE_READWRITE) 100
              (Ex.opened "/a" 2 12 0 VFS_MODE_READWRITE) eq_refl
              (Ex.plain_file 0 100 1) (Ex.named "a" 12 1 100) 0%nat Ex.ramfs
              (fun h _ => h) ltac:(discriminate) eq_refl eq_refl eq_refl eq_refl eq_refl
              4095)
    as (h2 & ino2 & tn2 & H1 & H2 & _ & H3 & _).
  exists h2, ino2. split; [exact H1 |]. split; [exact H2 | exact H3].
Defined.

(** Listing [/] through handle 101. *)
Lemma dir_test_lists_children_witness :
  exists s' printed,
    dir_test_loop unit Ex2.no_time 4 Ex2.dirs 101 Ex2.blank [] = Some (printed, s')
    /\ Forall2 (listed Ex2.no_time (heap Ex2.dirs)) printed [2; 3; 4]%positive
    /\ forall de', vfs_getdent unit Ex2.no_time s' 101 de' = Some (0, de', s').
Proof.
  destruct (dir_test_lists_children unit Ex2.no_time (heap Ex2.dirs) 101 11
              (Ex.folder 0 [2; 3; 4]%positive) eq_refl eq_refl
              ltac:(unfold modulus; simpl; lia)
              ltac:(repeat (constructor; [eexists _, _; split; reflexivity |]); constructor)
              Ex2.dirs (Ex.opened "/" 1 11 0 VFS_MODE_READWRITE) Ex2.blank
              eq_refl eq_refl eq_refl eq_refl)
    as (s' & printed & H1 & H2 & _ & _ & _ & _ & H3).
  exists s', printed. split; [exact H1 |]. split; [exact H2 | exact H3].
Defined.

(** [vfs_getdent] on the file [/a]. *)
Lemma vfs_getdent_not_traversable_witness :
  vfs_getdent unit Ex2.no_time Ex2.dirs 100 Ex2.blank = Some (-1, Ex2.blank, Ex2.dirs).
Proof.
  apply (vfs_getdent_not_traversable unit Ex2.no_time Ex2.dirs 100
           (Ex.opened "/a" 2 12 0 VFS_MODE_READWRITE) (Ex.plain_file 0 100 1)
           Ex2.blank eq_refl eq_refl ltac:(discriminate) ltac:(discriminate)).
Defined.

(** ** The list of providers *)

Lemma vfs_get_fs_from_app n name fs : forall l i,
  vfs_get_fs_from n i (l ++ [fs]) name
  = match vfs_get_fs_from n i l name with
    | Some j => Some j
    | None => if strncmp_eq name (fs_name fs) n then Some (i + length l)%nat else None
    end.
Proof.
  induction l as [| f l IH]; intros i; simpl.
  - rewrite Nat.add_0_r. reflexivity.
  - destruct (strncmp_eq name (fs_name f) n); [reflexivity |].
    rewrite IH. replace (S i + length l)%nat with (i + S (length l))%nat by lia.
    reflexivity.
Qed.

(** X20.  [vfs_register_fs] puts the provider at the end of the list: a
    name that was found before is found at the same provider afterwards
    (a provider registered later under a name that agrees on the first
    [FS_NAME_SIZE] characters is never found), and a name that was not
    found is found at the new provider exactly when it agrees with the
    provider's name on those characters. *)
Theorem vfs_register_fs_lookup (fslist : list vfs_fsinfo_t) (fs : vfs_fsinfo_t)
    (FS_NAME_SIZE : nat) (name : string) :
  the_fs (vfs_register_fs fslist fs) (length fslist) = Some fs
  /\ (forall j, vfs_get_fs fslist FS_NAME_SIZE name = Some j ->
        vfs_get_fs (vfs_register_fs fslist fs) FS_NAME_SIZE name = Some j
        /\ the_fs (vfs_register_fs fslist fs) j = the_fs fslist j)
  /\ (vfs_get_fs fslist FS_NAME_SIZE name = None ->
        vfs_get_fs (vfs_register_fs fslist fs) FS_NAME_SIZE name
        = if strncmp_eq name (fs_name fs) FS_NAME_SIZE then Some (length fslist) else None).
Proof.
  unfold vfs_get_fs, vfs_register_fs, the_fs.
  split; [| split].
  - rewrite lookup_app_r by lia. rewrite Nat.sub_diag. reflexivity.
  - intros j Hj. rewrite vfs_get_fs_from_app, Hj. split; [reflexivity |].
    apply vfs_get_fs_from_range in Hj. apply lookup_app_l. lia.
  - intros Hnone. rewrite vfs_get_fs_from_app, Hnone. reflexivity.
Qed.

(** ** The identifier allocators *)

Lemma new_dev_ids_spec M n : forall st,
  0 <= next_new_dev_id st < M ->
  new_dev_ids M n st
  = (map (fun i => (next_new_dev_id st + Z.of_nat i) mod M) (seq 0 n),
     {| next_new_dev_id := (next_new_dev_id st + Z.of_nat n) mod M;
        next_new_ino_id := next_new_ino_id st |}).
Proof.
  induction n as [| n IH]; intros st Hst.
  - simpl. rewrite Z.add_0_r, Z.mod_small by exact Hst. destruct st; reflexivity.
  - cbn [new_dev_ids]. unfold vfs_new_dev_id. rewrite IH by (apply Z.mod_pos_bound; lia).
    cbn [next_new_dev_id next_new_ino_id seq map].
    rewrite Z.add_0_r, (Z.mod_small (next_new_dev_id st)) by exact Hst.
    rewrite <- seq_shift, map_map. f_equal; [f_equal |].
    + apply map_ext. intros i. rewrite Zplus_mod_idemp_l. f_equal. lia.
    + f_equal. rewrite Zplus_mod_idemp_l. f_equal. lia.
Qed.

Lemma new_ino_ids_spec M n : forall st,
  0 <= next_new_ino_id st < M ->
  new_ino_ids M n st
  = (map (fun i => (next_new_ino_id st + Z.of_nat i) mod M) (seq 0 n),
     {| next_new_dev_id := next_new_dev_id st;
        next_new_ino_id := (next_new_ino_id st + Z.of_nat n) mod M |}).
Proof.
  induction n as [| n IH]; intros st Hst.
  - simpl. rewrite Z.add_0_r, Z.mod_small by exact Hst. destruct st; reflexivity.
  - cbn [new_ino_ids]. unfold vfs_new_ino_id. rewrite IH by (apply Z.mod_pos_bound; lia).
    cbn [next_new_dev_id next_new_ino_id seq map].
    rewrite Z.add_0_r, (Z.mod_small (next_new_ino_id st)) by exact Hst.
    rewrite <- seq_shift, map_map. f_equal; [f_equal |].
    + apply map_ext. intros i. rewrite Zplus_mod_idemp_l. f_equal. lia.
    + f_equal. rewrite Zplus_mod_idemp_l. f_equal. lia.
Qed.

Lemma consecutive_distinct M start n :
  0 < M -> Z.of_nat n <= M ->
  NoDup (map (fun i => (start + Z.of_nat i) mod M) (seq 0 n)).
Proof.
  intros HM Hn. apply NoDup_fmap_2_strong; [| apply NoDup_seq].
  intros i j Hi Hj Heq.
  apply elem_of_seq in Hi, Hj.
  assert (Hmod : (Z.of_nat i) mod M = (Z.of_nat j) mod M).
  { assert (H : ((start + Z.of_nat i) - start) mod M = ((start + Z.of_nat j) - start) mod M).
    { rewrite Zminus_mod, Heq, <- Zminus_mod. reflexivity. }
    replace (start + Z.of_nat i - start) with (Z.of_nat i) in H by lia.
    replace (start + Z.of_nat j - start) with (Z.of_nat j) in H by lia.
    exact H. }
  rewrite !Z.mod_small in Hmod by lia. lia.
Qed.

(** X21.  The identifiers that [vfs_new_dev_id] and [vfs_new_ino_id] hand
    out are consecutive modulo the number of values of their types, so as
    many calls as there are values give pairwise distinct identifiers; the
    call after those gives the first identifier again (nothing detects the
    exhaustion).  The two counters are independent: calls of one do not
    change what the other returns. *)
Theorem vfs_new_ids_distinct (dev_modulus ino_modulus : Z) (n k : nat) (st : vfs_ids) :
  0 <= next_new_dev_id st < dev_modulus ->
  0 <= next_new_ino_id st < ino_modulus ->
  Z.of_nat n <= dev_modulus -> Z.of_nat k <= ino_modulus ->
  NoDup (new_dev_ids dev_modulus n st).1
  /\ NoDup (new_ino_ids ino_modulus k st).1
  /\ (new_dev_ids dev_modulus n (new_ino_ids ino_modulus k st).2).1
     = (new_dev_ids dev_modulus n st).1
  /\ (new_ino_ids ino_modulus k (new_dev_ids dev_modulus n st).2).1
     = (new_ino_ids ino_modulus k st).1
  /\ (Z.of_nat n = dev_modulus ->
      (vfs_new_dev_id dev_modulus (new_dev_ids dev_modulus n st).2).1
      = next_new_dev_id st)
  /\ (Z.of_nat k = ino_modulus ->
      (vfs_new_ino_id ino_modulus (new_ino_ids ino_modulus k st).2).1
      = next_new_ino_id st).
Proof.
  intros Hd Hi Hn Hk.
  rewrite (new_dev_ids_spec dev_modulus n st Hd), (new_ino_ids_spec ino_modulus k st Hi).
  cbn [fst snd].
  rewrite new_dev_ids_spec by exact Hd. rewrite new_ino_ids_spec by exact Hi.
  cbn [fst snd vfs_new_dev_id vfs_new_ino_id next_new_dev_id next_new_ino_id].
  repeat split.
  - apply consecutive_distinct; lia.
  - apply consecutive_distinct; lia.
  - intros <-. rewrite <- (Z.mul_1_l (Z.of_nat n)) at 1.
    rewrite Z.mod_add by lia. apply Z.mod_small. exact Hd.
  - intros <-. rewrite <- (Z.mul_1_l (Z.of_nat k)) at 1.
    rewrite Z.mod_add by lia. apply Z.mod_small. exact Hi.
Qed.

(** Registering the memory provider a second time. *)
Lemma vfs_register_fs_lookup_witness :
  vfs_get_fs (vfs_register_fs Ex.fslist Ex.ramfs) 16 "ramfs" = Some 0%nat.
Proof.
  exact (proj1 (proj1 (proj2 (vfs_register_fs_lookup Ex.fslist Ex.ramfs 16 "ramfs"))
                  0%nat eq_refl)).
Defined.

(** Five device identifiers and three inode identifiers from boot. *)
Lemma vfs_new_ids_distinct_witness :
  NoDup (new_dev_ids 256 5 vfs_ids_boot).1
  /\ NoDup (new_ino_ids 65536 3 vfs_ids_boot).1.
Proof.
  pose proof (vfs_new_ids_distinct 256 65536 5 3 vfs_ids_boot
                ltac:(simpl; lia) ltac:(simpl; lia) ltac:(simpl; lia) ltac:(simpl; lia))
    as (H1 & H2 & _).
  split; [exact H1 | exact H2].
Defined.

(** ** [hpet_nanosleep] *)

Lemma hpet_nanosleep_loop_step fuel clock n stt tgt :
  hpet_nanosleep_loop (S fuel) clock n stt tgt
  = if decide (clock n >= tgt) then Some (S n)
    else if decide (clock n <= stt) then Some (S n)
    else hpet_nanosleep_loop fuel clock (S n) stt tgt.
Proof. reflexivity. Qed.

Lemma hpet_nanosleep_loop_reaches clock stt tgt : forall fuel n,
  (forall m, (n <= m)%nat -> stt < clock m) ->
  clock (n + fuel)%nat >= tgt ->
  exists r,
    hpet_nanosleep_loop (S fuel) clock n stt tgt = Some (S r)
    /\ (n <= r <= n + fuel)%nat
    /\ clock r >= tgt
    /\ forall m, (n <= m < r)%nat -> clock m < tgt.
Proof.
  induction fuel as [| fuel IH]; intros n Hstt Hreach; rewrite hpet_nanosleep_loop_step.
  - rewrite Nat.add_0_r in Hreach. rewrite decide_True by exact Hreach.
    exists n. repeat split; lia.
  - destruct (decide (clock n >= tgt)) as [Hge | Hlt].
    + exists n. repeat split; lia.
    + rewrite decide_False by (specialize (Hstt n ltac:(lia)); lia).
      destruct (IH (S n)) as (r & Hrun & Hr & Hge & Hbefore).
      * intros m Hm. apply Hstt. lia.
      * replace (S n + fuel)%nat with (n + S fuel)%nat by lia. exact Hreach.
      * exists r. split; [exact Hrun |]. split; [lia |]. split; [exact Hge |].
        intros m Hm. destruct (decide (m = n)) as [-> | Hne]; [lia |].
        apply Hbefore. lia.
Qed.

Lemma increasing_clock (clock : nat -> Z) :
  (forall n, clock n < clock (S n)) ->
  forall n m, clock n + Z.of_nat m <= clock (n + m)%nat.
Proof.
  intros Hinc n m. induction m as [| m IH].
  - rewrite Nat.add_0_r. simpl. lia.
  - replace (n + S m)%nat with (S (n + m)) by lia.
    specialize (Hinc (n + m)%nat). lia.
Qed.

(** X22.  With a clock that every call of [hpet_get_nanos] finds further
    on, and a target that does not wrap, [hpet_nanosleep] returns: it
    returns at the first reading that has reached the target, and from its
    first reading of the clock to its last at least [nanos] have gone
    by. *)
Theorem hpet_nanosleep_waits (clock : nat -> Z) (nanos : Z) :
  (forall n, clock n < clock (S n)) ->
  0 <= clock 0%nat -> 0 <= nanos -> clock 1%nat + nanos < modulus ->
  exists r,
    hpet_nanosleep (S (Z.to_nat nanos)) clock nanos = Some (S r)
    /\ (2 <= r)%nat
    /\ clock r >= clock 1%nat + nanos
    /\ clock r - clock 0%nat > nanos
    /\ forall m, (2 <= m < r)%nat -> clock m < clock 1%nat + nanos.
Proof.
  intros Hinc H0 Hn Hfit.
  pose proof (Hinc 0%nat) as H01.
  assert (Htgt : add64 (clock 1%nat) nanos = clock 1%nat + nanos).
  { unfold add64. apply wrap64_small. unfold is_size_t. lia. }
  unfold hpet_nanosleep. rewrite Htgt.
  destruct (hpet_nanosleep_loop_reaches clock (clock 0%nat) (clock 1%nat + nanos)
              (Z.to_nat nanos) 2) as (r & Hrun & Hr & Hge & Hbefore).
  - intros m Hm. pose proof (increasing_clock clock Hinc 0 m) as H. simpl in H. lia.
  - pose proof (increasing_clock clock Hinc 1 (S (Z.to_nat nanos))) as H.
    replace (1 + S (Z.to_nat nanos))%nat with (2 + Z.to_nat nanos)%nat in H by lia.
    lia.
  - exists r. split; [exact Hrun |]. split; [lia |]. split; [exact Hge |].
    split; [lia | exact Hbefore].
Qed.

(** X23.  [hpet_nanosleep] does not wait when its third reading of the
    clock is not after the first (a clock that stands still, or that has
    wrapped), nor when the wrapped target is already reached: it returns
    after three calls of [hpet_get_nanos], however long the sleep asked
    for.  Before [hpet_init] the clock is the count of PIT ticks. *)
Theorem hpet_nanosleep_returns_at_once (fuel : nat) (hpet_period : Z)
    (counter ticks : nat -> Z) (hpet : option ptr) (nanos : Z) :
  let clock n := hpet_get_nanos hpet hpet_period (counter n) (ticks n) in
  (hpet = None -> forall n, clock n = ticks n)
  /\ (clock 2%nat <= clock 0%nat \/ clock 2%nat >= (clock 1%nat + nanos) mod modulus ->
      hpet_nanosleep (S fuel) clock nanos = Some 3%nat).
Proof.
  intros clock. split.
  - intros -> n. reflexivity.
  - intros H. unfold hpet_nanosleep. rewrite hpet_nanosleep_loop_step.
    unfold add64, wrap64.
    destruct (decide (clock 2%nat >= (clock 1%nat + nanos) mod modulus)); [reflexivity |].
    rewrite decide_True by lia. reflexivity.
Qed.

(** ** [pit_wait] and [pit_init] *)

Lemma pit_wait_loop_step fuel ticks n target_ticks :
  pit_wait_loop (S fuel) ticks n target_ticks
  = if decide (ticks n >= target_ticks) then Some (S n)
    else pit_wait_loop fuel ticks (S n) target_ticks.
Proof. reflexivity. Qed.

Lemma pit_wait_loop_reaches ticks target : forall fuel n,
  (forall m, ticks (S m) = ticks m \/ ticks (S m) = ticks m + 1) ->
  ticks n < target ->
  ticks (S n + fuel)%nat >= target ->
  exists r,
    pit_wait_loop (S fuel) ticks (S n) target = Some (S r)
    /\ (S n <= r <= S n + fuel)%nat
    /\ ticks r = target
    /\ forall m, (m < r)%nat -> (n <= m)%nat -> ticks m < target.
Proof.
  induction fuel as [| fuel IH]; intros n Hstep Hbelow Hreach; rewrite pit_wait_loop_step.
  - rewrite Nat.add_0_r in Hreach. rewrite decide_True by exact Hreach.
    exists (S n). repeat split; try lia.
    + destruct (Hstep n); lia.
    + intros m H1 H2. replace m with n by lia. exact Hbelow.
  - destruct (decide (ticks (S n) >= target)) as [Hge | Hlt].
    + exists (S n). repeat split; try lia.
      * destruct (Hstep n); lia.
      * intros m H1 H2. replace m with n by lia. exact Hbelow.
    + destruct (IH (S n) Hstep) as (r & Hrun & Hr & Heq & Hbefore).
      * lia.
      * replace (S (S n) + fuel)%nat with (S n + S fuel)%nat by lia. exact Hreach.
      * exists r. split; [exact Hrun |]. split; [lia |]. split; [exact Heq |].
        intros m H1 H2. destruct (decide (m = n)) as [-> | Hne]; [exact Hbelow |].
        apply Hbefore; lia.
Qed.

(** X24.  While the interrupt handler adds at most one tick between two
    reads of [pit_ticks], [pit_wait (ms)] with [ms >= 1] and a target that
    does not wrap returns at the first read that finds

      [pit_ticks = start + ms]:

    it waits for exactly [ms] ticks, and returns as soon as the counter
    has got there. *)
Theorem pit_wait_exact (ticks : nat -> Z) (ms : Z) (N : nat) :
  (forall m, ticks (S m) = ticks m \/ ticks (S m) = ticks m + 1) ->
  0 <= ticks 0%nat -> 1 <= ms -> ticks 0%nat + ms < modulus ->
  ticks N >= ticks 0%nat + ms ->
  exists r,
    pit_wait N ticks ms = Some (S r)
    /\ (1 <= r <= N)%nat
    /\ ticks r = ticks 0%nat + ms
    /\ forall m, (m < r)%nat -> ticks m < ticks 0%nat + ms.
Proof.
  intros Hstep H0 Hms Hfit Hreach.
  assert (Htgt : add64 (ticks 0%nat) ms = ticks 0%nat + ms).
  { unfold add64. apply wrap64_small. unfold is_size_t. lia. }
  unfold pit_wait. rewrite Htgt.
  destruct N as [| N]; [lia |].
  destruct (pit_wait_loop_reaches ticks (ticks 0%nat + ms) N 0 Hstep)
    as (r & Hrun & Hr & Heq & Hbefore); [lia | exact Hreach |].
  exists r. split; [exact Hrun |]. split; [lia |]. split; [exact Heq |].
  intros m Hm. apply Hbefore; lia.
Qed.

(** X25.  For a frequency for which the divisor fits 16 bits, [pit_init]
    programs the divisor nearest to [1193182 / freq]: the frequency that
    results is off by at most half a step, and the two bytes written to
    port 0x40 after the command byte are the low and the high byte of the
    divisor, in that order. *)
Theorem pit_init_programs_nearest_divisor (freq : Z) :
  19 <= freq <= 1193182 ->
  let x := pit_divisor freq in
  0 < x < 2 ^ 16
  /\ 2 * Z.abs (1193182 - x * freq) <= freq
  /\ exists lo hi,
       pit_init freq
       = [PortOutb 67 54; PortIoWait; PortOutb 64 lo; PortIoWait;
          PortOutb 64 hi; PortIoWait;
          ExcRegisterHandlerIrq0; PitTicksReset; IrqClearMask 0]
       /\ 0 <= lo < 256 /\ 0 <= hi < 256 /\ lo + 256 * hi = x.
Proof.
  intros Hfreq x.
  pose proof (Z.div_mod 1193182 freq ltac:(lia)) as Hdm.
  pose proof (Z.mod_pos_bound 1193182 freq ltac:(lia)) as Hr.
  pose proof (Z.div_mod freq 2 ltac:(lia)) as Hhalf.
  pose proof (Z.mod_pos_bound freq 2 ltac:(lia)) as Hh2.
  assert (Hq : 1 <= 1193182 / freq <= 62799).
  { split.
    - apply Z.div_le_lower_bound; lia.
    - enough (1193182 / freq < 62800) by lia.
      apply Z.div_lt_upper_bound; lia. }
  assert (Hx : x = if decide (1193182 mod freq > freq / 2)
                   then 1193182 / freq + 1 else 1193182 / freq).
  { subst x. unfold pit_divisor. rewrite (Z.mod_small (1193182 / freq)) by lia.
    destruct (decide _); [apply Z.mod_small; lia | reflexivity]. }
  assert (Hrange : 0 < x < 2 ^ 16) by (rewrite Hx; destruct (decide _); lia).
  split; [exact Hrange |]. split.
  - rewrite Hx. destruct (decide _) as [Hup | Hdown]; nia.
  - exists (Z.land x 255 mod 2 ^ 8), (Z.shiftr (Z.land x 65280) 8 mod 2 ^ 8).
    split; [reflexivity |].
    assert (Hlo : Z.land x 255 = x mod 2 ^ 8) by (apply (Z.land_ones x 8); lia).
    assert (Hhi : Z.shiftr (Z.land x 65280) 8 = (x / 2 ^ 8) mod 2 ^ 8).
    { rewrite Z.shiftr_land. change (Z.shiftr 65280 8) with (Z.ones 8).
      rewrite Z.land_ones by lia. rewrite Z.shiftr_div_pow2 by lia. reflexivity. }
    rewrite Hlo, Hhi, !Z.mod_mod by lia.
    pose proof (Z.mod_pos_bound x (2 ^ 8) ltac:(lia)).
    pose proof (Z.mod_pos_bound (x / 2 ^ 8) (2 ^ 8) ltac:(lia)).
    split; [lia |]. split; [lia |].
    rewrite (Z.mod_small (x / 2 ^ 8)).
    + pose proof (Z.div_mod x (2 ^ 8) ltac:(lia)). lia.
    + split; [apply Z.div_pos; lia | apply Z.div_lt_upper_bound; lia].
Qed.

(** ** [echo] *)

Lemma echo_loop_step fuel argc argv i out :
  echo_loop (S fuel) argc argv i out
  = if decide (i < argc) then
      echo_loop fuel argc argv (i + 1)
        (if decide (i + 1 < argc)
         then (out ++ c_str (nth (Z.to_nat i) argv [])) ++ [" "%char]
         else (out ++ c_str (nth (Z.to_nat i) argv [])) ++ ["010"%char])
    else out.
Proof. reflexivity. Qed.

Lemma echo_loop_done fuel argc argv i out :
  argc <= i -> echo_loop fuel argc argv i out = out.
Proof.
  intros Hi. destruct fuel as [| fuel]; [reflexivity |].
  rewrite echo_loop_step. rewrite decide_False by lia. reflexivity.
Qed.

Lemma echo_loop_writes a : forall rest pre out fuel argc,
  (length rest < fuel)%nat ->
  argc = Z.of_nat (length pre + length rest + 1) ->
  echo_loop fuel argc (pre ++ rest ++ [a]) (Z.of_nat (length pre)) out
  = out ++ concat (map (fun x => c_str x ++ [" "%char]) rest) ++ c_str a ++ ["010"%char].
Proof.
  induction rest as [| x rest IH]; intros pre out fuel argc Hfuel Hargc;
    (destruct fuel as [| fuel]; [simpl in Hfuel; lia |]); rewrite echo_loop_step;
    simpl length in Hargc, Hfuel.
  - rewrite decide_True by lia. rewrite decide_False by lia.
    rewrite Nat2Z.id.
    change (pre ++ [] ++ [a]) with (pre ++ [a]). rewrite nth_middle.
    rewrite echo_loop_done by lia. simpl. rewrite <- app_assoc. reflexivity.
  - rewrite decide_True by lia. rewrite decide_True by lia.
    rewrite Nat2Z.id.
    change (pre ++ (x :: rest) ++ [a]) with (pre ++ x :: (rest ++ [a])).
    rewrite nth_middle.
    replace (pre ++ x :: rest ++ [a]) with ((pre ++ [x]) ++ rest ++ [a])
      by (rewrite <- app_assoc; reflexivity).
    replace (Z.of_nat (length pre) + 1) with (Z.of_nat (length (pre ++ [x])))
      by (rewrite length_app; simpl; lia).
    rewrite IH by (try rewrite length_app; simpl; lia).
    simpl. rewrite <- !app_assoc. reflexivity.
Qed.

(** X26.  [echo] writes its arguments (without the program name) in
    order, a single space between two of them and a newline after the
    last, and returns 0; without arguments it writes nothing, not even the
    newline. *)
Theorem echo_main_output (prog : list ascii) (args : list (list ascii)) (a : list ascii) :
  echo_main (prog :: args ++ [a])
  = (concat (map (fun x => c_str x ++ [" "%char]) args) ++ c_str a ++ ["010"%char], 0)
  /\ echo_main [prog] = ([], 0)
  /\ echo_main [] = ([], 0).
Proof.
  split; [| split; reflexivity].
  unfold echo_main. f_equal.
  apply (echo_loop_writes a args [prog] []).
  - simpl. rewrite length_app. simpl. lia.
  - simpl. rewrite length_app. simpl. lia.
Qed.

(** A sleep of 25 on a clock that moves by 10 at every reading. *)
Lemma hpet_nanosleep_waits_witness :
  exists r,
    hpet_nanosleep 26 Ex2.steady_clock 25 = Some (S r)
    /\ Ex2.steady_clock r - Ex2.steady_clock 0 > 25.
Proof.
  destruct (hpet_nanosleep_waits Ex2.steady_clock 25) as (r & H1 & _ & _ & H2 & _).
  - intros n. unfold Ex2.steady_clock. lia.
  - unfold Ex2.steady_clock. lia.
  - lia.
  - unfold Ex2.steady_clock, modulus. simpl. lia.
  - exists r. split; [exact H1 | exact H2].
Defined.

(** A sleep on the PIT fallback while the ticks stand still. *)
Lemma hpet_nanosleep_returns_at_once_witness :
  hpet_nanosleep 6 (fun n => hpet_get_nanos None 1 0 7) 1000 = Some 3%nat.
Proof.
  apply (proj2 (hpet_nanosleep_returns_at_once 5 1 (fun _ => 0) (fun _ => 7) None 1000)).
  left. simpl. lia.
Defined.

(** A wait of 3 ticks while every read finds one tick more. *)
Lemma pit_wait_exact_witness :
  exists r,
    pit_wait 3 Ex2.tick_per_read 3 = Some (S r)
    /\ Ex2.tick_per_read r = Ex2.tick_per_read 0 + 3.
Proof.
  destruct (pit_wait_exact Ex2.tick_per_read 3 3) as (r & H1 & _ & H2 & _).
  - intros m. right. unfold Ex2.tick_per_read. lia.
  - unfold Ex2.tick_per_read. lia.
  - lia.
  - unfold Ex2.tick_per_read, modulus. simpl. lia.
  - unfold Ex2.tick_per_read. simpl. lia.
  - exists r. split; [exact H1 | exact H2].
Defined.

(** The frequency of [pit.c]. *)
Lemma pit_init_programs_nearest_divisor_witness :
  0 < pit_divisor PIT_FREQ_HZ < 2 ^ 16
  /\ 2 * Z.abs (1193182 - pit_divisor PIT_FREQ_HZ * PIT_FREQ_HZ) <= PIT_FREQ_HZ.
Proof.
  pose proof (pit_init_programs_nearest_divisor PIT_FREQ_HZ
                ltac:(unfold PIT_FREQ_HZ; lia)) as H.
  cbv zeta in H. destruct H as (H1 & H2 & _).
  split; [exact H1 | exact H2].
Defined.

(** [echo a bc]. *)
Lemma echo_main_output_witness :
  echo_main Ex2.echo_argv = (list_ascii_of_string "a bc" ++ ["010"%char], 0).
Proof.
  exact (proj1 (echo_main_output (list_ascii_of_string "echo" ++ [NUL])
                  [list_ascii_of_string "a" ++ [NUL]]
                  (list_ascii_of_string "bc" ++ [NUL]))).
Defined.
